(** * Sprite rendering script ([scripts/sprites/render_sprites.py])

    A shallow embedding of the batch sprite renderer: the object filter
    [should_exclude_object], the auto-framing [fit_camera_to_objects], the
    per-model driver [render_model] and the batch driver [main].

    Modelling conventions.
    - Python floats are idealised as exact rationals ([Q]); rounding is not
      modelled.  Results are therefore compared with [==] ([Qeq]).
    - The two sentinels [float('inf')] and [float('-inf')] of the framing
      loop are the constructors [PInf] and [NInf] of [ext].
    - Python exceptions are values of [exn]; fallible code returns [result].
    - Strings are byte strings; [lower] is [str.lower] on the ASCII letters
      and leaves every other byte as it is.  The exclusion patterns are
      ASCII.
    - The host scene is an explicit state ([bpy]); Python object identity
      is an object id ([oid]), so that the camera handle returned by
      [create_camera] aliases the camera stored in the scene.

    Scope of the host model.
    - The host runs in background and in object mode, with one scene to
      which every object of [bpy.data.objects] is linked; operators find
      the context they need, and the renderer and the file system do what
      they are asked.
    - [select_all] selects an object unless it is hidden or has
      [hide_select] set ([selectable]); the objects it does not select
      survive [setup_scene].
    - A model file on disk is a readable .blend file, given by the objects
      the host yields when it loads the file.
    - Paths are strings and [/] on paths is concatenation with a separator:
      what pathlib does below an absolute directory ([absolute_path]) for
      a path component without path syntax ([plain_name]).
    - An assignment to [obj.name] gives the object that name: what the host
      does when no other object has the name ([name_free]); it appends a
      numeric suffix otherwise.
    - [camera.data.ortho_scale] is assigned through a camera handle; the
      host rejects the assignment for an object of another type.
    - Resolutions are positive integers: what the host's render settings
      hold for values up to 65536 ([renderable]).
    Where a property depends on one of these, it carries the restriction
    as a hypothesis when the model can express it. *)

From Stdlib Require Import QArith Lqa ZArith Lia Bool List String Ascii.
Import ListNotations.

Local Open Scope string_scope.
Local Open Scope Q_scope.

(** ** Exceptions and results *)

Inductive exn : Type :=
| ZeroDivisionError            (* float or int division by zero *)
| ValueError                   (* max() / min() of an empty sequence *)
| OSError (path : string)      (* library file cannot be opened *)
| AttributeError               (* attribute access on None *)
| NonFiniteBounds.             (* framing arithmetic on an infinite sentinel;
                                  never raised, see [bounds_finite] *)

Inductive result (A : Type) : Type :=
| Ok (a : A)
| Raise (e : exn).

Arguments Ok {A} a.
Arguments Raise {A} e.

Definition rbind {A B} (r : result A) (k : A -> result B) : result B :=
  match r with
  | Ok a => k a
  | Raise e => Raise e
  end.

Declare Scope result_scope.
Delimit Scope result_scope with result.
Notation "'let?' x ':=' r 'in' k" := (rbind r (fun x => k))
  (at level 10, x name, r at level 100, k at level 200) : result_scope.
Local Open Scope result_scope.

(** ** Numbers *)

(** [a < b] on floats, as a boolean. *)
Definition Qltb (a b : Q) : bool :=
  match a ?= b with
  | Lt => true
  | _ => false
  end.

(** [a / b]: Python raises on a zero divisor. *)
Definition py_div (a b : Q) : result Q :=
  if Qeq_bool b 0 then Raise ZeroDivisionError else Ok (a / b).

(** [max(a, b)] and [min(a, b)]: the first argument is kept unless the
    second is strictly larger (smaller). *)
Definition py_max2 (a b : Q) : Q := if Qltb a b then b else a.
Definition py_min2 (a b : Q) : Q := if Qltb b a then b else a.

(** [max(seq)] and [min(seq)] on a list. *)
Definition py_max (l : list Q) : result Q :=
  match l with
  | [] => Raise ValueError
  | x :: xs => Ok (fold_left py_max2 xs x)
  end.

Definition py_min (l : list Q) : result Q :=
  match l with
  | [] => Raise ValueError
  | x :: xs => Ok (fold_left py_min2 xs x)
  end.

(** [int(x)]: truncation towards zero. *)
Definition py_int (q : Q) : Z := Z.quot (Qnum q) (Zpos (Qden q)).

(** ** Strings *)

Definition lower_char (c : ascii) : ascii :=
  let n := N_of_ascii c in
  if ((65 <=? n) && (n <=? 90))%N then ascii_of_N (n + 32) else c.

(** [s.lower()] *)
Fixpoint lower (s : string) : string :=
  match s with
  | EmptyString => EmptyString
  | String c s' => String (lower_char c) (lower s')
  end.

(** [s.startswith(p)] *)
Fixpoint startswith (p s : string) : bool :=
  match p, s with
  | EmptyString, _ => true
  | String a p', String b s' => Ascii.eqb a b && startswith p' s'
  | String _ _, EmptyString => false
  end.

(** [p in s]: substring test. *)
Fixpoint str_in (p s : string) : bool :=
  startswith p s ||
  match s with
  | EmptyString => false
  | String _ s' => str_in p s'
  end.

(** ** Geometry *)

Record vec3 : Type := mkVec { vx : Q; vy : Q; vz : Q }.

(** [Object.bound_box]: the host's fixed array of eight corners. *)
Record bound_box_t : Type := mkBox {
  c0 : vec3; c1 : vec3; c2 : vec3; c3 : vec3;
  c4 : vec3; c5 : vec3; c6 : vec3; c7 : vec3
}.

Definition corners (b : bound_box_t) : list vec3 :=
  [c0 b; c1 b; c2 b; c3 b; c4 b; c5 b; c6 b; c7 b].

(** A 4x4 matrix, by rows. *)
Definition row4 : Type := (Q * Q * Q * Q)%type.
Record matrix : Type := mkMat { r0 : row4; r1 : row4; r2 : row4; r3 : row4 }.

Definition row_dot (r : row4) (v : vec3) : Q :=
  let '(a, b, c, d) := r in a * vx v + b * vy v + c * vz v + d.

(** [m @ Vector(v)] for a 4x4 matrix and a 3D vector: the vector is
    extended with w = 1 and the result is again 3D. *)
Definition mat_vec (m : matrix) (v : vec3) : vec3 :=
  mkVec (row_dot (r0 m) v) (row_dot (r1 m) v) (row_dot (r2 m) v).

Definition identity_matrix : matrix :=
  mkMat (1, 0, 0, 0) (0, 1, 0, 0) (0, 0, 1, 0) (0, 0, 0, 1).

Definition translation (loc : vec3) : matrix :=
  mkMat (1, 0, 0, vx loc) (0, 1, 0, vy loc) (0, 0, 1, vz loc) (0, 0, 0, 1).

(** ** Scene objects *)

(** A host object.  The attributes of the camera and light data blocks
    ([obj.data.type], [obj.data.ortho_scale], [obj.data.energy]) are kept on
    the object record; they are read only for objects of the matching type.
    [selectable] tells whether [select_all] selects the object: it is false
    for an object that is hidden in the viewport or has [hide_select] set. *)
Record object : Type := mkObject {
  oid : nat;
  name : string;
  type : string;
  bound_box : bound_box_t;
  matrix_world : matrix;
  location : vec3;
  rotation_euler : vec3;
  data_type : string;
  ortho_scale : Q;
  energy : Q;
  selectable : bool
}.

(** ** Configuration *)

(** Base resolution per hex (maintains 60:52 aspect ratio). *)
Definition BASE_WIDTH : positive := 512.
Definition BASE_HEIGHT : positive :=
  Z.to_pos (py_int (inject_Z (512 * 52) / 60)).

(** Object name patterns to exclude (bases, platforms, etc.) *)
Definition EXCLUDE_PATTERNS : list string :=
  [ "plane"; "base"; "floor"; "platform"; "ground";
    "hex"; "hexagon"; "hexagone"; "socle";
    "support"; "stand"; "pad" ].

(** ** Object filter *)

(** [max(z_coords) - min(z_coords)] *)
Definition z_height (bbox : bound_box_t) : result Q :=
  let z_coords := map vz (corners bbox) in
  let? hi := py_max z_coords in
  let? lo := py_min z_coords in
  Ok (hi - lo).

(** [max(max(xs) - min(xs), max(ys) - min(ys))] *)
Definition xy_size (bbox : bound_box_t) : result Q :=
  let xy_coords_x := map vx (corners bbox) in
  let xy_coords_y := map vy (corners bbox) in
  let? xhi := py_max xy_coords_x in
  let? xlo := py_min xy_coords_x in
  let? yhi := py_max xy_coords_y in
  let? ylo := py_min xy_coords_y in
  Ok (py_max2 (xhi - xlo) (yhi - ylo)).

(** Check if an object should be excluded from rendering. *)
Definition should_exclude_object (obj : object) : result bool :=
  if negb (type obj =? "MESH")%string then Ok false
  else
    let name_lower := lower (name obj) in
    if existsb (fun pattern => str_in pattern name_lower) EXCLUDE_PATTERNS
    then Ok true
    else
      let bbox := bound_box obj in
      let? z := z_height bbox in
      let? xy := xy_size bbox in
      if Qltb 0 xy then
        let? ratio := py_div z xy in
        if Qltb ratio 0.05 then Ok true else Ok false
      else Ok false.

(** ** Host state *)

(** [scene.render] *)
Record render_settings : Type := mkRender {
  engine : string;
  film_transparent : bool;
  file_format : string;
  color_mode : string;
  resolution_x : positive;
  resolution_y : positive;
  resolution_percentage : positive;
  filepath : string
}.

(** [scene.cycles] *)
Record cycles_settings : Type := mkCycles {
  samples : positive;
  use_denoising : bool
}.

(** A world data block.  [background] holds the two inputs (colour and
    strength) of the node named "Background" when the node tree has one. *)
Record world_data : Type := mkWorldData {
  world_name : string;
  use_nodes : bool;
  background : option ((Q * Q * Q * Q) * Q)
}.

(** [bpy.context.scene] *)
Record scene_t : Type := mkScene {
  objects : list object;
  camera : option nat;
  render : render_settings;
  cycles : cycles_settings;
  world : option string          (* name of the world data block in use *)
}.

(** The host application seen from the script: the scene, the world data
    blocks, the active object, the next fresh object identity, the model
    files on disk (a .blend file is the list of objects that loading it
    yields, [None] for an object that could not be loaded), the directories
    created during the run (by the script or by the renderer), standard
    output (one entry per [print] call) and the images written by the
    renderer (path and the scene as rendered). *)
Record bpy : Type := mkBpy {
  scene : scene_t;
  worlds : list world_data;
  active_object : option nat;
  next_id : nat;
  files : string -> option (list (option object));
  directories : list string;
  stdout : list string;
  written : list (string * scene_t)
}.

Definition set_scene (sc : scene_t) (w : bpy) : bpy :=
  mkBpy sc (worlds w) (active_object w) (next_id w) (files w)
        (directories w) (stdout w) (written w).

Definition set_objects (l : list object) (sc : scene_t) : scene_t :=
  mkScene l (camera sc) (render sc) (cycles sc) (world sc).

Definition set_camera (c : option nat) (sc : scene_t) : scene_t :=
  mkScene (objects sc) c (render sc) (cycles sc) (world sc).

Definition set_render (r : render_settings) (sc : scene_t) : scene_t :=
  mkScene (objects sc) (camera sc) r (cycles sc) (world sc).

Definition set_cycles (c : cycles_settings) (sc : scene_t) : scene_t :=
  mkScene (objects sc) (camera sc) (render sc) c (world sc).

Definition set_world (n : option string) (sc : scene_t) : scene_t :=
  mkScene (objects sc) (camera sc) (render sc) (cycles sc) n.

Definition set_engine (s : string) (r : render_settings) : render_settings :=
  mkRender s (film_transparent r) (file_format r) (color_mode r)
           (resolution_x r) (resolution_y r) (resolution_percentage r)
           (filepath r).

Definition set_film_transparent (b : bool) (r : render_settings)
  : render_settings :=
  mkRender (engine r) b (file_format r) (color_mode r)
           (resolution_x r) (resolution_y r) (resolution_percentage r)
           (filepath r).

Definition set_file_format (s : string) (r : render_settings)
  : render_settings :=
  mkRender (engine r) (film_transparent r) s (color_mode r)
           (resolution_x r) (resolution_y r) (resolution_percentage r)
           (filepath r).

Definition set_color_mode (s : string) (r : render_settings)
  : render_settings :=
  mkRender (engine r) (film_transparent r) (file_format r) s
           (resolution_x r) (resolution_y r) (resolution_percentage r)
           (filepath r).

Definition set_resolution_x (n : positive) (r : render_settings)
  : render_settings :=
  mkRender (engine r) (film_transparent r) (file_format r) (color_mode r)
           n (resolution_y r) (resolution_percentage r) (filepath r).

Definition set_resolution_y (n : positive) (r : render_settings)
  : render_settings :=
  mkRender (engine r) (film_transparent r) (file_format r) (color_mode r)
           (resolution_x r) n (resolution_percentage r) (filepath r).

Definition set_resolution_percentage (n : positive) (r : render_settings)
  : render_settings :=
  mkRender (engine r) (film_transparent r) (file_format r) (color_mode r)
           (resolution_x r) (resolution_y r) n (filepath r).

Definition set_filepath (s : string) (r : render_settings)
  : render_settings :=
  mkRender (engine r) (film_transparent r) (file_format r) (color_mode r)
           (resolution_x r) (resolution_y r) (resolution_percentage r) s.

(** ** The script monad: host state and exceptions *)

Definition M (A : Type) : Type := bpy -> result (A * bpy).

Definition ret {A} (a : A) : M A := fun w => Ok (a, w).

Definition bind {A B} (m : M A) (k : A -> M B) : M B :=
  fun w =>
    match m w with
    | Ok (a, w') => k a w'
    | Raise e => Raise e
    end.

Definition lift {A} (r : result A) : M A :=
  fun w =>
    match r with
    | Ok a => Ok (a, w)
    | Raise e => Raise e
    end.

Declare Scope script_scope.
Delimit Scope script_scope with script.
Notation "x <- m ;; k" := (bind m (fun x => k))
  (at level 61, m at next level, right associativity) : script_scope.
Notation "m ;; k" := (bind m (fun _ => k))
  (at level 61, right associativity) : script_scope.
Local Open Scope script_scope.

(** [print(s)] *)
Definition print (s : string) : M unit :=
  fun w =>
    Ok (tt, mkBpy (scene w) (worlds w) (active_object w) (next_id w)
                  (files w) (directories w) (stdout w ++ [s]) (written w)).

(** Apply [f] to the scene. *)
Definition modify_scene (f : scene_t -> scene_t) : M unit :=
  fun w => Ok (tt, set_scene (f (scene w)) w).

(** Assignment to attributes of the object with identity [i]. *)
Definition update_obj (i : nat) (f : object -> object) (l : list object)
  : list object :=
  map (fun o => if Nat.eqb (oid o) i then f o else o) l.

Definition modify_obj (i : nat) (f : object -> object) : M unit :=
  modify_scene (fun sc => set_objects (update_obj i f (objects sc)) sc).

Definition set_name (s : string) (o : object) : object :=
  mkObject (oid o) s (type o) (bound_box o) (matrix_world o) (location o)
           (rotation_euler o) (data_type o) (ortho_scale o) (energy o)
           (selectable o).

Definition set_oid (i : nat) (o : object) : object :=
  mkObject i (name o) (type o) (bound_box o) (matrix_world o) (location o)
           (rotation_euler o) (data_type o) (ortho_scale o) (energy o)
           (selectable o).

Definition set_bound_box (bb : bound_box_t) (o : object) : object :=
  mkObject (oid o) (name o) (type o) bb (matrix_world o) (location o)
           (rotation_euler o) (data_type o) (ortho_scale o) (energy o)
           (selectable o).

Definition set_location (v : vec3) (o : object) : object :=
  mkObject (oid o) (name o) (type o) (bound_box o) (matrix_world o) v
           (rotation_euler o) (data_type o) (ortho_scale o) (energy o)
           (selectable o).

Definition set_rotation_euler (v : vec3) (o : object) : object :=
  mkObject (oid o) (name o) (type o) (bound_box o) (matrix_world o)
           (location o) v (data_type o) (ortho_scale o) (energy o)
           (selectable o).

Definition set_data_type (s : string) (o : object) : object :=
  mkObject (oid o) (name o) (type o) (bound_box o) (matrix_world o)
           (location o) (rotation_euler o) s (ortho_scale o) (energy o)
           (selectable o).

Definition set_ortho_scale (q : Q) (o : object) : object :=
  mkObject (oid o) (name o) (type o) (bound_box o) (matrix_world o)
           (location o) (rotation_euler o) (data_type o) q (energy o)
           (selectable o).

Definition set_energy (q : Q) (o : object) : object :=
  mkObject (oid o) (name o) (type o) (bound_box o) (matrix_world o)
           (location o) (rotation_euler o) (data_type o) (ortho_scale o) q
           (selectable o).

(** [obj.location.x = q] and [obj.location.y = q] *)
Definition set_location_x (q : Q) (o : object) : object :=
  set_location (mkVec q (vy (location o)) (vz (location o))) o.

Definition set_location_y (q : Q) (o : object) : object :=
  set_location (mkVec (vx (location o)) q (vz (location o))) o.

Definition modify_render (f : render_settings -> render_settings) : M unit :=
  modify_scene (fun sc => set_render (f (render sc)) sc).

(** ** Host operations used by the script *)

(** The bounding box the host gives an object without geometry (a camera,
    a light): eight corners at the origin. *)
Definition default_box : bound_box_t :=
  mkBox (mkVec 0 0 0) (mkVec 0 0 0) (mkVec 0 0 0) (mkVec 0 0 0)
        (mkVec 0 0 0) (mkVec 0 0 0) (mkVec 0 0 0) (mkVec 0 0 0).

(** [bpy.ops.object.camera_add] / [light_add]: a new object with a fresh
    identity is appended to the scene and becomes the active object; it is
    visible and selectable.  [sc] and [en] are the initial
    [data.ortho_scale] and [data.energy]. *)
Definition object_add (nm ty dty : string) (loc : vec3) (sc en : Q) : M unit :=
  fun w =>
    let o := mkObject (next_id w) nm ty default_box (translation loc) loc
                      (mkVec 0 0 0) dty sc en true in
    Ok (tt, mkBpy (set_objects (objects (scene w) ++ [o]) (scene w))
                  (worlds w) (Some (next_id w)) (S (next_id w)) (files w)
                  (directories w) (stdout w) (written w)).

Definition camera_add (loc : vec3) : M unit :=
  object_add "Camera" "CAMERA" "PERSP" loc 6 0.

Definition light_add (ty : string) (loc : vec3) : M unit :=
  object_add "Sun" "LIGHT" ty loc 0 1.

(** [bpy.context.active_object], used as the target of an assignment. *)
Definition context_active_object : M nat :=
  fun w =>
    match active_object w with
    | Some i => Ok (i, w)
    | None => Raise AttributeError
    end.

(** A reference to an object (the scene camera, the active object) after
    a deletion: it is cleared unless the object is among [rest]. *)
Definition live_ref (rest : list object) (r : option nat) : option nat :=
  match r with
  | Some i =>
      if existsb (fun o => Nat.eqb (oid o) i) rest then Some i else None
  | None => None
  end.

(** [select_all(action='SELECT')] followed by [delete(use_global=False)]:
    the objects that [select_all] selects are deleted.  An object that is
    hidden or has [hide_select] set is not selected and stays in the
    scene. *)
Definition delete_all_objects : M unit :=
  fun w =>
    let rest := filter (fun o => negb (selectable o)) (objects (scene w)) in
    Ok (tt, mkBpy (set_camera (live_ref rest (camera (scene w)))
                              (set_objects rest (scene w)))
                  (worlds w) (live_ref rest (active_object w)) (next_id w)
                  (files w) (directories w) (stdout w) (written w)).

Definition new_world (nm : string) : world_data :=
  mkWorldData nm false (Some ((0.05, 0.05, 0.05, 1), 1)).

Definition update_world (nm : string) (f : world_data -> world_data)
  (l : list world_data) : list world_data :=
  map (fun wd => if (world_name wd =? nm)%string then f wd else wd) l.

(** The world lighting block of [setup_scene]: the world named "World" is
    looked up, created when absent, made the scene's world and switched to
    nodes; when its node tree has a "Background" node, the node's colour
    and strength are set.  (The host attribute [use_nodes] is taken to
    exist.) *)
Definition setup_world : M unit :=
  fun w =>
    let ws :=
      match find (fun wd => (world_name wd =? "World")%string) (worlds w) with
      | Some _ => worlds w
      | None => (worlds w ++ [new_world "World"])%list
      end in
    let light wd :=
      mkWorldData (world_name wd) true
        match background wd with
        | Some _ => Some ((0.8, 0.8, 0.8, 1), 0.5)
        | None => None
        end in
    Ok (tt, mkBpy (set_world (Some "World") (scene w))
                  (update_world "World" light ws) (active_object w)
                  (next_id w) (files w) (directories w) (stdout w)
                  (written w)).

(** Clear scene and set up rendering. *)
Definition setup_scene : M unit :=
  delete_all_objects ;;
  modify_render (set_engine "CYCLES") ;;
  modify_scene
    (fun sc => set_cycles (mkCycles 64 (use_denoising (cycles sc))) sc) ;;
  modify_scene
    (fun sc => set_cycles (mkCycles (samples (cycles sc)) true) sc) ;;
  modify_render (set_film_transparent true) ;;
  modify_render (set_file_format "PNG") ;;
  modify_render (set_color_mode "RGBA") ;;
  setup_world.

(** Create orthographic camera looking down. *)
Definition create_camera (width_hexes height_hexes : positive) : M nat :=
  camera_add (mkVec 0 0 10) ;;
  camera <- context_active_object ;;
  modify_obj camera (set_name "RenderCamera") ;;
  modify_obj camera (set_data_type "ORTHO") ;;
  modify_obj camera (set_rotation_euler (mkVec 0 0 0)) ;;
  modify_scene (set_camera (Some camera)) ;;
  ret camera.

(** Create lighting setup for good shading.  Euler angles are recorded in
    degrees (the argument of [math.radians]). *)
Definition create_lights : M unit :=
  light_add "SUN" (mkVec 5 (-5) 10) ;;
  key_light <- context_active_object ;;
  modify_obj key_light (set_name "KeyLight") ;;
  modify_obj key_light (set_energy 3) ;;
  modify_obj key_light (set_rotation_euler (mkVec 45 15 45)) ;;
  light_add "SUN" (mkVec (-5) 5 8) ;;
  fill_light <- context_active_object ;;
  modify_obj fill_light (set_name "FillLight") ;;
  modify_obj fill_light (set_energy 1.5) ;;
  modify_obj fill_light (set_rotation_euler (mkVec 50 (-15) (-45))) ;;
  light_add "SUN" (mkVec 0 5 12) ;;
  rim_light <- context_active_object ;;
  modify_obj rim_light (set_name "RimLight") ;;
  modify_obj rim_light (set_energy 1) ;;
  modify_obj rim_light (set_rotation_euler (mkVec 30 0 0)).

(** ** Auto-framing *)

(** A float that may be one of the two infinite sentinels. *)
Inductive ext : Type :=
| NInf
| Fin (q : Q)
| PInf.

(** [min(acc, x)] and [max(acc, x)] for a finite [x]. *)
Definition ext_min (acc : ext) (x : Q) : ext :=
  match acc with
  | PInf => Fin x
  | Fin a => Fin (py_min2 a x)
  | NInf => NInf
  end.

Definition ext_max (acc : ext) (x : Q) : ext :=
  match acc with
  | NInf => Fin x
  | Fin a => Fin (py_max2 a x)
  | PInf => PInf
  end.

Record bounds : Type := mkBounds {
  min_x : ext; max_x : ext; min_y : ext; max_y : ext
}.

(** Body of the inner loop: one bounding-box corner of an object. *)
Definition add_vertex (mw : matrix) (b : bounds) (vertex : vec3) : bounds :=
  let world_vertex := mat_vec mw vertex in
  mkBounds (ext_min (min_x b) (vx world_vertex))
           (ext_max (max_x b) (vx world_vertex))
           (ext_min (min_y b) (vy world_vertex))
           (ext_max (max_y b) (vy world_vertex)).

(** Inner loop: [for vertex in obj.bound_box]. *)
Definition add_object (b : bounds) (obj : object) : bounds :=
  fold_left (add_vertex (matrix_world obj)) (corners (bound_box obj)) b.

(** Outer loop: [for obj in meshes], from the infinite sentinels. *)
Definition scene_bounds (meshes : list object) : bounds :=
  fold_left add_object meshes (mkBounds PInf NInf PInf NInf).

Definition is_mesh (obj : object) : bool := (type obj =? "MESH")%string.

Definition scene_objects : M (list object) :=
  fun w => Ok (objects (scene w), w).

Definition scene_render : M render_settings :=
  fun w => Ok (render (scene w), w).

(** Adjust camera orthographic scale to fit all objects. *)
Definition fit_camera_to_objects (camera : nat) (padding : Q) : M unit :=
  objs <- scene_objects ;;
  let meshes := filter is_mesh objs in
  match meshes with
  | [] => ret tt
  | _ :: _ =>
      match scene_bounds meshes with
      | mkBounds (Fin min_x) (Fin max_x) (Fin min_y) (Fin max_y) =>
          let width := max_x - min_x in
          let height := max_y - min_y in
          r <- scene_render ;;
          aspect <- lift (py_div (inject_Z (Zpos (resolution_x r)))
                                 (inject_Z (Zpos (resolution_y r)))) ;;
          wa <- lift (py_div width aspect) ;;
          (if Qltb height wa
           then modify_obj camera (set_ortho_scale (width * padding))
           else modify_obj camera
                  (set_ortho_scale (height * aspect * padding))) ;;
          let center_x := (min_x + max_x) / 2 in
          let center_y := (min_y + max_y) / 2 in
          modify_obj camera (set_location_x center_x) ;;
          modify_obj camera (set_location_y center_y)
      | _ => lift (Raise NonFiniteBounds)
      end
  end.

(** The default value of the [padding] parameter. *)
Definition default_padding : Q := 1.2.

(** ** Per-model driver *)

(** Fresh identities for the objects a library load brings in. *)
Fixpoint stamp (n : nat) (l : list (option object))
  : list (option object) * nat :=
  match l with
  | [] => ([], n)
  | None :: rest =>
      let '(rest', n') := stamp n rest in (None :: rest', n')
  | Some o :: rest =>
      let '(rest', n') := stamp (S n) rest in (Some (set_oid n o) :: rest', n')
  end.

(** [with bpy.data.libraries.load(path, link=False) ...: data_to.objects =
    data_from.objects]; the value is [data_to.objects] after the block.
    A missing file raises; a file on disk is a readable .blend file. *)
Definition libraries_load (path : string) : M (list (option object)) :=
  fun w =>
    match files w path with
    | None => Raise (OSError path)
    | Some l =>
        let '(l', n) := stamp (next_id w) l in
        Ok (l', mkBpy (scene w) (worlds w) (active_object w) n (files w)
                      (directories w) (stdout w) (written w))
    end.

(** [bpy.context.collection.objects.link(obj)] *)
Definition link (obj : object) : M unit :=
  modify_scene (fun sc => set_objects (objects sc ++ [obj]) sc).

(** [bpy.data.objects.remove(obj, do_unlink=True)] *)
Definition remove (obj : object) : M unit :=
  modify_scene (fun sc =>
    set_objects (filter (fun o => negb (Nat.eqb (oid o) (oid obj)))
                        (objects sc)) sc).

(** First loop of [render_model]: link every loaded object and collect the
    ones the filter rejects. *)
Fixpoint link_objects (objs : list (option object)) (excluded : list object)
  : M (list object) :=
  match objs with
  | [] => ret excluded
  | None :: rest => link_objects rest excluded
  | Some obj :: rest =>
      link obj ;;
      b <- lift (should_exclude_object obj) ;;
      link_objects rest (if b then excluded ++ [obj] else excluded)%list
  end.

(** Second loop of [render_model]: remove excluded objects. *)
Fixpoint remove_objects (excluded : list object) : M unit :=
  match excluded with
  | [] => ret tt
  | obj :: rest =>
      print ("  Excluding object: " ++ name obj) ;;
      remove obj ;;
      remove_objects rest
  end.

(** The directory part of a path: what precedes the last separator. *)
Fixpoint dirname (path : string) : option string :=
  match path with
  | EmptyString => None
  | String c rest =>
      match dirname rest with
      | Some d => Some (String c d)
      | None => if Ascii.eqb c "/" then Some EmptyString else None
      end
  end.

(** The directories after the directory of [path] was created when
    missing. *)
Definition ensure_parent (path : string) (dirs : list string) : list string :=
  match dirname path with
  | Some d =>
      if (d =? "")%string || existsb (String.eqb d) dirs
      then dirs else (dirs ++ [d])%list
  | None => dirs
  end.

(** [bpy.ops.render.render(write_still=True)]: the image is written at
    the scene's file path; the host creates the directory of that path
    when it is missing. *)
Definition render_still : M unit :=
  fun w =>
    Ok (tt, mkBpy (scene w) (worlds w) (active_object w) (next_id w)
                  (files w)
                  (ensure_parent (filepath (render (scene w)))
                                 (directories w))
                  (stdout w)
                  (written w ++ [(filepath (render (scene w)), scene w)])).

(** [path.exists()] *)
Definition path_exists (path : string) : M bool :=
  fun w =>
    Ok (match files w path with Some _ => true | None => false end, w).

(** [path.mkdir(parents=True, exist_ok=True)] *)
Definition mkdir (path : string) : M unit :=
  fun w =>
    Ok (tt, mkBpy (scene w) (worlds w) (active_object w) (next_id w)
                  (files w)
                  (if existsb (String.eqb path) (directories w)
                   then directories w else directories w ++ [path])
                  (stdout w) (written w)).

(** [dir / name], for a [name] without path syntax (pathlib drops [.]
    components and lets an absolute [name] replace [dir]). *)
Definition path_join (dir file : string) : string := dir ++ "/" ++ file.

Section Script.

(** The directory three levels above the script file. *)
Variable script_root : string.

Definition MODELS_DIR : string := path_join script_root "3Dmodels".
Definition OUTPUT_DIR : string :=
  path_join (path_join (path_join (path_join script_root "public")
                                  "sprites") "units") "rendered".

(** Render a single model to PNG. *)
Definition render_model (blend_file output_name : string)
  (width_hexes height_hexes : positive) : M unit :=
  print ("Rendering " ++ blend_file ++ " -> " ++ output_name) ;;
  setup_scene ;;
  data_to_objects <- libraries_load blend_file ;;
  excluded_objects <- link_objects data_to_objects [] ;;
  remove_objects excluded_objects ;;
  modify_render (set_resolution_x (BASE_WIDTH * width_hexes)) ;;
  modify_render (set_resolution_y (BASE_HEIGHT * height_hexes)) ;;
  modify_render (set_resolution_percentage 100) ;;
  camera <- create_camera width_hexes height_hexes ;;
  create_lights ;;
  fit_camera_to_objects camera default_padding ;;
  let output_path := path_join OUTPUT_DIR (output_name ++ ".png") in
  modify_render (set_filepath output_path) ;;
  render_still ;;
  print ("  Saved: " ++ output_path).

(** The loop of [main] over a model table. *)
Fixpoint render_all (table : list (string * (string * positive * positive)))
  : M unit :=
  match table with
  | [] => ret tt
  | (blend_name, (output_name, w, h)) :: rest =>
      let blend_file := path_join MODELS_DIR (blend_name ++ ".blend") in
      found <- path_exists blend_file ;;
      (if found
       then render_model blend_file output_name w h
       else print ("Warning: " ++ blend_file ++ " not found")) ;;
      render_all rest
  end.

(** [main] with the model table as a parameter. *)
Definition main_with (table : list (string * (string * positive * positive)))
  : M unit :=
  mkdir OUTPUT_DIR ;;
  render_all table ;;
  print (String "010" "Rendering complete!") ;;
  print ("Output directory: " ++ OUTPUT_DIR).

End Script.

(** Unit configuration: French name -> (English name, width_hexes,
    height_hexes) *)
Definition UNIT_CONFIG : list (string * (string * positive * positive)) :=
  [ ("3dprint_char", ("tank", 1, 1));
    ("3dprint_gros_tas", ("supertank", 1, 1));
    ("3dprint_crabe", ("crab", 1, 1));
    ("3dprint_pondeuse_meteo", ("converter", 1, 1));
    ("3dprint_barge", ("barge", 2, 1));
    ("3dPrint_vedette", ("motorboat", 1, 1));
    ("3dprint_pont", ("bridge", 1, 1));
    ("3dprint_astronef", ("astronef", 2, 2));
    ("3dprint_marqueur", ("marker", 1, 1)) ]%positive.

Definition main (script_root : string) : M unit :=
  main_with script_root UNIT_CONFIG.

(** ** Sample inputs *)

(** The bounding box spanning two opposite corners, in the host's corner
    order. *)
Definition box_of (lo hi : vec3) : bound_box_t :=
  mkBox (mkVec (vx lo) (vy lo) (vz lo)) (mkVec (vx lo) (vy lo) (vz hi))
        (mkVec (vx lo) (vy hi) (vz hi)) (mkVec (vx lo) (vy hi) (vz lo))
        (mkVec (vx hi) (vy lo) (vz lo)) (mkVec (vx hi) (vy lo) (vz hi))
        (mkVec (vx hi) (vy hi) (vz hi)) (mkVec (vx hi) (vy hi) (vz lo)).

(** A mesh object at the origin with the given name and bounding box. *)
Definition mesh_named (i : nat) (nm : string) (bb : bound_box_t) : object :=
  mkObject i nm "MESH" bb identity_matrix (mkVec 0 0 0) (mkVec 0 0 0) "" 0 0
           true.

(** A scene with two meshes, whose world-space rectangles are
    [(-1,-1),(1,1)] and [(3,3),(5,5)], and the render camera. *)
Definition sample_camera (i : nat) : object :=
  mkObject i "RenderCamera" "CAMERA" default_box
           (translation (mkVec 0 0 10)) (mkVec 0 0 10) (mkVec 0 0 0)
           "ORTHO" 6 0 true.

Definition sample_render : render_settings :=
  mkRender "CYCLES" true "PNG" "RGBA" 512 443 100 "".

Definition host_with (objs : list object) : bpy :=
  mkBpy (mkScene objs (Some 2%nat) sample_render (mkCycles 64 true)
                 (Some "World"))
        [] (Some 2%nat) 3 (fun _ => None) [] [] [].

Definition two_box_host : bpy :=
  host_with
    [ mesh_named 0 "Hull" (box_of (mkVec (-1) (-1) 0) (mkVec 1 1 2));
      mkObject 1 "Turret" "MESH" (box_of (mkVec (-1) (-1) 0) (mkVec 1 1 1))
               (translation (mkVec 4 4 2)) (mkVec 4 4 2) (mkVec 0 0 0) "" 0 0
               true;
      sample_camera 2 ].

(** A scene without meshes: only the camera and a light. *)
Definition no_mesh_host : bpy :=
  host_with
    [ mkObject 0 "KeyLight" "LIGHT" default_box
               (translation (mkVec 5 (-5) 10)) (mkVec 5 (-5) 10)
               (mkVec 45 15 45) "SUN" 6 3 true;
      sample_camera 2 ].

(** A model file with a hull, an object that failed to load and a
    hexagonal base plate; a disk that holds this file for every entry of a
    table. *)
Definition sample_model : list (option object) :=
  [ Some (mesh_named 0 "Hull" (box_of (mkVec (-1) (-1) 0) (mkVec 1 1 2)));
    None;
    Some (mesh_named 0 "Hex_Socle"
                     (box_of (mkVec (-2) (-2) (-1)) (mkVec 2 2 0))) ].

Definition disk_with (paths : list string)
  : string -> option (list (option object)) :=
  fun path =>
    if existsb (String.eqb path) paths then Some sample_model else None.

Definition host_with_disk (fs : string -> option (list (option object)))
  : bpy :=
  mkBpy (mkScene [] None (mkRender "" false "" "" 1920 1080 100 "")
                 (mkCycles 128 false) None)
        [] None 0 fs [] [] [].

(** ** Specification vocabulary *)

(** [p] occurs in [s] as a contiguous substring. *)
Definition substring_of (p s : string) : Prop :=
  exists l r, s = l ++ p ++ r.

(** The lowercased name of [obj] contains one of the exclusion patterns. *)
Definition name_matches (obj : object) : Prop :=
  exists pattern,
    In pattern EXCLUDE_PATTERNS /\ substring_of pattern (lower (name obj)).

(** The corners of an object's bounding box in world space. *)
Definition world_corners (obj : object) : list vec3 :=
  map (mat_vec (matrix_world obj)) (corners (bound_box obj)).

(** All world-space corners of a list of objects. *)
Definition scene_points (meshes : list object) : list vec3 :=
  flat_map world_corners meshes.

(** [m] is the least (greatest) element of [xs], up to [==]. *)
Definition is_min (xs : list Q) (m : Q) : Prop :=
  (forall x, In x xs -> m <= x) /\ (exists x, In x xs /\ x == m).

Definition is_max (xs : list Q) (m : Q) : Prop :=
  (forall x, In x xs -> x <= m) /\ (exists x, In x xs /\ x == m).

(** [(x0, y0), (x1, y1)] is the axis-aligned bounding rectangle of the
    X and Y coordinates of [pts]. *)
Definition bounding_rect (pts : list vec3) (x0 x1 y0 y1 : Q) : Prop :=
  is_min (map vx pts) x0 /\ is_max (map vx pts) x1
  /\ is_min (map vy pts) y0 /\ is_max (map vy pts) y1.

(** The host state after the camera [camera] received the orthographic
    scale [s] and the X and Y location [cx], [cy]; nothing else differs
    from [w]. *)
Definition framed (camera : nat) (s cx cy : Q) (w : bpy) : bpy :=
  set_scene
    (set_objects
       (update_obj camera
          (fun o => set_location_y cy (set_location_x cx (set_ortho_scale s o)))
          (objects (scene w)))
       (scene w))
    w.

(** [resolution_x / resolution_y] *)
Definition aspect_of (w : bpy) : Q :=
  inject_Z (Zpos (resolution_x (render (scene w))))
  / inject_Z (Zpos (resolution_y (render (scene w)))).

(** The scale assigned by [fit_camera_to_objects]: the branch on
    [width / aspect > height], with the division already performed. *)
Definition chosen_scale (width height aspect padding : Q) : Q :=
  if Qltb height (width / aspect) then width * padding
  else height * aspect * padding.

(** The scene contains at least one mesh object. *)
Definition has_mesh (w : bpy) : Prop :=
  exists o, In o (objects (scene w)) /\ type o = "MESH".

(** [o'] agrees with [o] on every attribute except the orthographic scale
    and the X and Y components of the location. *)
Definition same_but_framing (o o' : object) : Prop :=
  oid o' = oid o /\ name o' = name o /\ type o' = type o
  /\ bound_box o' = bound_box o /\ matrix_world o' = matrix_world o
  /\ rotation_euler o' = rotation_euler o /\ data_type o' = data_type o
  /\ energy o' = energy o /\ selectable o' = selectable o
  /\ vz (location o') = vz (location o).

(** From [objs] to [objs'] the objects with identity [camera] keep their
    identity and satisfy [P] afterwards; every other object is the same. *)
Definition camera_update (camera : nat) (P : object -> Prop)
  (objs objs' : list object) : Prop :=
  Forall2
    (fun o o' =>
       if Nat.eqb (oid o) camera then oid o' = oid o /\ P o' else o' = o)
    objs objs'.

(** The handle [camera] stands for a camera: every object of the scene
    with this identity is of type CAMERA. *)
Definition camera_handle (camera : nat) (w : bpy) : Prop :=
  forall o, In o (objects (scene w)) -> oid o = camera -> type o = "CAMERA".

(** The framing read off a camera object: its orthographic scale and the X
    and Y components of its location. *)
Definition framing_is (s cx cy : Q) (c : object) : Prop :=
  ortho_scale c == s /\ vx (location c) == cx /\ vy (location c) == cy.

(** The point [p] lies in the rectangle of width [ortho_scale] and height
    [ortho_scale / aspect] centred at the X/Y location of [c]: what an
    orthographic camera looking down captures in an image of the aspect
    ratio [aspect] that is at least as wide as it is high. *)
Definition in_view (aspect : Q) (c : object) (p : vec3) : Prop :=
  vx (location c) - ortho_scale c / 2 <= vx p
  <= vx (location c) + ortho_scale c / 2
  /\ vy (location c) - ortho_scale c / aspect / 2 <= vy p
     <= vy (location c) + ortho_scale c / aspect / 2.


(** The non-[None] entries of an imported object list, in order. *)
Fixpoint loaded (objs : list (option object)) : list object :=
  match objs with
  | [] => []
  | None :: rest => loaded rest
  | Some obj :: rest => obj :: loaded rest
  end.

(** The filter's verdict as a boolean. *)
Definition is_excluded (obj : object) : bool :=
  match should_exclude_object obj with
  | Ok b => b
  | Raise _ => false
  end.

(** The host state after [objs] were linked to the scene, in order. *)
Definition with_linked (objs : list object) (w : bpy) : bpy :=
  set_scene (set_objects (objects (scene w) ++ objs) (scene w)) w.

(** From [w] to [w'] the script printed exactly [lines]; the files on disk,
    the created directories and the written images are the same. *)
Definition logged (lines : list string) (w w' : bpy) : Prop :=
  files w' = files w /\ directories w' = directories w
  /\ written w' = written w /\ stdout w' = (stdout w ++ lines)%list.

(** A line of output that reports a missing file. *)
Definition is_warning (line : string) : bool := startswith "Warning: " line.

Definition table_entry : Type := (string * (string * positive * positive))%type.

(** The input file, the output file and the resolution of a table entry. *)
Definition blend_path (root : string) (e : table_entry) : string :=
  path_join (MODELS_DIR root) (fst e ++ ".blend").

Definition output_path (root : string) (e : table_entry) : string :=
  path_join (OUTPUT_DIR root) (fst (fst (snd e)) ++ ".png").

Definition entry_resolution (e : table_entry) : positive * positive :=
  ((BASE_WIDTH * snd (fst (snd e)))%positive,
   (BASE_HEIGHT * snd (snd e))%positive).

(** Path and resolution of a written image. *)
Definition image_summary (img : string * scene_t)
  : string * (positive * positive) :=
  (fst img, (resolution_x (render (snd img)), resolution_y (render (snd img)))).

(** [m] run from [w] returns normally with a result and a state that
    satisfy [Q]. *)
Definition runs {A} (m : M A) (w : bpy) (Q : A -> bpy -> Prop) : Prop :=
  exists a w', m w = Ok (a, w') /\ Q a w'.

(** From [w] to [w'] nothing was printed, read from or written to disk, and
    the render settings are the same. *)
Definition quiet (w w' : bpy) : Prop :=
  logged [] w w' /\ render (scene w') = render (scene w).

(** The effect of rendering one model: one image written at the expected
    path with the expected resolution, nothing else written, no input file
    touched, no directory removed, and no warning printed. *)
Definition rendered_one (root output_name : string)
  (width_hexes height_hexes : positive) (w w' : bpy) : Prop :=
  files w' = files w /\ incl (directories w) (directories w')
  /\ (exists sc,
        written w'
        = (written w
           ++ [(path_join (OUTPUT_DIR root) (output_name ++ ".png"), sc)])%list
        /\ resolution_x (render sc) = (BASE_WIDTH * width_hexes)%positive
        /\ resolution_y (render sc) = (BASE_HEIGHT * height_hexes)%positive)
  /\ (exists lines,
        stdout w' = (stdout w ++ lines)%list
        /\ filter is_warning lines = []).

(** The input file of a table entry exists. *)
Definition is_present (fs : string -> option (list (option object)))
  (root : string) (e : table_entry) : bool :=
  match fs (blend_path root e) with
  | Some _ => true
  | None => false
  end.

Definition is_missing (fs : string -> option (list (option object)))
  (root : string) (e : table_entry) : bool :=
  negb (is_present fs root e).

(** The warning printed for a table entry whose input file is missing. *)
Definition warning_line (root : string) (e : table_entry) : string :=
  "Warning: " ++ blend_path root e ++ " not found".

(** What an image rendered for a table entry looks like from outside. *)
Definition expected_image (root : string) (e : table_entry)
  : string * (positive * positive) :=
  (output_path root e, entry_resolution e).

(** The effect of a batch: the entries [rendered] were rendered, in order,
    and exactly the lines [warnings] of the output are warnings; the input
    files are as before and no directory was removed. *)
Definition batch_effect (root : string) (rendered : list table_entry)
  (warnings : list string) (w w' : bpy) : Prop :=
  files w' = files w /\ incl (directories w) (directories w')
  /\ (exists imgs,
        written w' = (written w ++ imgs)%list
        /\ map image_summary imgs = map (expected_image root) rendered)
  /\ (exists lines,
        stdout w' = (stdout w ++ lines)%list
        /\ filter is_warning lines = warnings).

(** The last two lines [main] prints. *)
Definition completion_lines (root : string) : list string :=
  [ String "010" "Rendering complete!";
    "Output directory: " ++ OUTPUT_DIR root ].

(** The effect of a whole run of [main]: the output directory exists, the
    entries [rendered] were rendered in order, the output ends with the two
    completion lines, and exactly the lines [warnings] of it are warnings. *)
Definition main_effect (root : string) (rendered : list table_entry)
  (warnings : list string) (w w' : bpy) : Prop :=
  files w' = files w
  /\ In (OUTPUT_DIR root) (directories w')
  /\ (exists imgs,
        written w' = (written w ++ imgs)%list
        /\ map image_summary imgs = map (expected_image root) rendered)
  /\ (exists body,
        stdout w' = (stdout w ++ body ++ completion_lines root)%list
        /\ filter is_warning (body ++ completion_lines root) = warnings).

(** ** Vocabulary for further properties *)

(** The bounding box with every corner mapped by [f]. *)
Definition map_box (f : vec3 -> vec3) (b : bound_box_t) : bound_box_t :=
  mkBox (f (c0 b)) (f (c1 b)) (f (c2 b)) (f (c3 b))
        (f (c4 b)) (f (c5 b)) (f (c6 b)) (f (c7 b)).

(** Uniform scaling by [k] followed by translation by [t]. *)
Definition affine (k : Q) (t : vec3) (v : vec3) : vec3 :=
  mkVec (k * vx v + vx t) (k * vy v + vy t) (k * vz v + vz t).

(** [d] is the extent (greatest minus least value) of the coordinate [f]
    over the eight corners of [bbox]. *)
Definition extent_of (f : vec3 -> Q) (bbox : bound_box_t) (d : Q) : Prop :=
  exists hi lo, is_max (map f (corners bbox)) hi
                /\ is_min (map f (corners bbox)) lo /\ d = hi - lo.

(** The flatness rule in division-free form. *)
Definition is_flat (z xy : Q) : Prop := 0 < xy /\ 20 * z < xy.

(** [objs] with the identities [n], [n + 1], ... in order. *)
Fixpoint renumber (n : nat) (objs : list object) : list object :=
  match objs with
  | [] => []
  | o :: rest => set_oid n o :: renumber (S n) rest
  end.

(** The loaded objects the filter retains. *)
Definition retained (objs : list object) : list object :=
  filter (fun o => negb (is_excluded o)) objs.

(** The camera as [create_camera] leaves it, and the three lights as
    [create_lights] leaves them, for given object identities. *)
Definition render_camera (i : nat) : object :=
  mkObject i "RenderCamera" "CAMERA" default_box
           (translation (mkVec 0 0 10)) (mkVec 0 0 10) (mkVec 0 0 0)
           "ORTHO" 6 0 true.

Definition sun (i : nat) (nm : string) (loc rot : vec3) (en : Q) : object :=
  mkObject i nm "LIGHT" default_box (translation loc) loc rot "SUN" 0 en
           true.

Definition light_rig (i : nat) : list object :=
  [ sun i "KeyLight" (mkVec 5 (-5) 10) (mkVec 45 15 45) 3;
    sun (S i) "FillLight" (mkVec (-5) 5 8) (mkVec 50 (-15) (-45)) 1.5;
    sun (S (S i)) "RimLight" (mkVec 0 5 12) (mkVec 30 0 0) 1 ].

(** [resolution_x / resolution_y] of given render settings. *)
Definition render_aspect (r : render_settings) : Q :=
  inject_Z (Zpos (resolution_x r)) / inject_Z (Zpos (resolution_y r)).

(** The objects of a scene after [fit_camera_to_objects], as a function of
    the objects before. *)
Definition frame_objects (camera : nat) (padding aspect : Q)
  (objs : list object) : list object :=
  match filter is_mesh objs with
  | [] => objs
  | _ :: _ =>
      match scene_bounds (filter is_mesh objs) with
      | mkBounds (Fin x0) (Fin x1) (Fin y0) (Fin y1) =>
          update_obj camera
            (fun o =>
               set_location_y ((y0 + y1) / 2)
                 (set_location_x ((x0 + x1) / 2)
                    (set_ortho_scale
                       (chosen_scale (x1 - x0) (y1 - y0) aspect padding) o)))
            objs
      | _ => objs
      end
  end.

(** What [fit_camera_to_objects] does to the camera object, given the mesh
    objects of the scene. *)
Definition frame_one (padding aspect : Q) (meshes : list object)
  (o : object) : object :=
  match meshes with
  | [] => o
  | _ :: _ =>
      match scene_bounds meshes with
      | mkBounds (Fin x0) (Fin x1) (Fin y0) (Fin y1) =>
          set_location_y ((y0 + y1) / 2)
            (set_location_x ((x0 + x1) / 2)
               (set_ortho_scale
                  (chosen_scale (x1 - x0) (y1 - y0) aspect padding) o))
      | _ => o
      end
  end.

(** A list of objects with the identities erased. *)
Definition anonymous (objs : list object) : list object :=
  map (set_oid 0) objs.

(** The world data block after the lighting block of [setup_scene], and the
    list of world data blocks after it. *)
Definition lit (wd : world_data) : world_data :=
  mkWorldData (world_name wd) true
    match background wd with
    | Some _ => Some ((0.8, 0.8, 0.8, 1), 0.5)
    | None => None
    end.

Definition worlds_after_setup (ws : list world_data) : list world_data :=
  update_world "World" lit
    match find (fun wd => (world_name wd =? "World")%string) ws with
    | Some _ => ws
    | None => (ws ++ [new_world "World"])%list
    end.

(** Names that differ at most in the case of ASCII letters. *)
Definition same_letter (a b : ascii) : Prop :=
  a = b
  \/ ((65 <= N_of_ascii a <= 90)%N /\ N_of_ascii b = (N_of_ascii a + 32)%N)
  \/ ((65 <= N_of_ascii b <= 90)%N /\ N_of_ascii a = (N_of_ascii b + 32)%N).

Fixpoint same_up_to_case (s t : string) : Prop :=
  match s, t with
  | EmptyString, EmptyString => True
  | String a s', String b t' => same_letter a b /\ same_up_to_case s' t'
  | _, _ => False
  end.

(** A name made of ASCII letters, digits, [_] and [-] only: a single path
    component without path syntax, for which [/] on paths is plain
    concatenation. *)
Definition plain_char (c : ascii) : bool :=
  let n := N_of_ascii c in
  (((48 <=? n) && (n <=? 57)) || ((65 <=? n) && (n <=? 90))
   || ((97 <=? n) && (n <=? 122)) || (n =? 95) || (n =? 45))%N.

Fixpoint plain_name (s : string) : bool :=
  match s with
  | EmptyString => true
  | String c s' => plain_char c && plain_name s'
  end.

(** A path component: not empty, not [.], without separator. *)
Fixpoint slashless (s : string) : bool :=
  match s with
  | EmptyString => true
  | String c s' => negb (Ascii.eqb c "/") && slashless s'
  end.

Definition path_component (c : string) : bool :=
  slashless c && negb (c =? "")%string && negb (c =? ".")%string.

(** The absolute path with the given components. *)
Fixpoint absolute_of (comps : list string) : string :=
  match comps with
  | [] => ""
  | c :: rest => "/" ++ c ++ absolute_of rest
  end.

(** [root] is an absolute path, as pathlib prints it, other than the root
    of the file system: a separator before each of its components. *)
Definition absolute_path (root : string) : Prop :=
  exists comps,
    comps <> [] /\ forallb path_component comps = true
    /\ root = absolute_of comps.

(** The largest value of the host's [resolution_x] and [resolution_y]. *)
Definition MAX_RESOLUTION : positive := 65536.

(** The image of a model of the given hex counts is at least as wide as it
    is high. *)
Definition landscape (width_hexes height_hexes : positive) : Prop :=
  (BASE_HEIGHT * height_hexes <= BASE_WIDTH * width_hexes)%positive.

(** The resolution of a model of the given hex counts is one the host's
    render settings take as it is. *)
Definition renderable (width_hexes height_hexes : positive) : Prop :=
  (BASE_WIDTH * width_hexes <= MAX_RESOLUTION)%positive
  /\ (BASE_HEIGHT * height_hexes <= MAX_RESOLUTION)%positive.

(** A table entry with plain names and a resolution in the host's range. *)
Definition plain_entry (e : table_entry) : Prop :=
  plain_name (fst e) = true /\ plain_name (fst (fst (snd e))) = true
  /\ renderable (snd (fst (snd e))) (snd (snd e)).

(** Every object of the scene can be selected, so that [setup_scene]
    clears the scene completely. *)
Definition all_selectable (w : bpy) : Prop :=
  Forall (fun o => selectable o = true) (objects (scene w)).

(** An object of the scene whose identity is older than the next fresh
    one. *)
Definition present (o : object) (w : bpy) : Prop :=
  In o (objects (scene w)) /\ (oid o < next_id w)%nat.

(** The object identities in use are below the next fresh one. *)
Definition fresh_ids (w : bpy) : Prop :=
  Forall (fun o => (oid o < next_id w)%nat) (objects (scene w)).

(** The names [create_camera] and [create_lights] give to their objects. *)
Definition rig_names : list string :=
  ["RenderCamera"; "KeyLight"; "FillLight"; "RimLight"].

(** The attributes [create_camera] gives the camera: its name, type,
    projection, rotation and height. *)
Definition is_render_camera (c : object) : Prop :=
  name c = "RenderCamera" /\ type c = "CAMERA" /\ data_type c = "ORTHO"
  /\ rotation_euler c = mkVec 0 0 0 /\ vz (location c) == 10.

(** The attributes [create_lights] gives a light: its name, type, kind,
    location, rotation (in degrees) and energy. *)
Definition is_sun (nm : string) (loc rot : vec3) (en : Q) (o : object)
  : Prop :=
  name o = nm /\ type o = "LIGHT" /\ data_type o = "SUN"
  /\ location o = loc /\ rotation_euler o = rot /\ energy o == en.

(** The key, fill and rim lights, in this order. *)
Definition is_light_rig (lights : list object) : Prop :=
  exists key fill rim,
    lights = [key; fill; rim]
    /\ is_sun "KeyLight" (mkVec 5 (-5) 10) (mkVec 45 15 45) 3 key
    /\ is_sun "FillLight" (mkVec (-5) 5 8) (mkVec 50 (-15) (-45)) 1.5 fill
    /\ is_sun "RimLight" (mkVec 0 5 12) (mkVec 30 0 0) 1 rim.

(** No object of [objs] has the name [nm]. *)
Definition name_free (nm : string) (objs : list object) : Prop :=
  ~ In nm (map name objs).

(** The render settings of every image the script writes. *)
Definition image_settings (root output_name : string)
  (width_hexes height_hexes : positive) : render_settings :=
  mkRender "CYCLES" true "PNG" "RGBA"
           (BASE_WIDTH * width_hexes) (BASE_HEIGHT * height_hexes) 100
           (path_join (OUTPUT_DIR root) (output_name ++ ".png")).

(** The scene [render_model] renders when the reset clears the earlier
    scene completely, in closed form: a function of the contents [objs] of
    the model file, the table entry and the next free object identity [n],
    and of nothing else. *)
Definition rendered_scene (root output_name : string)
  (width_hexes height_hexes : positive) (n : nat)
  (objs : list (option object)) : scene_t :=
  let data := fst (stamp n objs) in
  let camera := snd (stamp n objs) in
  let r := image_settings root output_name width_hexes height_hexes in
  mkScene
    (frame_objects camera default_padding (render_aspect r)
       (retained (loaded data) ++ render_camera camera :: light_rig (S camera)))
    (Some camera) r (mkCycles 64 true) (Some "World").

(** The lines [render_model] prints. *)
Definition model_log (root blend_file output_name : string)
  (objs : list (option object)) : list string :=
  (("Rendering " ++ blend_file ++ " -> " ++ output_name)%string
   :: map (fun o => ("  Excluding object: " ++ name o)%string)
          (filter is_excluded (loaded objs))
   ++ [("  Saved: "
        ++ path_join (OUTPUT_DIR root) (output_name ++ ".png"))%string])%list.

(** * Properties *)

(** ** Numbers *)

Lemma Qltb_lt (a b : Q) : Qltb a b = true <-> a < b.
Proof.
  unfold Qltb. rewrite Qlt_alt.
  destruct (a ?= b); split; intro H; congruence.
Qed.

Lemma Qltb_ge (a b : Q) : Qltb a b = false <-> b <= a.
Proof.
  split; intro H.
  - apply Qnot_lt_le. intro L. apply Qltb_lt in L. congruence.
  - destruct (Qltb a b) eqn:E; trivial.
    apply Qltb_lt in E. exfalso. exact (Qlt_not_le _ _ E H).
Qed.

Lemma py_div_ok (a b : Q) : ~ b == 0 -> py_div a b = Ok (a / b).
Proof.
  intro H. unfold py_div.
  destruct (Qeq_bool b 0) eqn:E; trivial.
  apply Qeq_bool_eq in E. contradiction.
Qed.

Lemma py_div_zero (a b : Q) : b == 0 -> py_div a b = Raise ZeroDivisionError.
Proof.
  intro H. unfold py_div. now rewrite (Qeq_eq_bool _ _ H).
Qed.

(** ** Strings *)

Lemma startswith_app (p r : string) : startswith p (p ++ r) = true.
Proof.
  induction p as [|a p IH]; simpl; trivial.
  now rewrite Ascii.eqb_refl, IH.
Qed.

Lemma startswith_inv (p s : string) :
  startswith p s = true -> exists r, s = p ++ r.
Proof.
  revert s. induction p as [|a p IH]; intros s H.
  - exists s. reflexivity.
  - destruct s as [|b s]; simpl in H; try discriminate.
    apply andb_true_iff in H. destruct H as [Hab Hps].
    apply Ascii.eqb_eq in Hab. subst b.
    destruct (IH _ Hps) as [r ->]. now exists r.
Qed.

Lemma str_in_intro (p l r : string) : str_in p (l ++ p ++ r) = true.
Proof.
  induction l as [|c l IH].
  - simpl. destruct (p ++ r) eqn:E; simpl;
      rewrite <- E, startswith_app; reflexivity.
  - simpl. rewrite IH. apply orb_true_r.
Qed.

Lemma str_in_inv (p s : string) : str_in p s = true -> substring_of p s.
Proof.
  induction s as [|c s IH]; simpl; intro H.
  - rewrite orb_false_r in H.
    destruct (startswith_inv p "" H) as [r Hr]. now exists "", r.
  - apply orb_true_iff in H. destruct H as [H|H].
    + destruct (startswith_inv _ _ H) as [r Hr]. now exists "", r.
    + destruct (IH H) as (l & r & ->). now exists (String c l), r.
Qed.

Lemma str_in_spec (p s : string) : str_in p s = true <-> substring_of p s.
Proof.
  split.
  - apply str_in_inv.
  - intros (l & r & ->). apply str_in_intro.
Qed.

(** The pattern loop returns [True] exactly for matching names. *)
Lemma pattern_loop_spec (obj : object) :
  existsb (fun pattern => str_in pattern (lower (name obj))) EXCLUDE_PATTERNS
  = true <-> name_matches obj.
Proof.
  rewrite existsb_exists. unfold name_matches.
  split; intros (p & Hin & Hp); exists p; split; trivial;
    now apply str_in_spec.
Qed.

(** ** Object filter *)

(** The bounding-box measures never raise: the box has eight corners. *)
Lemma z_height_total (bbox : bound_box_t) : exists z, z_height bbox = Ok z.
Proof. unfold z_height. simpl. eexists. reflexivity. Qed.

Lemma xy_size_total (bbox : bound_box_t) : exists xy, xy_size bbox = Ok xy.
Proof. unfold xy_size. simpl. eexists. reflexivity. Qed.

(** The filter on a mesh whose name matches no pattern. *)
Lemma filter_unmatched_mesh (obj : object) (z xy : Q) :
  type obj = "MESH" -> ~ name_matches obj ->
  z_height (bound_box obj) = Ok z -> xy_size (bound_box obj) = Ok xy ->
  should_exclude_object obj =
  if Qltb 0 xy
  then (let? ratio := py_div z xy in
        if Qltb ratio 0.05 then Ok true else Ok false)
  else Ok false.
Proof.
  intros Hty Hname Hz Hxy. unfold should_exclude_object.
  rewrite Hty, String.eqb_refl. simpl negb. cbv iota.
  destruct (existsb _ EXCLUDE_PATTERNS) eqn:E.
  - apply pattern_loop_spec in E. contradiction.
  - rewrite Hz, Hxy. reflexivity.
Qed.

(** The filter never raises. *)
Lemma should_exclude_object_total (obj : object) :
  exists b, should_exclude_object obj = Ok b.
Proof.
  unfold should_exclude_object.
  destruct (negb _); [now eexists|].
  destruct (existsb _ _); [now eexists|].
  destruct (z_height_total (bound_box obj)) as [z ->].
  destruct (xy_size_total (bound_box obj)) as [xy ->].
  simpl. destruct (Qltb 0 xy) eqn:E; [|now eexists].
  apply Qltb_lt in E. rewrite py_div_ok.
  - simpl. destruct (Qltb _ _); now eexists.
  - intro H. rewrite H in E. exact (Qlt_irrefl _ E).
Qed.

(** C1: a mesh object whose lowercased name contains one of the fixed
    exclusion substrings is excluded, whatever bounding box it has; in
    particular a mesh named plane, hex_socle or ground01 is excluded. *)
Theorem C1_name_match_excludes (obj : object) (bbox : bound_box_t) :
  type obj = "MESH" ->
  (name_matches obj ->
   should_exclude_object (set_bound_box bbox obj) = Ok true)
  /\ (In (name obj) ["plane"; "hex_socle"; "ground01"] ->
      should_exclude_object (set_bound_box bbox obj) = Ok true).
Proof.
  intro Hty.
  assert (G : name_matches obj ->
              should_exclude_object (set_bound_box bbox obj) = Ok true).
  { intro Hm. unfold should_exclude_object. simpl type. simpl name.
    rewrite Hty, String.eqb_refl. simpl negb. cbv iota.
    apply pattern_loop_spec in Hm. now rewrite Hm. }
  split; [exact G|].
  intro Hin. apply G. unfold name_matches.
  simpl in Hin. destruct Hin as [<-|[<-|[<-|[]]]].
  - exists "plane". split; [simpl; tauto|]. now exists "", "".
  - exists "hex". split; [simpl; tauto|]. now exists "", "_socle".
  - exists "ground". split; [simpl; tauto|]. now exists "", "01".
Qed.

Lemma C1_witness :
  type (mesh_named 0 "Big_Platform" default_box) = "MESH"
  /\ name_matches (mesh_named 0 "Big_Platform" default_box)
  /\ should_exclude_object
       (set_bound_box (box_of (mkVec 0 0 0) (mkVec 1 1 1))
                      (mesh_named 0 "Big_Platform" default_box)) = Ok true.
Proof.
  assert (Hm : name_matches (mesh_named 0 "Big_Platform" default_box)).
  { exists "platform". split; [simpl; tauto|]. now exists "big_", "". }
  split; [reflexivity|]. split; [exact Hm|].
  exact (proj1 (C1_name_match_excludes
                  (mesh_named 0 "Big_Platform" default_box)
                  (box_of (mkVec 0 0 0) (mkVec 1 1 1)) eq_refl) Hm).
Defined.

(** C5: a mesh object with zero XY extent whose name contains no exclusion
    substring is retained; the flatness test is skipped, so the division
    z_height / xy_size, which would raise, is never evaluated. *)
Theorem C5_zero_extent_retained (obj : object) (z xy : Q) :
  type obj = "MESH" -> ~ name_matches obj ->
  z_height (bound_box obj) = Ok z -> xy_size (bound_box obj) = Ok xy ->
  xy == 0 ->
  should_exclude_object obj = Ok false
  /\ py_div z xy = Raise ZeroDivisionError.
Proof.
  intros Hty Hname Hz Hxy Hzero. split.
  - rewrite (filter_unmatched_mesh obj z xy Hty Hname Hz Hxy).
    assert (L : Qltb 0 xy = false).
    { apply Qltb_ge. rewrite Hzero. apply Qle_refl. }
    now rewrite L.
  - now apply py_div_zero.
Qed.

Lemma C5_witness :
  should_exclude_object
    (mesh_named 0 "Antenna" (box_of (mkVec 2 3 0) (mkVec 2 3 5))) = Ok false
  /\ py_div 5 0 = Raise ZeroDivisionError.
Proof.
  assert (Hname : ~ name_matches
            (mesh_named 0 "Antenna" (box_of (mkVec 2 3 0) (mkVec 2 3 5)))).
  { intro H. apply pattern_loop_spec in H. vm_compute in H. discriminate H. }
  refine (C5_zero_extent_retained
            (mesh_named 0 "Antenna" (box_of (mkVec 2 3 0) (mkVec 2 3 5)))
            5 0 eq_refl Hname _ _ _).
  - reflexivity.
  - reflexivity.
  - reflexivity.
Defined.

(** C9: an object whose type is not MESH is retained at once, whatever its
    name and bounding box (for instance a camera named base). *)
Theorem C9_non_mesh_retained (obj : object) :
  type obj <> "MESH" -> should_exclude_object obj = Ok false.
Proof.
  intro Hty. unfold should_exclude_object.
  apply String.eqb_neq in Hty. now rewrite Hty.
Qed.

Lemma C9_witness :
  should_exclude_object
    (mkObject 0 "base" "CAMERA" (box_of (mkVec 0 0 0) (mkVec 1 1 0))
              identity_matrix (mkVec 0 0 0) (mkVec 0 0 0) "ORTHO" 6 0 true)
  = Ok false.
Proof.
  apply C9_non_mesh_retained. simpl. discriminate.
Defined.

(** ** Bounding rectangle accumulation *)

Lemma py_min2_cases (a b : Q) :
  (py_min2 a b = a \/ py_min2 a b = b) /\ py_min2 a b <= a /\ py_min2 a b <= b.
Proof.
  unfold py_min2. destruct (Qltb b a) eqn:E.
  - apply Qltb_lt in E. repeat split; auto; lra.
  - apply Qltb_ge in E. repeat split; auto; lra.
Qed.

Lemma py_max2_cases (a b : Q) :
  (py_max2 a b = a \/ py_max2 a b = b) /\ a <= py_max2 a b /\ b <= py_max2 a b.
Proof.
  unfold py_max2. destruct (Qltb a b) eqn:E.
  - apply Qltb_lt in E. repeat split; auto; lra.
  - apply Qltb_ge in E. repeat split; auto; lra.
Qed.

Lemma fold_ext_min_fin (xs : list Q) : forall a,
  exists m, fold_left ext_min xs (Fin a) = Fin m
            /\ m <= a /\ (forall x, In x xs -> m <= x) /\ (m = a \/ In m xs).
Proof.
  induction xs as [|x xs IH]; intro a; simpl.
  - exists a. repeat split; auto; try lra. intros x [].
  - destruct (IH (py_min2 a x)) as (m & Hm & Hle & Hall & Hin).
    destruct (py_min2_cases a x) as (Hc & Ha & Hx).
    exists m. split; [exact Hm|]. split; [lra|]. split.
    + intros y [<-|Hy]; [lra|auto].
    + destruct Hin as [->|Hin]; [|auto]. destruct Hc as [->| ->]; auto.
Qed.

Lemma fold_ext_max_fin (xs : list Q) : forall a,
  exists m, fold_left ext_max xs (Fin a) = Fin m
            /\ a <= m /\ (forall x, In x xs -> x <= m) /\ (m = a \/ In m xs).
Proof.
  induction xs as [|x xs IH]; intro a; simpl.
  - exists a. repeat split; auto; try lra. intros x [].
  - destruct (IH (py_max2 a x)) as (m & Hm & Hle & Hall & Hin).
    destruct (py_max2_cases a x) as (Hc & Ha & Hx).
    exists m. split; [exact Hm|]. split; [lra|]. split.
    + intros y [<-|Hy]; [lra|auto].
    + destruct Hin as [->|Hin]; [|auto]. destruct Hc as [->| ->]; auto.
Qed.

(** From the sentinel, the fold over a non-empty list is its minimum. *)
Lemma fold_ext_min_spec (xs : list Q) :
  xs <> [] -> exists m, fold_left ext_min xs PInf = Fin m /\ is_min xs m.
Proof.
  destruct xs as [|x xs]; [congruence|]. intros _. simpl.
  destruct (fold_ext_min_fin xs x) as (m & Hm & Hle & Hall & Hin).
  exists m. split; [exact Hm|]. split.
  - intros y [<-|Hy]; auto.
  - exists m. split; [|reflexivity]. destruct Hin as [->|Hin]; simpl; auto.
Qed.

Lemma fold_ext_max_spec (xs : list Q) :
  xs <> [] -> exists m, fold_left ext_max xs NInf = Fin m /\ is_max xs m.
Proof.
  destruct xs as [|x xs]; [congruence|]. intros _. simpl.
  destruct (fold_ext_max_fin xs x) as (m & Hm & Hle & Hall & Hin).
  exists m. split; [exact Hm|]. split.
  - intros y [<-|Hy]; auto.
  - exists m. split; [|reflexivity]. destruct Hin as [->|Hin]; simpl; auto.
Qed.

(** The two nested loops visit the world-space corners in order. *)
Lemma fold_add_vertex (mw : matrix) (vs : list vec3) : forall b,
  fold_left (add_vertex mw) vs b =
  mkBounds (fold_left ext_min (map vx (map (mat_vec mw) vs)) (min_x b))
           (fold_left ext_max (map vx (map (mat_vec mw) vs)) (max_x b))
           (fold_left ext_min (map vy (map (mat_vec mw) vs)) (min_y b))
           (fold_left ext_max (map vy (map (mat_vec mw) vs)) (max_y b)).
Proof.
  induction vs as [|v vs IH]; intro b.
  - now destruct b.
  - simpl fold_left at 1. rewrite IH. reflexivity.
Qed.

Lemma scene_points_cons (o : object) (meshes : list object) :
  scene_points (o :: meshes) = (world_corners o ++ scene_points meshes)%list.
Proof. reflexivity. Qed.

Lemma fold_add_object (meshes : list object) : forall b,
  fold_left add_object meshes b =
  mkBounds (fold_left ext_min (map vx (scene_points meshes)) (min_x b))
           (fold_left ext_max (map vx (scene_points meshes)) (max_x b))
           (fold_left ext_min (map vy (scene_points meshes)) (min_y b))
           (fold_left ext_max (map vy (scene_points meshes)) (max_y b)).
Proof.
  induction meshes as [|o meshes IH]; intro b.
  - now destruct b.
  - simpl fold_left at 1. rewrite IH.
    rewrite scene_points_cons, !map_app, !fold_left_app.
    unfold add_object, world_corners. rewrite fold_add_vertex. reflexivity.
Qed.

Lemma scene_points_nonempty (meshes : list object) :
  meshes <> [] -> scene_points meshes <> [].
Proof.
  destruct meshes as [|o meshes]; [congruence|]. intros _. discriminate.
Qed.

(** After the loops the four accumulators are finite and hold the bounding
    rectangle of all world-space corners. *)
Lemma bounds_finite (meshes : list object) :
  meshes <> [] ->
  exists x0 x1 y0 y1,
    scene_bounds meshes = mkBounds (Fin x0) (Fin x1) (Fin y0) (Fin y1)
    /\ bounding_rect (scene_points meshes) x0 x1 y0 y1.
Proof.
  intro Hne. apply scene_points_nonempty in Hne.
  assert (Hx : map vx (scene_points meshes) <> []).
  { destruct (scene_points meshes); [congruence|discriminate]. }
  assert (Hy : map vy (scene_points meshes) <> []).
  { destruct (scene_points meshes); [congruence|discriminate]. }
  destruct (fold_ext_min_spec _ Hx) as (x0 & Ex0 & Hx0).
  destruct (fold_ext_max_spec _ Hx) as (x1 & Ex1 & Hx1).
  destruct (fold_ext_min_spec _ Hy) as (y0 & Ey0 & Hy0).
  destruct (fold_ext_max_spec _ Hy) as (y1 & Ey1 & Hy1).
  exists x0, x1, y0, y1. split.
  - unfold scene_bounds. rewrite fold_add_object. simpl.
    now rewrite Ex0, Ex1, Ey0, Ey1.
  - repeat split; try apply Hx0; try apply Hx1; try apply Hy0; try apply Hy1.
Qed.

Lemma is_min_unique (xs : list Q) (a b : Q) :
  is_min xs a -> is_min xs b -> a == b.
Proof.
  intros [La (x & Hx & Ex)] [Lb (y & Hy & Ey)].
  specialize (La y Hy). specialize (Lb x Hx). lra.
Qed.

Lemma is_max_unique (xs : list Q) (a b : Q) :
  is_max xs a -> is_max xs b -> a == b.
Proof.
  intros [La (x & Hx & Ex)] [Lb (y & Hy & Ey)].
  specialize (La y Hy). specialize (Lb x Hx). lra.
Qed.

Lemma is_min_app (xs ys : list Q) (a b : Q) :
  is_min xs a -> is_min ys b -> a <= b -> is_min (xs ++ ys) a.
Proof.
  intros [La (x & Hx & Ex)] [Lb _] Hab. split.
  - intros z Hz. apply in_app_or in Hz. destruct Hz as [Hz|Hz].
    + auto.
    + specialize (Lb z Hz). lra.
  - exists x. split; [apply in_or_app; auto|exact Ex].
Qed.

Lemma is_max_app (xs ys : list Q) (a b : Q) :
  is_max xs a -> is_max ys b -> a <= b -> is_max (xs ++ ys) b.
Proof.
  intros [La _] [Lb (y & Hy & Ey)] Hab. split.
  - intros z Hz. apply in_app_or in Hz. destruct Hz as [Hz|Hz].
    + specialize (La z Hz). lra.
    + auto.
  - exists y. split; [apply in_or_app; auto|exact Ey].
Qed.

(** ** Auto-framing *)

Lemma inject_pos_nonzero (p : positive) : ~ inject_Z (Zpos p) == 0.
Proof. unfold Qeq. simpl. lia. Qed.

Lemma inject_pos_gt0 (p : positive) : 0 < inject_Z (Zpos p).
Proof. unfold Qlt. simpl. lia. Qed.

Lemma aspect_pos (w : bpy) : 0 < aspect_of w.
Proof.
  unfold aspect_of. apply Qlt_shift_div_l.
  - apply inject_pos_gt0.
  - rewrite Qmult_0_l. apply inject_pos_gt0.
Qed.

Lemma update_obj_compose (i : nat) (f g : object -> object) (l : list object) :
  (forall o, oid (f o) = oid o) ->
  update_obj i g (update_obj i f l) = update_obj i (fun o => g (f o)) l.
Proof.
  intro Hf. unfold update_obj. rewrite map_map. apply map_ext. intro o.
  destruct (Nat.eqb (oid o) i) eqn:E.
  - now rewrite Hf, E.
  - now rewrite E.
Qed.

(** What [fit_camera_to_objects] computes when the scene has a mesh. *)
Lemma fit_camera_run (camera : nat) (padding : Q) (w : bpy) :
  filter is_mesh (objects (scene w)) <> [] ->
  exists x0 x1 y0 y1,
    bounding_rect (scene_points (filter is_mesh (objects (scene w))))
                  x0 x1 y0 y1
    /\ fit_camera_to_objects camera padding w =
       Ok (tt, framed camera
                 (chosen_scale (x1 - x0) (y1 - y0) (aspect_of w) padding)
                 ((x0 + x1) / 2) ((y0 + y1) / 2) w).
Proof.
  intro Hne.
  destruct (bounds_finite _ Hne) as (x0 & x1 & y0 & y1 & Hb & Hrect).
  exists x0, x1, y0, y1. split; [exact Hrect|].
  unfold fit_camera_to_objects, bind at 1, scene_objects.
  destruct (filter is_mesh (objects (scene w))) as [|m ms] eqn:Em;
    [congruence|].
  rewrite Hb. unfold bind at 1, scene_render.
  unfold bind at 1, lift at 1.
  rewrite (py_div_ok _ _ (inject_pos_nonzero _)). fold (aspect_of w).
  unfold bind at 1, lift at 1.
  assert (Ha : ~ aspect_of w == 0).
  { pose proof (aspect_pos w) as P. intro E. rewrite E in P.
    exact (Qlt_irrefl _ P). }
  rewrite (py_div_ok _ _ Ha).
  unfold framed, chosen_scale.
  rewrite <- (update_obj_compose camera
                (fun o => set_location_x ((x0 + x1) / 2) (set_ortho_scale _ o))
                (set_location_y ((y0 + y1) / 2))) by reflexivity.
  rewrite <- (update_obj_compose camera (set_ortho_scale _)
                (set_location_x ((x0 + x1) / 2))) by reflexivity.
  destruct (Qltb (y1 - y0) ((x1 - x0) / aspect_of w)); reflexivity.
Qed.


Lemma chosen_scale_spec (W H a p : Q) :
  0 < a ->
  (W < H * a -> chosen_scale W H a p == H * a * p)
  /\ (~ W < H * a -> chosen_scale W H a p == W * p).
Proof.
  intro Ha. assert (E : W == W / a * a) by (field; lra).
  unfold chosen_scale. destruct (Qltb H (W / a)) eqn:L.
  - apply Qltb_lt in L. split; intro C.
    + exfalso. nra.
    + reflexivity.
  - apply Qltb_ge in L. split; intro C.
    + reflexivity.
    + assert (E' : W == H * a) by (apply Qle_antisym; nra).
      rewrite E'. reflexivity.
Qed.

Lemma has_mesh_filter (w : bpy) :
  has_mesh w <-> filter is_mesh (objects (scene w)) <> [].
Proof.
  split.
  - intros (o & Hin & Hty) E.
    assert (H : In o (filter is_mesh (objects (scene w)))).
    { apply filter_In. split; trivial. unfold is_mesh.
      now rewrite Hty. }
    now rewrite E in H.
  - intro H. destruct (filter is_mesh (objects (scene w))) as [|o l] eqn:E;
      [congruence|].
    assert (Hin : In o (filter is_mesh (objects (scene w))))
      by (rewrite E; now left).
    apply filter_In in Hin. destruct Hin as [Hin Hm].
    exists o. split; trivial. now apply String.eqb_eq.
Qed.

Lemma Forall2_update_obj (R : object -> object -> Prop) (i : nat)
  (f : object -> object) (l : list object) :
  (forall o, R o (if Nat.eqb (oid o) i then f o else o)) ->
  Forall2 R l (update_obj i f l).
Proof.
  intro H. induction l as [|o l IH]; simpl; constructor; auto.
Qed.

(** C7: in a scene without mesh objects [fit_camera_to_objects] returns at
    once: no exception is raised and the host state, in particular the
    camera's orthographic scale and location, is exactly what it was. *)
Theorem C7_no_mesh_noop (camera : nat) (padding : Q) (w : bpy) :
  ~ has_mesh w ->
  fit_camera_to_objects camera padding w = Ok (tt, w).
Proof.
  intro H. rewrite has_mesh_filter in H.
  unfold fit_camera_to_objects, bind, scene_objects.
  destruct (filter is_mesh (objects (scene w))); [reflexivity|].
  exfalso. apply H. discriminate.
Qed.

Lemma C7_witness :
  fit_camera_to_objects 2 default_padding no_mesh_host = Ok (tt, no_mesh_host).
Proof.
  apply C7_no_mesh_noop.
  intros (o & Hin & Hty). simpl in Hin.
  destruct Hin as [<-|[<-|[]]]; discriminate Hty.
Defined.

(** Reading an updated camera back from the scene. *)
Lemma camera_update_framed (camera : nat) (P : object -> Prop)
  (f : object -> object) (objs : list object) :
  (forall o, oid (f o) = oid o) -> (forall o, P (f o)) ->
  camera_update camera P objs (update_obj camera f objs).
Proof.
  intros Hid HP. unfold camera_update. apply Forall2_update_obj. intro o.
  destruct (Nat.eqb (oid o) camera); auto.
Qed.

Lemma camera_update_In (camera : nat) (P : object -> Prop)
  (objs objs' : list object) (o : object) :
  camera_update camera P objs objs' -> In o objs -> oid o = camera ->
  exists c, In c objs' /\ oid c = camera /\ P c.
Proof.
  intros H. induction H as [|x x' l l' Hx _ IH]; intros Hin Ho;
    [contradiction|].
  destruct Hin as [->|Hin].
  - rewrite Ho, Nat.eqb_refl in Hx. destruct Hx as [Hi HP].
    exists x'. split; [now left|]. split; [congruence|exact HP].
  - destruct (IH Hin Ho) as (c & Hc & Hi & HP).
    exists c. split; [now right|auto].
Qed.

Lemma camera_update_other (camera : nat) (P : object -> Prop)
  (objs objs' : list object) (o : object) :
  camera_update camera P objs objs' -> In o objs -> oid o <> camera ->
  In o objs'.
Proof.
  intros H. induction H as [|x x' l l' Hx _ IH]; intros Hin Ho;
    [contradiction|].
  destruct Hin as [->|Hin].
  - apply Nat.eqb_neq in Ho. rewrite Ho in Hx. subst x'. now left.
  - right. now apply IH.
Qed.

(** C3: when the scene has a mesh object and [camera] is a camera,
    [fit_camera_to_objects] computes the axis-aligned X/Y bounding
    rectangle of the world-space bounding-box corners of all mesh objects;
    afterwards the camera's orthographic scale is height * aspect * 1.2
    when height * aspect exceeds the width and width * 1.2 otherwise, and
    the X and Y components of its location are the rectangle's centre.
    Scale and location are those read from the camera object of the scene
    after the call; every other object is unchanged.  For two meshes with
    rectangles [(-1,-1),(1,1)] and [(3,3),(5,5)] the rectangle is
    [(-1,-1),(5,5)], width and height are 6, the centre is (2,2) and the
    scale is 6 * aspect * 1.2 or 6 * 1.2. *)
Theorem C3_fit_camera_frames_meshes (camera : nat) (w : bpy) :
  let meshes := filter is_mesh (objects (scene w)) in
  let aspect := aspect_of w in
  has_mesh w -> camera_handle camera w ->
  exists w' x0 x1 y0 y1 s cx cy,
    fit_camera_to_objects camera default_padding w = Ok (tt, w')
    /\ bounding_rect (scene_points meshes) x0 x1 y0 y1
    /\ camera_update camera (framing_is s cx cy)
                     (objects (scene w)) (objects (scene w'))
    /\ ((x1 - x0) < (y1 - y0) * aspect -> s == (y1 - y0) * aspect * 1.2)
    /\ (~ (x1 - x0) < (y1 - y0) * aspect -> s == (x1 - x0) * 1.2)
    /\ cx == (x0 + x1) / 2 /\ cy == (y0 + y1) / 2
    /\ (forall o1 o2,
          meshes = [o1; o2] ->
          bounding_rect (world_corners o1) (-1) 1 (-1) 1 ->
          bounding_rect (world_corners o2) 3 5 3 5 ->
          x0 == -1 /\ y0 == -1 /\ x1 == 5 /\ y1 == 5
          /\ x1 - x0 == 6 /\ y1 - y0 == 6 /\ cx == 2 /\ cy == 2
          /\ (6 < 6 * aspect -> s == 6 * aspect * 1.2)
          /\ (~ 6 < 6 * aspect -> s == 6 * 1.2)).
Proof.
  intros meshes aspect Hm _. apply has_mesh_filter in Hm.
  destruct (fit_camera_run camera default_padding w Hm)
    as (x0 & x1 & y0 & y1 & Hrect & Hrun).
  exists (framed camera
            (chosen_scale (x1 - x0) (y1 - y0) aspect default_padding)
            ((x0 + x1) / 2) ((y0 + y1) / 2) w).
  exists x0, x1, y0, y1,
    (chosen_scale (x1 - x0) (y1 - y0) aspect default_padding),
    ((x0 + x1) / 2), ((y0 + y1) / 2).
  destruct (chosen_scale_spec (x1 - x0) (y1 - y0) aspect default_padding
              (aspect_pos w)) as [Htall Hwide].
  split; [exact Hrun|]. split; [exact Hrect|]. split.
  { unfold framed. cbn [scene objects set_scene set_objects].
    apply camera_update_framed; [reflexivity|].
    intro o. unfold framing_is. cbn. repeat split; reflexivity. }
  split; [exact Htall|]. split; [exact Hwide|].
  split; [reflexivity|]. split; [reflexivity|].
  intros o1 o2 E (A0 & A1 & B0 & B1) (C0 & C1 & D0 & D1).
  fold meshes in Hrect. rewrite E in Hrect.
  rewrite !scene_points_cons in Hrect.
  change (scene_points []) with (@nil vec3) in Hrect.
  rewrite app_nil_r in Hrect. unfold bounding_rect in Hrect.
  rewrite !map_app in Hrect.
  destruct Hrect as (R0 & R1 & S0 & S1).
  assert (Ex0 : x0 == -1).
  { apply (is_min_unique _ _ _ R0). apply (is_min_app _ _ _ 3 A0 C0). lra. }
  assert (Ex1 : x1 == 5).
  { apply (is_max_unique _ _ _ R1). apply (is_max_app _ _ 1 _ A1 C1). lra. }
  assert (Ey0 : y0 == -1).
  { apply (is_min_unique _ _ _ S0). apply (is_min_app _ _ _ 3 B0 D0). lra. }
  assert (Ey1 : y1 == 5).
  { apply (is_max_unique _ _ _ S1). apply (is_max_app _ _ 1 _ B1 D1). lra. }
  assert (Ew : x1 - x0 == 6) by (rewrite Ex0, Ex1; reflexivity).
  assert (Eh : y1 - y0 == 6) by (rewrite Ey0, Ey1; reflexivity).
  assert (Ecx : (x0 + x1) / 2 == 2) by (rewrite Ex0, Ex1; reflexivity).
  assert (Ecy : (y0 + y1) / 2 == 2) by (rewrite Ey0, Ey1; reflexivity).
  repeat (split; [assumption|]). split.
  - intro H. rewrite Htall; [now rewrite Eh|now rewrite Ew, Eh].
  - intro H. rewrite Hwide; [now rewrite Ew|now rewrite Ew, Eh].
Qed.

Lemma C3_witness :
  has_mesh two_box_host
  /\ exists w' c,
       fit_camera_to_objects 2 default_padding two_box_host = Ok (tt, w')
       /\ In c (objects (scene w')) /\ oid c = 2%nat
       /\ ortho_scale c == 6 * (512 # 443) * 1.2
       /\ vx (location c) == 2 /\ vy (location c) == 2.
Proof.
  assert (Hm : has_mesh two_box_host).
  { eexists. split; [left; reflexivity|reflexivity]. }
  split; [exact Hm|].
  assert (Hh : camera_handle 2 two_box_host).
  { intros o Hin Ho. simpl in Hin.
    destruct Hin as [<-|[<-|[<-|[]]]]; try discriminate Ho; reflexivity. }
  destruct (C3_fit_camera_frames_meshes 2 two_box_host Hm Hh)
    as (w' & x0 & x1 & y0 & y1 & s & cx & cy
        & Hrun & Hrect & Hcam & Htall & Hwide & Hcx & Hcy & Hex).
  destruct (camera_update_In 2 _ _ _ (sample_camera 2) Hcam)
    as (c & Hc & Hi & Hs & Hx & Hy);
    [simpl; tauto|reflexivity|].
  exists w', c. split; [exact Hrun|]. split; [exact Hc|]. split; [exact Hi|].
  destruct (Hex _ _ eq_refl)
    as (Ex0 & Ey0 & Ex1 & Ey1 & Ew & Eh & Ecx & Ecy & Es & _).
  - unfold bounding_rect, is_min, is_max.
    repeat split;
      try (intros x Hin; vm_compute in Hin;
           repeat (destruct Hin as [<-|Hin]); try contradiction; lra).
    + exists (-1). split; [vm_compute; tauto|reflexivity].
    + exists 1. split; [vm_compute; tauto|reflexivity].
    + exists (-1). split; [vm_compute; tauto|reflexivity].
    + exists 1. split; [vm_compute; tauto|reflexivity].
  - unfold bounding_rect, is_min, is_max.
    repeat split;
      try (intros x Hin; vm_compute in Hin;
           repeat (destruct Hin as [<-|Hin]); try contradiction; lra).
    + exists 3. split; [vm_compute; tauto|reflexivity].
    + exists 5. split; [vm_compute; tauto|reflexivity].
    + exists 3. split; [vm_compute; tauto|reflexivity].
    + exists 5. split; [vm_compute; tauto|reflexivity].
  - rewrite Hs, Hx, Hy. split; [|split; assumption].
    apply Es. reflexivity.
Defined.



(** ** Running the script monad *)

Lemma bind_run {A B} (m : M A) (k : A -> M B) (w w1 : bpy) (a : A) :
  m w = Ok (a, w1) -> bind m k w = k a w1.
Proof. intro H. unfold bind. now rewrite H. Qed.

Lemma logged_refl (w : bpy) : logged [] w w.
Proof. unfold logged. now rewrite app_nil_r. Qed.

Lemma logged_trans (l1 l2 : list string) (w w1 w2 : bpy) :
  logged l1 w w1 -> logged l2 w1 w2 -> logged (l1 ++ l2) w w2.
Proof.
  intros (F1 & D1 & W1 & S1) (F2 & D2 & W2 & S2). unfold logged.
  rewrite F2, D2, W2, S2, F1, D1, W1, S1, app_assoc. auto.
Qed.

(** ** Linking the imported objects *)

Lemma with_linked_nil (w : bpy) : with_linked [] w = w.
Proof.
  unfold with_linked. rewrite app_nil_r.
  destruct w as [sc ? ? ? ? ? ? ?]. now destruct sc.
Qed.

Lemma with_linked_cons (obj : object) (objs : list object) (w : bpy) :
  with_linked objs (with_linked [obj] w) = with_linked (obj :: objs) w.
Proof.
  unfold with_linked. simpl. now rewrite <- app_assoc.
Qed.

Lemma link_objects_run (objs : list (option object)) :
  forall (excluded : list object) (w : bpy),
    link_objects objs excluded w
    = Ok ((excluded ++ filter is_excluded (loaded objs))%list,
          with_linked (loaded objs) w).
Proof.
  induction objs as [|[obj|] objs IH]; intros excluded w.
  - simpl. now rewrite app_nil_r, with_linked_nil.
  - simpl link_objects.
    rewrite (bind_run _ _ w (with_linked [obj] w) tt) by reflexivity.
    destruct (should_exclude_object_total obj) as [b Hb].
    unfold bind at 1, lift. rewrite Hb. rewrite IH.
    simpl loaded. rewrite with_linked_cons. simpl filter.
    unfold is_excluded at 2. rewrite Hb.
    destruct b; [now rewrite <- app_assoc|reflexivity].
  - simpl. apply IH.
Qed.

Lemma loaded_map_Some (l : list object) : loaded (map Some l) = l.
Proof. induction l as [|o l IH]; simpl; [|rewrite IH]; reflexivity. Qed.

(** C10: the first loop of [render_model] skips every [None] entry of the
    imported list: the objects linked to the scene are exactly the
    non-[None] entries, the filter is applied to exactly those, no exception
    is raised, and the result is the same as for the list with the [None]
    entries left out. *)
Theorem C10_none_entries_skipped (objs : list (option object))
  (excluded : list object) (w : bpy) :
  link_objects objs excluded w
  = Ok ((excluded ++ filter is_excluded (loaded objs))%list,
        with_linked (loaded objs) w)
  /\ link_objects objs excluded w
     = link_objects (map Some (loaded objs)) excluded w
  /\ link_objects (None :: objs) excluded w = link_objects objs excluded w.
Proof.
  split; [apply link_objects_run|]. split; [|reflexivity].
  now rewrite !link_objects_run, loaded_map_Some.
Qed.

(** ** Stages of [render_model] *)

Lemma runs_bind {A B} (m : M A) (k : A -> M B) (w : bpy)
  (P : A -> bpy -> Prop) (Q : B -> bpy -> Prop) :
  runs m w P -> (forall a w1, P a w1 -> runs (k a) w1 Q) ->
  runs (bind m k) w Q.
Proof.
  intros (a & w1 & E & HP) Hk.
  destruct (Hk a w1 HP) as (b & w2 & E2 & HQ).
  exists b, w2. split; [|exact HQ]. now rewrite (bind_run _ _ _ _ _ E).
Qed.

Lemma runs_weaken {A} (m : M A) (w : bpy) (P Q : A -> bpy -> Prop) :
  runs m w P -> (forall a w1, P a w1 -> Q a w1) -> runs m w Q.
Proof. intros (a & w1 & E & HP) H. exists a, w1. auto. Qed.

Lemma quiet_refl (w : bpy) : quiet w w.
Proof. split; [apply logged_refl|reflexivity]. Qed.

Lemma modify_scene_logged (f : scene_t -> scene_t) (l : list string)
  (w0 w : bpy) :
  logged l w0 w ->
  runs (modify_scene f) w
       (fun _ w' => logged l w0 w' /\ scene w' = f (scene w)
                    /\ active_object w' = active_object w).
Proof.
  intro H. exists tt, (set_scene (f (scene w)) w).
  split; [reflexivity|]. split; [exact H|]. split; reflexivity.
Qed.

Lemma modify_obj_quiet (i : nat) (f : object -> object) (w0 w : bpy) :
  quiet w0 w -> runs (modify_obj i f) w (fun _ w' => quiet w0 w').
Proof.
  intros [L R]. unfold modify_obj.
  apply (runs_weaken _ _ _ _ (modify_scene_logged _ _ _ _ L)).
  intros _ w1 (L1 & S1 & A1). split; trivial. now rewrite S1.
Qed.

Lemma set_camera_quiet (c : option nat) (w0 w : bpy) :
  quiet w0 w ->
  runs (modify_scene (set_camera c)) w (fun _ w' => quiet w0 w').
Proof.
  intros [L R].
  apply (runs_weaken _ _ _ _ (modify_scene_logged _ _ _ _ L)).
  intros _ w1 (L1 & S1 & A1). split; trivial. now rewrite S1.
Qed.

Lemma object_add_quiet (nm ty dty : string) (loc : vec3) (sc en : Q)
  (w0 w : bpy) :
  quiet w0 w ->
  runs (object_add nm ty dty loc sc en) w
       (fun _ w' => quiet w0 w' /\ active_object w' = Some (next_id w)).
Proof.
  intros [L R]. eexists tt, _. split; [reflexivity|].
  split; [split|]; [exact L|exact R|reflexivity].
Qed.

Lemma active_object_quiet (i : nat) (w0 w : bpy) :
  quiet w0 w /\ active_object w = Some i ->
  runs context_active_object w (fun _ w' => quiet w0 w').
Proof.
  intros [Q A]. exists i, w. unfold context_active_object. rewrite A. auto.
Qed.

Lemma ret_quiet {A} (a : A) (w0 w : bpy) :
  quiet w0 w -> runs (ret a) w (fun _ w' => quiet w0 w').
Proof. intro Q. exists a, w. split; [reflexivity|exact Q]. Qed.

Ltac quiet_step :=
  lazymatch goal with
  | |- runs (object_add _ _ _ _ _ _) _ _ =>
      apply object_add_quiet; eassumption
  | |- runs context_active_object _ _ =>
      eapply active_object_quiet; eassumption
  | |- runs (modify_obj _ _) _ _ => apply modify_obj_quiet; eassumption
  | |- runs (modify_scene (set_camera _)) _ _ =>
      apply set_camera_quiet; eassumption
  | |- runs (ret _) _ _ => apply ret_quiet; eassumption
  end.

Ltac quiet_chain :=
  repeat (eapply runs_bind; [quiet_step|]; cbv beta; intros ? ? ?).

Lemma create_camera_quiet (width_hexes height_hexes : positive)
  (w0 w : bpy) :
  quiet w0 w ->
  runs (create_camera width_hexes height_hexes) w (fun _ w' => quiet w0 w').
Proof.
  intro Q. unfold create_camera, camera_add. quiet_chain.
  quiet_step.
Qed.

Lemma create_lights_quiet (w0 w : bpy) :
  quiet w0 w -> runs create_lights w (fun _ w' => quiet w0 w').
Proof.
  intro Q. unfold create_lights, light_add. quiet_chain.
  quiet_step.
Qed.

Lemma fit_camera_quiet (camera : nat) (padding : Q) (w0 w : bpy) :
  quiet w0 w ->
  runs (fit_camera_to_objects camera padding) w (fun _ w' => quiet w0 w').
Proof.
  intro Q.
  destruct (filter is_mesh (objects (scene w))) as [|m ms] eqn:E.
  - exists tt, w. split; [|exact Q].
    unfold fit_camera_to_objects, bind, scene_objects. now rewrite E.
  - destruct (fit_camera_run camera padding w) as (x0 & x1 & y0 & y1 & _ & H).
    + rewrite E. discriminate.
    + eexists tt, _. split; [exact H|]. exact Q.
Qed.

Lemma print_logged (s : string) (l : list string) (w0 w : bpy) :
  logged l w0 w -> runs (print s) w (fun _ w' => logged (l ++ [s]) w0 w').
Proof.
  intros (F & D & W & S). eexists tt, _. split; [reflexivity|].
  unfold logged. simpl. rewrite S, app_assoc. auto.
Qed.

Lemma modify_render_logged (f : render_settings -> render_settings)
  (l : list string) (w0 w : bpy) :
  logged l w0 w ->
  runs (modify_render f) w
       (fun _ w' => logged l w0 w'
                    /\ render (scene w') = f (render (scene w))).
Proof.
  intro L. unfold modify_render.
  apply (runs_weaken _ _ _ _ (modify_scene_logged _ _ _ _ L)).
  intros _ w1 (L1 & S1 & _). split; trivial. now rewrite S1.
Qed.

Lemma any_scene_logged (f : scene_t -> scene_t) (l : list string)
  (w0 w : bpy) :
  logged l w0 w -> runs (modify_scene f) w (fun _ w' => logged l w0 w').
Proof.
  intro L. apply (runs_weaken _ _ _ _ (modify_scene_logged _ _ _ _ L)).
  tauto.
Qed.

Lemma delete_all_objects_logged (l : list string) (w0 w : bpy) :
  logged l w0 w -> runs delete_all_objects w (fun _ w' => logged l w0 w').
Proof. intro L. eexists tt, _. split; [reflexivity|]. exact L. Qed.

Lemma setup_world_logged (l : list string) (w0 w : bpy) :
  logged l w0 w -> runs setup_world w (fun _ w' => logged l w0 w').
Proof. intro L. eexists tt, _. split; [reflexivity|]. exact L. Qed.

Lemma setup_scene_logged (l : list string) (w0 w : bpy) :
  logged l w0 w -> runs setup_scene w (fun _ w' => logged l w0 w').
Proof.
  intro L. unfold setup_scene, modify_render.
  eapply runs_bind; [apply delete_all_objects_logged; eassumption|].
  cbv beta. intros _ w1 L1.
  repeat (eapply runs_bind; [apply any_scene_logged; eassumption|];
          cbv beta; intros ? ? ?).
  apply setup_world_logged. assumption.
Qed.

Lemma libraries_load_logged (path : string) (objs : list (option object))
  (l : list string) (w0 w : bpy) :
  files w path = Some objs -> logged l w0 w ->
  runs (libraries_load path) w (fun _ w' => logged l w0 w').
Proof.
  intros H L. unfold runs, libraries_load. rewrite H.
  destruct (stamp (next_id w) objs) as [l' n].
  eexists _, _. split; [reflexivity|]. exact L.
Qed.

Lemma link_objects_logged (objs : list (option object))
  (excluded : list object) (l : list string) (w0 w : bpy) :
  logged l w0 w ->
  runs (link_objects objs excluded) w (fun _ w' => logged l w0 w').
Proof.
  intro L. eexists _, _. split; [apply link_objects_run|]. exact L.
Qed.

Lemma excluding_lines_quiet (excluded : list object) :
  filter is_warning
         (map (fun o => "  Excluding object: " ++ name o) excluded) = [].
Proof. induction excluded as [|o ex IH]; simpl; auto. Qed.

Lemma remove_objects_logged (excluded : list object) :
  forall (l : list string) (w0 w : bpy),
    logged l w0 w ->
    runs (remove_objects excluded) w
         (fun _ w' =>
            logged (l ++ map (fun o => "  Excluding object: " ++ name o)
                             excluded) w0 w').
Proof.
  induction excluded as [|obj rest IH]; intros l w0 w L.
  - exists tt, w. split; [reflexivity|]. simpl. now rewrite app_nil_r.
  - simpl remove_objects.
    eapply runs_bind; [apply print_logged; eassumption|].
    cbv beta. intros _ w1 L1.
    eapply runs_bind; [apply any_scene_logged; eassumption|].
    cbv beta. intros _ w2 L2.
    eapply runs_weaken; [apply IH; eassumption|].
    cbv beta. intros _ w3 L3. simpl map.
    now rewrite <- app_assoc in L3.
Qed.

Lemma incl_ensure_parent (path : string) (dirs : list string) :
  incl dirs (ensure_parent path dirs).
Proof.
  unfold ensure_parent. destruct (dirname path) as [d|]; [|apply incl_refl].
  destruct (_ || _); [apply incl_refl|apply incl_appl, incl_refl].
Qed.

Lemma finish_run (path line : string) (w : bpy) :
  runs (modify_render (set_filepath path) ;; render_still ;; print line) w
       (fun _ w' =>
          files w' = files w /\ incl (directories w) (directories w')
          /\ stdout w' = (stdout w ++ [line])%list
          /\ written w'
             = (written w
                ++ [(path, set_render (set_filepath path (render (scene w)))
                                      (scene w))])%list).
Proof.
  eexists tt, _. split; [reflexivity|].
  split; [reflexivity|]. split; [apply incl_ensure_parent|].
  split; reflexivity.
Qed.

(** What one call of [render_model] does on a file that exists. *)
Lemma render_model_run (root blend_file output_name : string)
  (width_hexes height_hexes : positive) (objs : list (option object))
  (w : bpy) :
  files w blend_file = Some objs ->
  runs (render_model root blend_file output_name width_hexes height_hexes) w
       (fun _ w' =>
          rendered_one root output_name width_hexes height_hexes w w').
Proof.
  intro Hfile. unfold render_model.
  eapply runs_bind; [apply print_logged; apply logged_refl|].
  cbv beta. intros _ w1 L1.
  eapply runs_bind; [apply setup_scene_logged; eassumption|].
  cbv beta. intros _ w2 L2.
  eapply runs_bind.
  { eapply libraries_load_logged; [|eassumption].
    destruct L2 as (F2 & _). rewrite F2. eassumption. }
  cbv beta. intros data_to_objects w3 L3.
  eapply runs_bind; [apply link_objects_logged; eassumption|].
  cbv beta. intros excluded_objects w4 L4.
  eapply runs_bind; [apply remove_objects_logged; eassumption|].
  cbv beta. intros _ w5 L5.
  eapply runs_bind; [apply modify_render_logged; eassumption|].
  cbv beta. intros _ w6 [L6 R6].
  eapply runs_bind; [apply modify_render_logged; eassumption|].
  cbv beta. intros _ w7 [L7 R7].
  eapply runs_bind; [apply modify_render_logged; eassumption|].
  cbv beta. intros _ w8 [L8 R8].
  eapply runs_bind; [apply create_camera_quiet; apply quiet_refl|].
  cbv beta. intros camera w9 Q9.
  eapply runs_bind; [apply create_lights_quiet; eassumption|].
  cbv beta. intros _ w10 Q10.
  eapply runs_bind; [apply fit_camera_quiet; eassumption|].
  cbv beta. intros _ w11 [L11 R11].
  eapply runs_weaken; [apply finish_run|].
  cbv beta. intros _ w12 (F & D & S & W).
  pose proof (logged_trans _ _ _ _ _ L8 L11) as (F' & D' & W' & S').
  rewrite D' in D.
  unfold rendered_one. rewrite F, S, W, F', W', S'.
  split; [reflexivity|]. split; [exact D|]. split.
  - eexists. split; [reflexivity|]. simpl.
    rewrite R11, R8, R7, R6. split; reflexivity.
  - eexists. split; [rewrite <- app_assoc; reflexivity|].
    rewrite !filter_app, excluding_lines_quiet. reflexivity.
Qed.

(** ** Batch driver *)

Lemma batch_effect_refl (root : string) (w : bpy) : batch_effect root [] [] w w.
Proof.
  unfold batch_effect. split; [reflexivity|]. split; [apply incl_refl|].
  split.
  - exists []. now rewrite app_nil_r.
  - exists []. now rewrite app_nil_r.
Qed.

Lemma batch_effect_trans (root : string) (r1 r2 : list table_entry)
  (n1 n2 : list string) (w w1 w2 : bpy) :
  batch_effect root r1 n1 w w1 -> batch_effect root r2 n2 w1 w2 ->
  batch_effect root (r1 ++ r2) (n1 ++ n2) w w2.
Proof.
  intros (F1 & D1 & (i1 & W1 & I1) & (l1 & S1 & N1))
         (F2 & D2 & (i2 & W2 & I2) & (l2 & S2 & N2)).
  unfold batch_effect. rewrite F2, W2, S2, F1, W1, S1.
  split; [reflexivity|]. split; [exact (incl_tran D1 D2)|]. split.
  - exists (i1 ++ i2)%list. split; [now rewrite app_assoc|].
    now rewrite !map_app, I1, I2.
  - exists (l1 ++ l2)%list. split; [now rewrite app_assoc|].
    now rewrite filter_app, N1, N2.
Qed.

Lemma rendered_one_batch (root blend_name output_name : string)
  (wh hh : positive) (w w' : bpy) :
  rendered_one root output_name wh hh w w' ->
  batch_effect root [(blend_name, (output_name, wh, hh))] [] w w'.
Proof.
  intros (F & D & (sc & W & RX & RY) & L). unfold batch_effect.
  repeat split; trivial.
  eexists. split; [exact W|]. simpl.
  unfold image_summary, expected_image, entry_resolution, output_path. simpl.
  now rewrite RX, RY.
Qed.

Lemma path_exists_run (path : string) (w : bpy) :
  runs (path_exists path) w
       (fun found w' =>
          w' = w
          /\ found = match files w path with
                     | Some _ => true
                     | None => false
                     end).
Proof. eexists _, _. split; [reflexivity|]. split; reflexivity. Qed.

(** One iteration of the loop of [main]. *)
Lemma render_entry_run (root : string) (e : table_entry) (w : bpy) :
  runs (render_all root [e]) w
       (fun _ w' =>
          batch_effect root
            (filter (is_present (files w) root) [e])
            (map (warning_line root) (filter (is_missing (files w) root) [e]))
            w w').
Proof.
  destruct e as [blend_name [[output_name wh] hh]].
  simpl render_all. simpl filter.
  unfold is_missing, is_present, blend_path. simpl fst.
  eapply runs_bind; [apply path_exists_run|].
  cbv beta. intros found w1 [-> ->].
  destruct (files w (path_join (MODELS_DIR root) (blend_name ++ ".blend")))
    as [objs|] eqn:Hfile.
  - eapply runs_bind; [eapply render_model_run; eassumption|].
    cbv beta. intros _ w2 H. exists tt, w2. split; [reflexivity|].
    simpl. now apply rendered_one_batch.
  - eapply runs_bind; [apply print_logged; apply logged_refl|].
    cbv beta. intros _ w2 (F & D & W & S). exists tt, w2.
    split; [reflexivity|]. simpl.
    unfold batch_effect. split; [exact F|].
    split; [rewrite D; apply incl_refl|]. split.
    + exists []. now rewrite app_nil_r.
    + eexists. split; [exact S|]. reflexivity.
Qed.

Lemma render_all_cons (root : string) (e : table_entry)
  (rest : list table_entry) (w : bpy) :
  render_all root (e :: rest) w
  = bind (render_all root [e]) (fun _ => render_all root rest) w.
Proof.
  destruct e as [blend_name [[output_name wh] hh]]. simpl render_all.
  unfold bind.
  destruct (path_exists _ w) as [[found w1]|]; [|reflexivity].
  destruct (if found then _ else _) as [[[] w2]|]; reflexivity.
Qed.

(** The loop renders every entry whose file exists and prints one warning
    for every entry whose file is missing. *)
Lemma render_all_run (root : string) (table : list table_entry) :
  forall w,
    runs (render_all root table) w
         (fun _ w' =>
            batch_effect root
              (filter (is_present (files w) root) table)
              (map (warning_line root)
                   (filter (is_missing (files w) root) table))
              w w').
Proof.
  induction table as [|e rest IH]; intro w.
  - exists tt, w. split; [reflexivity|]. apply batch_effect_refl.
  - unfold runs. rewrite render_all_cons. fold (runs (A := unit)).
    eapply runs_bind; [apply render_entry_run|].
    cbv beta. intros _ w1 H1.
    eapply runs_weaken; [apply IH|].
    cbv beta. intros _ w2 H2.
    assert (F : files w1 = files w) by apply H1. rewrite F in H2.
    pose proof (batch_effect_trans _ _ _ _ _ _ _ _ H1 H2) as H.
    change (e :: rest) with ([e] ++ rest)%list.
    now rewrite !filter_app, map_app.
Qed.

Lemma mkdir_run (path : string) (w : bpy) :
  runs (mkdir path) w
       (fun _ w' =>
          files w' = files w /\ written w' = written w
          /\ stdout w' = stdout w /\ In path (directories w')).
Proof.
  eexists tt, _. split; [reflexivity|]. simpl. repeat split.
  destruct (existsb (String.eqb path) (directories w)) eqn:E.
  - apply existsb_exists in E. destruct E as (d & Hin & Hd).
    apply String.eqb_eq in Hd. now subst d.
  - apply in_or_app. right. now left.
Qed.

(** What [main] does on any table and any disk. *)
Lemma main_with_run (root : string) (table : list table_entry) (w : bpy) :
  runs (main_with root table) w
       (fun _ w' =>
          main_effect root
            (filter (is_present (files w) root) table)
            (map (warning_line root)
                 (filter (is_missing (files w) root) table))
            w w').
Proof.
  unfold main_with.
  eapply runs_bind; [apply mkdir_run|].
  cbv beta. intros _ w1 (F1 & W1 & S1 & D1).
  eapply runs_bind; [apply render_all_run|].
  cbv beta. intros _ w2 (F2 & D2 & (imgs & W2 & I2) & (body & S2 & N2)).
  eexists tt, _. split; [reflexivity|].
  unfold main_effect. simpl. rewrite F2, W2, S2, F1, W1, S1.
  split; [reflexivity|]. split; [exact (D2 _ D1)|]. split.
  - exists imgs. split; [reflexivity|]. now rewrite I2, F1.
  - exists body. split; [now rewrite <- !app_assoc|].
    rewrite filter_app, N2, F1. simpl. apply app_nil_r.
Qed.

Lemma filter_all {A} (f : A -> bool) (l : list A) :
  (forall x, In x l -> f x = true) -> filter f l = l.
Proof.
  induction l as [|a l IH]; intro H; simpl; trivial.
  rewrite (H a (or_introl eq_refl)), IH; trivial.
  intros x Hx. apply H. now right.
Qed.

Lemma filter_none {A} (f : A -> bool) (l : list A) :
  (forall x, In x l -> f x = false) -> filter f l = [].
Proof.
  induction l as [|a l IH]; intro H; simpl; trivial.
  rewrite (H a (or_introl eq_refl)), IH; trivial.
  intros x Hx. apply H. now right.
Qed.

(** C6: when exactly one entry of the model table has no input file, the
    batch driver returns normally, has rendered every other entry (in table
    order, at the entry's resolution), has printed the two completion lines,
    and exactly one line of its output is a warning: the one that names the
    missing file. *)
Theorem C6_missing_file_skipped (root : string)
  (before after : list table_entry) (missing : table_entry) (w : bpy) :
  files w (blend_path root missing) = None ->
  (forall e, In e (before ++ after) -> files w (blend_path root e) <> None) ->
  exists w' imgs body,
    main_with root (before ++ missing :: after) w = Ok (tt, w')
    /\ written w' = (written w ++ imgs)%list
    /\ map image_summary imgs = map (expected_image root) (before ++ after)
    /\ stdout w' = (stdout w ++ body ++ completion_lines root)%list
    /\ filter is_warning (body ++ completion_lines root)
       = [warning_line root missing].
Proof.
  intros Hmiss Hothers.
  destruct (main_with_run root (before ++ missing :: after) w)
    as ([] & w' & E & H).
  assert (P : forall e, In e (before ++ after) ->
                        is_present (files w) root e = true).
  { intros e He. unfold is_present. specialize (Hothers e He).
    now destruct (files w (blend_path root e)). }
  assert (Pm : is_present (files w) root missing = false).
  { unfold is_present. now rewrite Hmiss. }
  rewrite !filter_app in H. simpl filter in H.
  unfold is_missing at 2 in H. rewrite Pm in H. simpl negb in H. cbv iota in H.
  rewrite (filter_all _ before), (filter_all _ after) in H
    by (intros; apply P; apply in_or_app; auto).
  rewrite (filter_none _ before), (filter_none _ after) in H
    by (intros; unfold is_missing; rewrite P; trivial; apply in_or_app; auto).
  destruct H as (_ & _ & (imgs & W & I) & (body & S & N)).
  exists w', imgs, body. auto.
Qed.

(** ** Render resolution *)

Lemma BASE_HEIGHT_value :
  Zpos BASE_HEIGHT = py_int (inject_Z (512 * 52) / 60)
  /\ py_int (inject_Z (512 * 52) / 60) = 443%Z.
Proof. split; reflexivity. Qed.

(** C4: [render_model] renders the image of a model of w x h hexes at
    (512 * w) x (int(512 * 52 / 60) * h) pixels, the truncation being that of
    the per-hex height 443; a 2 x 1 model is rendered at 1024 x 443 and a
    1 x 1 model at 512 x 443. *)
Theorem C4_render_resolution (root blend_file output_name : string)
  (width_hexes height_hexes : positive) (objs : list (option object))
  (w : bpy) :
  files w blend_file = Some objs ->
  exists w' sc,
    render_model root blend_file output_name width_hexes height_hexes w
    = Ok (tt, w')
    /\ written w'
       = (written w
          ++ [(path_join (OUTPUT_DIR root) (output_name ++ ".png"), sc)])%list
    /\ Zpos (resolution_x (render sc)) = (512 * Zpos width_hexes)%Z
    /\ Zpos (resolution_y (render sc))
       = (py_int (inject_Z (512 * 52) / 60) * Zpos height_hexes)%Z
    /\ py_int (inject_Z (512 * 52) / 60) = 443%Z
    /\ (width_hexes = 2%positive -> height_hexes = 1%positive ->
        (resolution_x (render sc), resolution_y (render sc))
        = (1024, 443)%positive)
    /\ (width_hexes = 1%positive -> height_hexes = 1%positive ->
        (resolution_x (render sc), resolution_y (render sc))
        = (512, 443)%positive).
Proof.
  intro Hfile.
  destruct (render_model_run root blend_file output_name width_hexes
              height_hexes objs w Hfile)
    as ([] & w' & E & (_ & _ & (sc & W & RX & RY) & _)).
  exists w', sc. split; [exact E|]. split; [exact W|].
  rewrite RX, RY. destruct BASE_HEIGHT_value as [H1 H2].
  split; [reflexivity|]. split; [now rewrite Pos2Z.inj_mul, H1|].
  split; [exact H2|]. split; intros -> ->; reflexivity.
Qed.

Lemma C4_witness :
  exists w' sc,
    render_model "/repo" "/repo/3Dmodels/3dprint_barge.blend" "barge" 2 1
                 (host_with_disk
                    (disk_with ["/repo/3Dmodels/3dprint_barge.blend"]))
    = Ok (tt, w')
    /\ written w' = [("/repo/public/sprites/units/rendered/barge.png", sc)]
    /\ (resolution_x (render sc), resolution_y (render sc))
       = (1024, 443)%positive.
Proof.
  destruct (C4_render_resolution "/repo" "/repo/3Dmodels/3dprint_barge.blend"
              "barge" 2 1 sample_model
              (host_with_disk
                 (disk_with ["/repo/3Dmodels/3dprint_barge.blend"]))
              eq_refl)
    as (w' & sc & E & W & _ & _ & _ & R & _).
  exists w', sc. split; [exact E|]. split; [exact W|].
  exact (R eq_refl eq_refl).
Defined.

(** The table of [main] with the entry of the motorboat singled out. *)
Lemma UNIT_CONFIG_split :
  UNIT_CONFIG
  = (firstn 5 UNIT_CONFIG
     ++ ("3dPrint_vedette", ("motorboat", 1, 1))%positive
     :: skipn 6 UNIT_CONFIG)%list.
Proof. reflexivity. Qed.

Lemma C6_witness :
  exists w',
    main "/repo"
         (host_with_disk
            (disk_with (map (blend_path "/repo")
                            (firstn 5 UNIT_CONFIG ++ skipn 6 UNIT_CONFIG))))
    = Ok (tt, w')
    /\ filter is_warning (stdout w')
       = ["Warning: /repo/3Dmodels/3dPrint_vedette.blend not found"]
    /\ map image_summary (written w')
       = map (expected_image "/repo")
             (firstn 5 UNIT_CONFIG ++ skipn 6 UNIT_CONFIG).
Proof.
  destruct (C6_missing_file_skipped "/repo"
              (firstn 5 UNIT_CONFIG) (skipn 6 UNIT_CONFIG)
              ("3dPrint_vedette", ("motorboat", 1, 1))%positive
              (host_with_disk
                 (disk_with (map (blend_path "/repo")
                                 (firstn 5 UNIT_CONFIG
                                  ++ skipn 6 UNIT_CONFIG)))))
    as (w' & imgs & body & E & W & I & S & N).
  - reflexivity.
  - intros e He. simpl in He.
    repeat (destruct He as [<-|He]; [vm_compute; discriminate|]).
    contradiction.
  - exists w'. split; [exact E|]. split.
    + rewrite S. exact N.
    + rewrite W. exact I.
Defined.

(** ** Object filter: measures of the bounding box *)

Lemma fold_py_max2_spec (xs : list Q) : forall a,
  let m := fold_left py_max2 xs a in
  a <= m /\ (forall x, In x xs -> x <= m) /\ (m = a \/ In m xs).
Proof.
  induction xs as [|x xs IH]; intro a; simpl.
  - repeat split; auto; try lra. intros x [].
  - destruct (IH (py_max2 a x)) as (Hle & Hall & Hin).
    destruct (py_max2_cases a x) as (Hc & Ha & Hx).
    split; [lra|]. split.
    + intros y [<-|Hy]; [lra|auto].
    + destruct Hin as [->|Hin]; [|auto]. destruct Hc as [->| ->]; auto.
Qed.

Lemma fold_py_min2_spec (xs : list Q) : forall a,
  let m := fold_left py_min2 xs a in
  m <= a /\ (forall x, In x xs -> m <= x) /\ (m = a \/ In m xs).
Proof.
  induction xs as [|x xs IH]; intro a; simpl.
  - repeat split; auto; try lra. intros x [].
  - destruct (IH (py_min2 a x)) as (Hle & Hall & Hin).
    destruct (py_min2_cases a x) as (Hc & Ha & Hx).
    split; [lra|]. split.
    + intros y [<-|Hy]; [lra|auto].
    + destruct Hin as [->|Hin]; [|auto]. destruct Hc as [->| ->]; auto.
Qed.

(** [max(seq)] and [min(seq)] return the greatest and the least element. *)
Lemma py_max_spec (l : list Q) (m : Q) : py_max l = Ok m -> is_max l m.
Proof.
  destruct l as [|x xs]; simpl; [discriminate|]. intro H. injection H as <-.
  destruct (fold_py_max2_spec xs x) as (Hle & Hall & Hin). split.
  - intros y [<-|Hy]; auto.
  - eexists. split; [|reflexivity]. destruct Hin as [->|Hin]; simpl; auto.
Qed.

Lemma py_min_spec (l : list Q) (m : Q) : py_min l = Ok m -> is_min l m.
Proof.
  destruct l as [|x xs]; simpl; [discriminate|]. intro H. injection H as <-.
  destruct (fold_py_min2_spec xs x) as (Hle & Hall & Hin). split.
  - intros y [<-|Hy]; auto.
  - eexists. split; [|reflexivity]. destruct Hin as [->|Hin]; simpl; auto.
Qed.

Lemma z_height_extent (bbox : bound_box_t) (z : Q) :
  z_height bbox = Ok z -> extent_of vz bbox z.
Proof.
  unfold z_height.
  destruct (py_max (map vz (corners bbox))) as [hi|] eqn:Hhi; [|discriminate].
  destruct (py_min (map vz (corners bbox))) as [lo|] eqn:Hlo; [|discriminate].
  simpl. intro H. injection H as <-.
  exists hi, lo. auto using py_max_spec, py_min_spec.
Qed.

Lemma xy_size_extent (bbox : bound_box_t) (xy : Q) :
  xy_size bbox = Ok xy ->
  exists dx dy, extent_of vx bbox dx /\ extent_of vy bbox dy
                /\ xy = py_max2 dx dy.
Proof.
  unfold xy_size.
  destruct (py_max (map vx (corners bbox))) as [xhi|] eqn:H1; [|discriminate].
  destruct (py_min (map vx (corners bbox))) as [xlo|] eqn:H2; [|discriminate].
  destruct (py_max (map vy (corners bbox))) as [yhi|] eqn:H3; [|discriminate].
  destruct (py_min (map vy (corners bbox))) as [ylo|] eqn:H4; [|discriminate].
  simpl. intro H. injection H as <-.
  exists (xhi - xlo), (yhi - ylo). split; [|split; [|reflexivity]].
  - exists xhi, xlo. auto using py_max_spec, py_min_spec.
  - exists yhi, ylo. auto using py_max_spec, py_min_spec.
Qed.

Lemma extent_unique (f : vec3 -> Q) (bbox : bound_box_t) (d d' : Q) :
  extent_of f bbox d -> extent_of f bbox d' -> d == d'.
Proof.
  intros (hi & lo & Hhi & Hlo & ->) (hi' & lo' & Hhi' & Hlo' & ->).
  rewrite (is_max_unique _ _ _ Hhi Hhi'), (is_min_unique _ _ _ Hlo Hlo').
  reflexivity.
Qed.

Lemma extent_nonneg (f : vec3 -> Q) (bbox : bound_box_t) (d : Q) :
  extent_of f bbox d -> 0 <= d.
Proof.
  intros (hi & lo & [Hhi _] & [Hlo _] & ->).
  assert (Hin : In (f (c0 bbox)) (map f (corners bbox))) by (left; reflexivity).
  specialize (Hhi _ Hin). specialize (Hlo _ Hin). lra.
Qed.

(** The extent is at least the difference of any two corners. *)
Lemma extent_ge (f : vec3 -> Q) (bbox : bound_box_t) (d : Q) (p q : vec3) :
  extent_of f bbox d -> In p (corners bbox) -> In q (corners bbox) ->
  f p - f q <= d.
Proof.
  intros (hi & lo & [Hhi _] & [Hlo _] & ->) Hp Hq.
  specialize (Hhi _ (in_map f _ _ Hp)). specialize (Hlo _ (in_map f _ _ Hq)).
  lra.
Qed.

(** The extent is the difference of two corners. *)
Lemma extent_attained (f : vec3 -> Q) (bbox : bound_box_t) (d : Q) :
  extent_of f bbox d ->
  exists p q, In p (corners bbox) /\ In q (corners bbox) /\ d == f p - f q.
Proof.
  intros (hi & lo & [_ (x & Hx & Ex)] & [_ (y & Hy & Ey)] & ->).
  apply in_map_iff in Hx. destruct Hx as (p & <- & Hp).
  apply in_map_iff in Hy. destruct Hy as (q & <- & Hq).
  exists p, q. split; [exact Hp|]. split; [exact Hq|].
  rewrite Ex, Ey. reflexivity.
Qed.

Lemma map_affine (f : vec3 -> Q) (c : Q) (k : Q) (t : vec3)
  (bbox : bound_box_t) :
  (forall v, f (affine k t v) = k * f v + c) ->
  map f (corners (map_box (affine k t) bbox))
  = map (fun x => k * x + c) (map f (corners bbox)).
Proof. intro H. simpl. now rewrite !H. Qed.

Lemma is_max_affine (l : list Q) (m k c : Q) :
  0 < k -> is_max l m -> is_max (map (fun x => k * x + c) l) (k * m + c).
Proof.
  intros Hk [Hall (x & Hx & Ex)]. split.
  - intros y Hy. apply in_map_iff in Hy. destruct Hy as (x' & <- & Hx').
    specialize (Hall _ Hx'). nra.
  - exists (k * x + c).
    split; [exact (in_map (fun x => k * x + c) _ _ Hx)|]. now rewrite Ex.
Qed.

Lemma is_min_affine (l : list Q) (m k c : Q) :
  0 < k -> is_min l m -> is_min (map (fun x => k * x + c) l) (k * m + c).
Proof.
  intros Hk [Hall (x & Hx & Ex)]. split.
  - intros y Hy. apply in_map_iff in Hy. destruct Hy as (x' & <- & Hx').
    specialize (Hall _ Hx'). nra.
  - exists (k * x + c).
    split; [exact (in_map (fun x => k * x + c) _ _ Hx)|]. now rewrite Ex.
Qed.

Lemma extent_affine (f : vec3 -> Q) (c k : Q) (t : vec3)
  (bbox : bound_box_t) (d d' : Q) :
  (forall v, f (affine k t v) = k * f v + c) -> 0 < k ->
  extent_of f bbox d -> extent_of f (map_box (affine k t) bbox) d' ->
  d' == k * d.
Proof.
  intros Hf Hk (hi & lo & Hhi & Hlo & ->) (hi' & lo' & Hhi' & Hlo' & ->).
  rewrite (map_affine f c k t bbox Hf) in Hhi', Hlo'.
  rewrite (is_max_unique _ _ _ Hhi' (is_max_affine _ _ k c Hk Hhi)).
  rewrite (is_min_unique _ _ _ Hlo' (is_min_affine _ _ k c Hk Hlo)).
  ring.
Qed.

Lemma py_max2_scale (a b a' b' k : Q) :
  0 < k -> a' == k * a -> b' == k * b ->
  py_max2 a' b' == k * py_max2 a b.
Proof.
  intros Hk Ha Hb. unfold py_max2.
  destruct (Qltb a' b') eqn:E'; destruct (Qltb a b) eqn:E; trivial;
    [apply Qltb_lt in E'; apply Qltb_ge in E
    |apply Qltb_ge in E'; apply Qltb_lt in E];
    rewrite Ha, Hb in E'; apply Qle_antisym; nra.
Qed.

(** ** Object filter: the flatness rule *)

Lemma py_max2_larger (a b m : Q) : is_max [a; b] m -> py_max2 a b == m.
Proof.
  intros [Hall (x & Hx & Ex)].
  assert (Ha : a <= m) by (apply Hall; simpl; auto).
  assert (Hb : b <= m) by (apply Hall; simpl; auto).
  destruct (py_max2_cases a b) as (Hc & Ma & Mb).
  apply Qle_antisym.
  - destruct Hc as [-> | ->]; assumption.
  - rewrite <- Ex. destruct Hx as [<-|[<-|[]]]; assumption.
Qed.

(** The two measures the filter takes of a bounding box, in terms of the
    corners: the Z extent, and the larger of the X and Y extents. *)
Lemma filter_measures (bbox : bound_box_t) (dx dy dz xy : Q) :
  extent_of vx bbox dx -> extent_of vy bbox dy -> extent_of vz bbox dz ->
  is_max [dx; dy] xy ->
  exists z xy', z_height bbox = Ok z /\ xy_size bbox = Ok xy'
                /\ z == dz /\ xy' == xy.
Proof.
  intros Hx Hy Hz Hm.
  destruct (z_height_total bbox) as [z Ez].
  destruct (xy_size_total bbox) as [xy' Exy].
  exists z, xy'. split; [exact Ez|]. split; [exact Exy|]. split.
  - exact (extent_unique _ _ _ _ (z_height_extent _ _ Ez) Hz).
  - destruct (xy_size_extent _ _ Exy) as (dx' & dy' & Hx' & Hy' & ->).
    rewrite <- (py_max2_larger dx dy xy Hm).
    pose proof (extent_unique _ _ _ _ Hx' Hx) as Ex.
    pose proof (extent_unique _ _ _ _ Hy' Hy) as Ey.
    unfold py_max2.
    destruct (Qltb dx' dy') eqn:L'; destruct (Qltb dx dy) eqn:L; trivial;
      [apply Qltb_lt in L'; apply Qltb_ge in L
      |apply Qltb_ge in L'; apply Qltb_lt in L];
      apply Qle_antisym; lra.
Qed.

(** C2: for a mesh object whose name matches no exclusion substring and
    whose bounding box has a positive xy_size, xy_size being the larger of
    the X and Y extents of the eight corners and z_height their Z extent,
    the filter excludes the object exactly when z_height / xy_size < 0.05;
    height 0.01 with XY extent 1.0 is excluded, and height 1.0 with XY
    extent 1.0 is retained. *)
Theorem C2_flatness_rule (obj : object) (dx dy dz xy : Q) :
  type obj = "MESH" -> ~ name_matches obj ->
  extent_of vx (bound_box obj) dx -> extent_of vy (bound_box obj) dy ->
  extent_of vz (bound_box obj) dz ->
  is_max [dx; dy] xy -> 0 < xy ->
  (exists b, should_exclude_object obj = Ok b
             /\ (b = true <-> dz / xy < 0.05))
  /\ (dz == 0.01 -> xy == 1 -> should_exclude_object obj = Ok true)
  /\ (dz == 1 -> xy == 1 -> should_exclude_object obj = Ok false).
Proof.
  intros Hty Hname Hx Hy Hz Hm Hpos.
  destruct (filter_measures _ _ _ _ _ Hx Hy Hz Hm)
    as (z & xy' & Ez & Exy & Qz & Qxy).
  assert (Hpos' : 0 < xy') by (rewrite Qxy; exact Hpos).
  assert (R : z / xy' == dz / xy) by (rewrite Qz, Qxy; reflexivity).
  assert (E : should_exclude_object obj
              = if Qltb (z / xy') 0.05 then Ok true else Ok false).
  { rewrite (filter_unmatched_mesh obj z xy' Hty Hname Ez Exy).
    apply Qltb_lt in Hpos'. rewrite Hpos', py_div_ok; [reflexivity|].
    apply Qltb_lt in Hpos'. intro H. rewrite H in Hpos'.
    exact (Qlt_irrefl _ Hpos'). }
  repeat split.
  - destruct (Qltb (z / xy') 0.05) eqn:L.
    + exists true. split; [exact E|]. apply Qltb_lt in L.
      rewrite R in L. tauto.
    + exists false. split; [exact E|]. apply Qltb_ge in L. rewrite R in L.
      split; [discriminate|]. intro H. exfalso. exact (Qlt_not_le _ _ H L).
  - intros Edz Exy1. rewrite E.
    assert (L : Qltb (z / xy') 0.05 = true).
    { apply Qltb_lt. rewrite R, Edz, Exy1. reflexivity. }
    now rewrite L.
  - intros Edz Exy1. rewrite E.
    assert (L : Qltb (z / xy') 0.05 = false).
    { apply Qltb_ge. rewrite R, Edz, Exy1. discriminate. }
    now rewrite L.
Qed.

(** Extents and maxima of explicit lists of numbers. *)
Ltac list_bound m :=
  split;
  [ intros x Hin; simpl in Hin;
    repeat (destruct Hin as [<-|Hin]); try contradiction; lra
  | exists m; split; [vm_compute; tauto|reflexivity] ].

Lemma C2_witness :
  should_exclude_object
    (mesh_named 0 "Cube" (box_of (mkVec 0 0 0) (mkVec 1 1 0.01))) = Ok true
  /\ should_exclude_object
       (mesh_named 0 "Cube" (box_of (mkVec 0 0 0) (mkVec 1 1 1))) = Ok false.
Proof.
  assert (Hname : forall bb, ~ name_matches (mesh_named 0 "Cube" bb)).
  { intros bb H. apply pattern_loop_spec in H. vm_compute in H.
    discriminate H. }
  split.
  - refine (proj1 (proj2 (C2_flatness_rule
              (mesh_named 0 "Cube" (box_of (mkVec 0 0 0) (mkVec 1 1 0.01)))
              (1 - 0) (1 - 0) (0.01 - 0) 1 eq_refl (Hname _) _ _ _ _ _)) _ _).
    + exists 1, 0. split; [list_bound 1|]. split; [list_bound 0|reflexivity].
    + exists 1, 0. split; [list_bound 1|]. split; [list_bound 0|reflexivity].
    + exists 0.01, 0.
      split; [list_bound 0.01|]. split; [list_bound 0|reflexivity].
    + list_bound (1 - 0).
    + reflexivity.
    + reflexivity.
    + reflexivity.
  - refine (proj2 (proj2 (C2_flatness_rule
              (mesh_named 0 "Cube" (box_of (mkVec 0 0 0) (mkVec 1 1 1)))
              (1 - 0) (1 - 0) (1 - 0) 1 eq_refl (Hname _) _ _ _ _ _)) _ _).
    + exists 1, 0. split; [list_bound 1|]. split; [list_bound 0|reflexivity].
    + exists 1, 0. split; [list_bound 1|]. split; [list_bound 0|reflexivity].
    + exists 1, 0. split; [list_bound 1|]. split; [list_bound 0|reflexivity].
    + list_bound (1 - 0).
    + reflexivity.
    + reflexivity.
    + reflexivity.
Defined.

(** * Further properties *)

(** ** Object filter: decision table *)

Lemma flat_test (z xy : Q) :
  0 < xy -> (z / xy < 0.05 <-> 20 * z < xy).
Proof.
  intro H. assert (E : z == z / xy * xy) by (field; lra).
  split; intro L; nra.
Qed.

(** Excluded meshes are exactly those with a matching name or a flat
    bounding box; the filter never raises on a mesh. *)
Lemma filter_mesh_decision (obj : object) (z xy : Q) :
  type obj = "MESH" ->
  z_height (bound_box obj) = Ok z -> xy_size (bound_box obj) = Ok xy ->
  exists b, should_exclude_object obj = Ok b
            /\ (b = true <-> name_matches obj \/ is_flat z xy).
Proof.
  intros Hty Hz Hxy.
  destruct (existsb (fun pattern => str_in pattern (lower (name obj)))
                    EXCLUDE_PATTERNS) eqn:E.
  - exists true. split.
    + unfold should_exclude_object. rewrite Hty, String.eqb_refl. simpl negb.
      cbv iota. now rewrite E.
    + apply pattern_loop_spec in E. tauto.
  - assert (Hn : ~ name_matches obj).
    { intro H. apply pattern_loop_spec in H. congruence. }
    rewrite (filter_unmatched_mesh obj z xy Hty Hn Hz Hxy).
    unfold is_flat. destruct (Qltb 0 xy) eqn:P.
    + apply Qltb_lt in P. rewrite py_div_ok by (intro H; rewrite H in P; lra).
      simpl. destruct (Qltb (z / xy) 0.05) eqn:L.
      * apply Qltb_lt in L. apply flat_test in L; trivial.
        exists true. tauto.
      * apply Qltb_ge in L. exists false. split; trivial.
        split; [discriminate|]. intros [H|[_ H]]; [contradiction|].
        apply flat_test in H; trivial. lra.
    + apply Qltb_ge in P. exists false. split; trivial.
      split; [discriminate|]. intros [H|[H _]]; [contradiction|lra].
Qed.

(** X1: the filter never raises, whatever object it is given: the bounding
    box always has corners to take the maximum and minimum of, and the
    division is only evaluated for a non-zero divisor. *)
Theorem X1_filter_never_raises (obj : object) :
  exists b, should_exclude_object obj = Ok b.
Proof. apply should_exclude_object_total. Qed.

(** X2: decision table of the filter on meshes.  A mesh is excluded exactly
    when its lowercased name contains an exclusion pattern or its bounding
    box is flat, that is xy_size > 0 and 20 * z_height < xy_size; otherwise
    it is retained. *)
Theorem X2_filter_decision_table (obj : object) (z xy : Q) :
  type obj = "MESH" ->
  z_height (bound_box obj) = Ok z -> xy_size (bound_box obj) = Ok xy ->
  (should_exclude_object obj = Ok true
   <-> name_matches obj \/ (0 < xy /\ 20 * z < xy))
  /\ (should_exclude_object obj = Ok false
      <-> ~ name_matches obj /\ ~ (0 < xy /\ 20 * z < xy)).
Proof.
  intros Hty Hz Hxy.
  destruct (filter_mesh_decision obj z xy Hty Hz Hxy) as (b & E & Hb).
  unfold is_flat in Hb. rewrite E. destruct Hb as [Hb1 Hb2]. destruct b.
  - split.
    + split; [intros _; now apply Hb1|reflexivity].
    + split; [discriminate|]. intros [Hn Hf]. exfalso.
      destruct (Hb1 eq_refl); tauto.
  - split.
    + split; [discriminate|]. intro H. specialize (Hb2 H). discriminate.
    + split; [|reflexivity]. intros _.
      split; intro C; [specialize (Hb2 (or_introl C))
                      |specialize (Hb2 (or_intror C))]; discriminate.
Qed.

Lemma X2_witness :
  should_exclude_object
    (mesh_named 0 "Deck" (box_of (mkVec 0 0 0) (mkVec 4 2 0.1))) = Ok true
  /\ should_exclude_object
       (mesh_named 0 "Deck" (box_of (mkVec 0 0 0) (mkVec 4 2 0.2))) = Ok false.
Proof.
  split.
  - apply (proj1 (X2_filter_decision_table
                    (mesh_named 0 "Deck" (box_of (mkVec 0 0 0) (mkVec 4 2 0.1)))
                    0.1 4 eq_refl eq_refl eq_refl)).
    right. split; reflexivity.
  - apply (proj2 (X2_filter_decision_table
                    (mesh_named 0 "Deck" (box_of (mkVec 0 0 0) (mkVec 4 2 0.2)))
                    0.2 4 eq_refl eq_refl eq_refl)).
    split.
    + intro H. apply pattern_loop_spec in H. vm_compute in H. discriminate H.
    + intros [_ H]. vm_compute in H. discriminate H.
Defined.

(** X3: the verdict of the filter depends on the shape of the bounding box
    only: scaling the box uniformly by a positive factor and translating it
    does not change the result. *)
Theorem X3_filter_shape_invariant (obj : object) (k : Q) (t : vec3) :
  0 < k ->
  should_exclude_object
    (set_bound_box (map_box (affine k t) (bound_box obj)) obj)
  = should_exclude_object obj.
Proof.
  intro Hk.
  destruct (String.eqb_spec (type obj) "MESH") as [Hty|Hty].
  - destruct (z_height_total (bound_box obj)) as [z Hz].
    destruct (xy_size_total (bound_box obj)) as [xy Hxy].
    destruct (z_height_total (map_box (affine k t) (bound_box obj)))
      as [z' Hz'].
    destruct (xy_size_total (map_box (affine k t) (bound_box obj)))
      as [xy' Hxy'].
    destruct (filter_mesh_decision obj z xy Hty Hz Hxy) as (b & E & Hb).
    destruct (filter_mesh_decision
                (set_bound_box (map_box (affine k t) (bound_box obj)) obj)
                z' xy' Hty Hz' Hxy') as (b' & E' & Hb').
    rewrite E, E'. f_equal.
    assert (Ez : z' == k * z).
    { apply (extent_affine vz (vz t) k t (bound_box obj)); trivial;
        now apply z_height_extent. }
    assert (Exy : xy' == k * xy).
    { apply xy_size_extent in Hxy, Hxy'.
      destruct Hxy as (dx & dy & Hdx & Hdy & ->).
      destruct Hxy' as (dx' & dy' & Hdx' & Hdy' & ->).
      apply py_max2_scale; trivial.
      - now apply (extent_affine vx (vx t) k t (bound_box obj)).
      - now apply (extent_affine vy (vy t) k t (bound_box obj)). }
    assert (F : is_flat z' xy' <-> is_flat z xy).
    { unfold is_flat. rewrite Ez, Exy. split; intros [A B]; split; nra. }
    change (name_matches
              (set_bound_box (map_box (affine k t) (bound_box obj)) obj))
      with (name_matches obj) in Hb'.
    destruct b, b'; trivial.
    + destruct Hb as [Hb _]. destruct Hb' as [_ Hb'].
      apply Hb'. specialize (Hb eq_refl). tauto.
    + destruct Hb' as [Hb' _]. destruct Hb as [_ Hb].
      symmetry. apply Hb. specialize (Hb' eq_refl). tauto.
  - unfold should_exclude_object. simpl type.
    apply String.eqb_neq in Hty. now rewrite Hty.
Qed.

Lemma X3_witness :
  should_exclude_object
    (set_bound_box
       (map_box (affine 3 (mkVec 10 (-4) 2))
                (box_of (mkVec 0 0 0) (mkVec 4 2 0.1)))
       (mesh_named 0 "Deck" (box_of (mkVec 0 0 0) (mkVec 4 2 0.1))))
  = should_exclude_object
      (mesh_named 0 "Deck" (box_of (mkVec 0 0 0) (mkVec 4 2 0.1))).
Proof.
  apply (X3_filter_shape_invariant
           (mesh_named 0 "Deck" (box_of (mkVec 0 0 0) (mkVec 4 2 0.1)))
           3 (mkVec 10 (-4) 2)).
  reflexivity.
Defined.

(** X4: a mesh whose bounding-box corners all lie at the same height is
    excluded whatever its name, provided two of the corners differ in X or
    in Y. *)
Theorem X4_flat_mesh_excluded (obj : object) :
  type obj = "MESH" ->
  (forall p q, In p (corners (bound_box obj)) ->
               In q (corners (bound_box obj)) -> vz p == vz q) ->
  (exists p q, In p (corners (bound_box obj))
               /\ In q (corners (bound_box obj))
               /\ (vx p < vx q \/ vy p < vy q)) ->
  should_exclude_object obj = Ok true.
Proof.
  intros Hty Hflat (p & q & Hp & Hq & Hlt).
  destruct (z_height_total (bound_box obj)) as [z Hz].
  destruct (xy_size_total (bound_box obj)) as [xy Hxy].
  destruct (filter_mesh_decision obj z xy Hty Hz Hxy) as (b & E & Hb).
  rewrite E. f_equal. apply Hb. right.
  apply z_height_extent in Hz. apply xy_size_extent in Hxy.
  destruct Hxy as (dx & dy & Hdx & Hdy & ->).
  assert (Ez : z == 0).
  { destruct (extent_attained _ _ _ Hz) as (a & c & Ha & Hc & ->).
    rewrite (Hflat a c Ha Hc). ring. }
  pose proof (extent_ge vx _ _ q p Hdx Hq Hp) as Gx.
  pose proof (extent_ge vy _ _ q p Hdy Hq Hp) as Gy.
  destruct (py_max2_cases dx dy) as (_ & Mx & My).
  unfold is_flat. rewrite Ez. split; destruct Hlt; lra.
Qed.

Lemma X4_witness :
  should_exclude_object
    (mesh_named 0 "Wing" (box_of (mkVec 0 0 1) (mkVec 3 1 1))) = Ok true.
Proof.
  apply X4_flat_mesh_excluded.
  - reflexivity.
  - intros p q Hp Hq. simpl in Hp, Hq.
    repeat (destruct Hp as [<-|Hp]; [|]);
      repeat (destruct Hq as [<-|Hq]; [|]);
      try contradiction; reflexivity.
  - exists (mkVec 0 0 1), (mkVec 3 1 1). simpl.
    split; [tauto|]. split; [tauto|]. left. reflexivity.
Defined.

(** ** Auto-framing: further properties *)

(** The result of [fit_camera_to_objects] from the accumulated bounds. *)
Lemma fit_camera_bounds (camera : nat) (padding : Q) (w : bpy)
  (x0 x1 y0 y1 : Q) :
  filter is_mesh (objects (scene w)) <> [] ->
  scene_bounds (filter is_mesh (objects (scene w)))
  = mkBounds (Fin x0) (Fin x1) (Fin y0) (Fin y1) ->
  fit_camera_to_objects camera padding w
  = Ok (tt, framed camera
              (chosen_scale (x1 - x0) (y1 - y0) (aspect_of w) padding)
              ((x0 + x1) / 2) ((y0 + y1) / 2) w).
Proof.
  intros Hne Hb.
  unfold fit_camera_to_objects, bind at 1, scene_objects.
  destruct (filter is_mesh (objects (scene w))) as [|m ms] eqn:Em;
    [congruence|].
  rewrite Hb. unfold bind at 1, scene_render.
  unfold bind at 1, lift at 1.
  rewrite (py_div_ok _ _ (inject_pos_nonzero _)). fold (aspect_of w).
  unfold bind at 1, lift at 1.
  assert (Ha : ~ aspect_of w == 0).
  { pose proof (aspect_pos w) as P. intro E. rewrite E in P.
    exact (Qlt_irrefl _ P). }
  rewrite (py_div_ok _ _ Ha).
  unfold framed, chosen_scale.
  rewrite <- (update_obj_compose camera
                (fun o => set_location_x ((x0 + x1) / 2) (set_ortho_scale _ o))
                (set_location_y ((y0 + y1) / 2))) by reflexivity.
  rewrite <- (update_obj_compose camera (set_ortho_scale _)
                (set_location_x ((x0 + x1) / 2))) by reflexivity.
  destruct (Qltb (y1 - y0) ((x1 - x0) / aspect_of w)); reflexivity.
Qed.

Lemma filter_update_obj (i : nat) (f : object -> object) (l : list object) :
  (forall o, type (f o) = type o) ->
  filter is_mesh (update_obj i f l) = update_obj i f (filter is_mesh l).
Proof.
  intro Hf. induction l as [|o l IH]; simpl; trivial.
  assert (E : is_mesh (if Nat.eqb (oid o) i then f o else o) = is_mesh o).
  { unfold is_mesh. destruct (Nat.eqb (oid o) i); [now rewrite Hf|trivial]. }
  rewrite E. destruct (is_mesh o); simpl; now rewrite IH.
Qed.

Lemma scene_bounds_update_obj (i : nat) (f : object -> object)
  (l : list object) :
  (forall o, matrix_world (f o) = matrix_world o) ->
  (forall o, bound_box (f o) = bound_box o) ->
  scene_bounds (update_obj i f l) = scene_bounds l.
Proof.
  intros Hm Hb. unfold scene_bounds.
  generalize (mkBounds PInf NInf PInf NInf).
  induction l as [|o l IH]; intro b; simpl; trivial.
  rewrite IH. f_equal. unfold add_object.
  destruct (Nat.eqb (oid o) i); [now rewrite Hm, Hb|trivial].
Qed.

Lemma framed_framed (camera : nat) (s cx cy : Q) (w : bpy) :
  framed camera s cx cy (framed camera s cx cy w) = framed camera s cx cy w.
Proof.
  unfold framed. simpl. rewrite update_obj_compose by reflexivity.
  reflexivity.
Qed.

(** X6: [fit_camera_to_objects] is idempotent: framing an already framed
    scene leaves the host state as it is. *)
Theorem X6_fit_camera_idempotent (camera : nat) (padding : Q) (w w' : bpy) :
  fit_camera_to_objects camera padding w = Ok (tt, w') ->
  fit_camera_to_objects camera padding w' = Ok (tt, w').
Proof.
  intro H.
  destruct (filter is_mesh (objects (scene w))) as [|m ms] eqn:E.
  - assert (Hw : fit_camera_to_objects camera padding w = Ok (tt, w)).
    { unfold fit_camera_to_objects, bind, scene_objects. now rewrite E. }
    rewrite Hw in H. injection H as <-. exact Hw.
  - assert (Hne : filter is_mesh (objects (scene w)) <> [])
      by (rewrite E; discriminate).
    destruct (bounds_finite _ Hne) as (x0 & x1 & y0 & y1 & Hb & _).
    rewrite (fit_camera_bounds camera padding w x0 x1 y0 y1 Hne Hb) in H.
    injection H as <-.
    set (s := chosen_scale (x1 - x0) (y1 - y0) (aspect_of w) padding).
    set (cx := (x0 + x1) / 2). set (cy := (y0 + y1) / 2).
    assert (Ef : filter is_mesh (objects (scene (framed camera s cx cy w)))
                 = update_obj camera
                     (fun o => set_location_y cy
                                 (set_location_x cx (set_ortho_scale s o)))
                     (filter is_mesh (objects (scene w)))).
    { unfold framed. simpl. now apply filter_update_obj. }
    rewrite (fit_camera_bounds camera padding (framed camera s cx cy w)
               x0 x1 y0 y1).
    + change (aspect_of (framed camera s cx cy w)) with (aspect_of w).
      fold s cx cy. now rewrite framed_framed.
    + rewrite Ef, E. discriminate.
    + rewrite Ef. now rewrite scene_bounds_update_obj.
Qed.

Lemma X6_witness :
  exists w',
    fit_camera_to_objects 2 default_padding two_box_host = Ok (tt, w')
    /\ fit_camera_to_objects 2 default_padding w' = Ok (tt, w').
Proof.
  destruct (fit_camera_to_objects 2 default_padding two_box_host)
    as [[[] w']|e] eqn:E.
  - exists w'. split; [reflexivity|].
    exact (X6_fit_camera_idempotent 2 default_padding two_box_host w' E).
  - vm_compute in E. discriminate E.
Defined.

(** With a padding of at least 1 the chosen scale covers the width and,
    divided by the aspect ratio, the height. *)
Lemma chosen_scale_covers (W H a p : Q) :
  0 < a -> 1 <= p -> 0 <= W -> 0 <= H ->
  W <= chosen_scale W H a p /\ H <= chosen_scale W H a p / a.
Proof.
  intros Ha Hp HW HH. assert (E : W == W / a * a) by (field; lra).
  assert (G : H * a <= chosen_scale W H a p -> H <= chosen_scale W H a p / a).
  { intro L. apply Qle_shift_div_l; trivial. }
  unfold chosen_scale in *. destruct (Qltb H (W / a)) eqn:L.
  - cbv iota in G |- *. apply Qltb_lt in L.
    assert (A : H * a <= W) by nra. assert (B : W <= W * p) by nra.
    split; [exact B|]. apply G. lra.
  - cbv iota in G |- *. apply Qltb_ge in L.
    assert (A : W <= H * a) by nra.
    assert (B : H * a <= H * a * p) by nra.
    split; [lra|]. apply G. exact B.
Qed.

Lemma bounding_rect_inside (pts : list vec3) (x0 x1 y0 y1 : Q) (p : vec3) :
  bounding_rect pts x0 x1 y0 y1 -> In p pts ->
  x0 <= vx p <= x1 /\ y0 <= vy p <= y1.
Proof.
  intros ([A _] & [B _] & [C _] & [D _]) Hp.
  pose proof (in_map vx _ _ Hp) as Hx. pose proof (in_map vy _ _ Hp) as Hy.
  auto.
Qed.

(** The meshes of the scene and their world-space corners are the same
    before and after an update that leaves type, bounding box and world
    matrix alone. *)
Lemma mesh_corners_update_obj (i : nat) (f : object -> object)
  (l : list object) (o : object) (p : vec3) :
  (forall x, type (f x) = type x) ->
  (forall x, bound_box (f x) = bound_box x) ->
  (forall x, matrix_world (f x) = matrix_world x) ->
  In o (update_obj i f l) -> type o = "MESH" -> In p (world_corners o) ->
  In p (scene_points (filter is_mesh l)).
Proof.
  intros Ht Hb Hm Ho Hty Hp. unfold update_obj in Ho.
  apply in_map_iff in Ho. destruct Ho as (x & Ex & Hx).
  unfold scene_points. apply in_flat_map. exists x.
  assert (T : type x = "MESH" /\ world_corners x = world_corners o).
  { destruct (Nat.eqb (oid x) i); subst o; [|auto].
    unfold world_corners. rewrite Ht in Hty. now rewrite Hb, Hm. }
  destruct T as [T C]. split.
  - apply filter_In. split; [exact Hx|]. unfold is_mesh. now rewrite T.
  - now rewrite C.
Qed.

(** X7: with a padding of at least 1, the camera that
    [fit_camera_to_objects] is given frames every mesh: after the call,
    the rectangle of width ortho_scale and height ortho_scale / aspect
    centred at the camera's X/Y location, all three read from the camera
    object of the scene, contains every world-space bounding-box corner of
    every mesh object of the scene. *)
Theorem X7_fit_camera_contains_meshes (camera : nat) (padding : Q) (w : bpy) :
  has_mesh w -> camera_handle camera w -> 1 <= padding ->
  exists w',
    fit_camera_to_objects camera padding w = Ok (tt, w')
    /\ camera_update camera
         (fun c =>
            forall o p,
              In o (objects (scene w')) -> type o = "MESH" ->
              In p (world_corners o) -> in_view (aspect_of w') c p)
         (objects (scene w)) (objects (scene w')).
Proof.
  intros Hm _ Hp. apply has_mesh_filter in Hm.
  destruct (fit_camera_run camera padding w Hm)
    as (x0 & x1 & y0 & y1 & Hrect & Hrun).
  eexists. split; [exact Hrun|].
  unfold framed. cbn [scene objects set_scene set_objects].
  apply camera_update_framed; [reflexivity|].
  intros c o p Ho Hty Hin.
  assert (Hpts : In p (scene_points (filter is_mesh (objects (scene w))))).
  { apply (mesh_corners_update_obj _ _ _ o p) in Ho; auto. }
  destruct (bounding_rect_inside _ _ _ _ _ _ Hrect Hpts) as [[X0 X1] [Y0 Y1]].
  destruct (chosen_scale_covers (x1 - x0) (y1 - y0) (aspect_of w) padding
              (aspect_pos w) Hp) as [SW SH]; try lra.
  unfold in_view. cbn [ortho_scale location set_location_y set_location_x
                       set_location set_ortho_scale vx vy].
  change (aspect_of (set_scene _ w)) with (aspect_of w).
  set (s := chosen_scale (x1 - x0) (y1 - y0) (aspect_of w) padding) in *.
  set (sa := s / aspect_of w) in *.
  unfold Qdiv. change (/ 2) with (1 # 2). repeat split; lra.
Qed.

Lemma X7_witness :
  exists w' c,
    fit_camera_to_objects 2 default_padding two_box_host = Ok (tt, w')
    /\ In c (objects (scene w')) /\ oid c = 2%nat
    /\ in_view (aspect_of w') c (mkVec 5 5 3).
Proof.
  assert (Hm : has_mesh two_box_host).
  { eexists. split; [left; reflexivity|reflexivity]. }
  assert (Hp : 1 <= default_padding) by discriminate.
  assert (Hh : camera_handle 2 two_box_host).
  { intros o Hin Ho. simpl in Hin.
    destruct Hin as [<-|[<-|[<-|[]]]]; try discriminate Ho; reflexivity. }
  destruct (X7_fit_camera_contains_meshes 2 default_padding two_box_host
              Hm Hh Hp) as (w' & Hrun & Hcam).
  destruct (camera_update_In 2 _ _ _ (sample_camera 2) Hcam)
    as (c & Hc & Hi & Hall); [simpl; tauto|reflexivity|].
  exists w', c. split; [exact Hrun|]. split; [exact Hc|]. split; [exact Hi|].
  assert (Ht : In (mkObject 1 "Turret" "MESH"
                     (box_of (mkVec (-1) (-1) 0) (mkVec 1 1 1))
                     (translation (mkVec 4 4 2)) (mkVec 4 4 2) (mkVec 0 0 0)
                     "" 0 0 true)
                  (objects (scene w'))).
  { apply (camera_update_other 2 _ _ _ _ Hcam); [simpl; tauto|].
    simpl. discriminate. }
  refine (Hall _ (mat_vec (translation (mkVec 4 4 2)) (mkVec 1 1 1)) Ht _ _).
  - reflexivity.
  - unfold world_corners. simpl. tauto.
Defined.

(** ** Batch driver: further properties *)

Lemma filter_partition_length {A} (f : A -> bool) (l : list A) :
  (List.length (filter f l) + List.length (filter (fun x => negb (f x)) l)
   = List.length l)%nat.
Proof.
  induction l as [|a l IH]; simpl; trivial.
  destruct (f a); simpl; lia.
Qed.

(** X8: for a script below an absolute directory and a model table whose
    names are plain path components and whose resolutions are in the
    host's range, on a disk whose model files all load, [main] returns
    normally and accounts for every entry exactly
    once: the entries whose input file exists are rendered, in table order,
    each to its own path and at its own resolution, and the warnings
    printed are exactly one line per entry whose file is missing, in table
    order.  The input files are left as they are and the script has made
    sure that the output directory exists. *)
Theorem X8_main_accounts_for_every_entry (root : string)
  (table : list table_entry) (w : bpy) :
  absolute_path root -> Forall plain_entry table ->
  exists w' imgs body,
    main_with root table w = Ok (tt, w')
    /\ files w' = files w
    /\ In (OUTPUT_DIR root) (directories w')
    /\ written w' = (written w ++ imgs)%list
    /\ map image_summary imgs
       = map (expected_image root) (filter (is_present (files w) root) table)
    /\ stdout w' = (stdout w ++ body ++ completion_lines root)%list
    /\ filter is_warning (body ++ completion_lines root)
       = map (warning_line root) (filter (is_missing (files w) root) table)
    /\ (List.length imgs
        + List.length (filter is_warning (body ++ completion_lines root))
        = List.length table)%nat.
Proof.
  intros _ _.
  destruct (main_with_run root table w)
    as ([] & w' & E & (F & D & (imgs & W & I) & (body & S & N))).
  exists w', imgs, body. repeat (split; [assumption|]).
  rewrite N, length_map.
  rewrite <- (length_map image_summary), I, length_map.
  apply filter_partition_length.
Qed.

(** Plain names and resolutions in range, for an explicit table. *)
Ltac plain_table :=
  repeat (constructor;
          [split; [reflexivity|]; split; [reflexivity|];
           split; vm_compute; discriminate|]);
  constructor.

Lemma X8_witness :
  exists w',
    main "/repo"
         (host_with_disk
            (disk_with (map (blend_path "/repo")
                            (firstn 3 UNIT_CONFIG ++ skipn 6 UNIT_CONFIG))))
    = Ok (tt, w')
    /\ map fst (written w')
       = map (output_path "/repo")
             (firstn 3 UNIT_CONFIG ++ skipn 6 UNIT_CONFIG)
    /\ filter is_warning (stdout w')
       = map (warning_line "/repo") (firstn 3 (skipn 3 UNIT_CONFIG)).
Proof.
  destruct (X8_main_accounts_for_every_entry "/repo" UNIT_CONFIG
              (host_with_disk
                 (disk_with (map (blend_path "/repo")
                                 (firstn 3 UNIT_CONFIG
                                  ++ skipn 6 UNIT_CONFIG))))
              ltac:(exists ["repo"]; repeat split; discriminate)
              ltac:(unfold UNIT_CONFIG; plain_table))
    as (w' & imgs & body & E & _ & _ & W & I & S & N & _).
  exists w'. split; [exact E|]. split.
  - rewrite W. simpl app. apply (f_equal (map fst)) in I.
    rewrite !map_map in I. simpl in I. exact I.
  - rewrite S. exact N.
Defined.

(** ** Output paths *)

Lemma append_cancel_l (a x y : string) : a ++ x = a ++ y -> x = y.
Proof.
  induction a as [|c a IH]; simpl; intro H; [exact H|].
  injection H as H. auto.
Qed.

Lemma list_ascii_of_string_append (a b : string) :
  list_ascii_of_string (a ++ b)
  = (list_ascii_of_string a ++ list_ascii_of_string b)%list.
Proof. induction a as [|c a IH]; simpl; [|rewrite IH]; reflexivity. Qed.

Lemma append_cancel_r (s x y : string) : x ++ s = y ++ s -> x = y.
Proof.
  intro H. apply (f_equal list_ascii_of_string) in H.
  rewrite !list_ascii_of_string_append in H. apply app_inv_tail in H.
  apply (f_equal string_of_list_ascii) in H.
  now rewrite !string_of_list_ascii_of_string in H.
Qed.

Lemma lower_append (a b : string) : lower (a ++ b) = lower a ++ lower b.
Proof. induction a as [|c a IH]; simpl; [|rewrite IH]; reflexivity. Qed.

(** Output files that agree up to letter case belong to display names that
    agree up to letter case. *)
Lemma output_path_inj (root : string) (e1 e2 : table_entry) :
  lower (output_path root e1) = lower (output_path root e2) ->
  lower (fst (fst (snd e1))) = lower (fst (fst (snd e2))).
Proof.
  unfold output_path, path_join. rewrite !lower_append. intro H.
  apply append_cancel_l in H. apply append_cancel_l in H.
  now apply append_cancel_r in H.
Qed.

Lemma distinct_keys_kept {E K : Type} (keep : E -> bool) (key : E -> K)
  (entries : list E) :
  NoDup (map key entries) -> NoDup (map key (filter keep entries)).
Proof.
  intro D. induction entries as [|e rest IH]; simpl; [constructor|].
  simpl in D. apply NoDup_cons_iff in D. destruct D as [Fresh D].
  destruct (keep e); simpl; [|now apply IH].
  constructor; [|now apply IH].
  intro Hin. apply Fresh. apply in_map_iff in Hin.
  destruct Hin as (x & Hx & Hin). apply filter_In in Hin.
  apply in_map_iff. exists x. tauto.
Qed.

Lemma NoDup_output_paths (root : string) (l : list table_entry) :
  NoDup (map (fun e => lower (fst (fst (snd e)))) l) ->
  NoDup (map (fun e => lower (output_path root e)) l).
Proof.
  induction l as [|a l IH]; simpl; intro H; [constructor|].
  inversion H as [|? ? Hn Hd]; subst. constructor; auto.
  intro Hin. apply Hn. apply in_map_iff in Hin.
  destruct Hin as (x & Hx & Hin). apply output_path_inj in Hx.
  apply in_map_iff. exists x. auto.
Qed.

(** Paths that differ even when letter case is ignored differ. *)
Lemma NoDup_lower (l : list string) : NoDup (map lower l) -> NoDup l.
Proof.
  induction l as [|a l IH]; simpl; intro H; [constructor|].
  inversion H as [|? ? Hn Hd]; subst. constructor; auto.
  intro Hin. apply Hn. now apply in_map.
Qed.

(** X9: for a script below an absolute directory, when the display names
    of the table are plain path components and pairwise distinct even when
    the case of letters is ignored, the images
    written by one run of [main] have pairwise distinct paths, and the
    paths stay distinct when the case of letters is ignored: no sprite
    overwrites another, on a case-insensitive file system either. *)
Theorem X9_distinct_names_distinct_files (root : string)
  (table : list table_entry) (w : bpy) :
  absolute_path root -> Forall plain_entry table ->
  NoDup (map (fun e => lower (fst (fst (snd e)))) table) ->
  exists w' imgs,
    main_with root table w = Ok (tt, w')
    /\ written w' = (written w ++ imgs)%list
    /\ NoDup (map lower (map fst imgs))
    /\ NoDup (map fst imgs).
Proof.
  intros _ _ Hnd.
  destruct (main_with_run root table w)
    as ([] & w' & E & (_ & _ & (imgs & W & I) & _)).
  exists w', imgs. split; [exact E|]. split; [exact W|].
  assert (P : map fst imgs
              = map (output_path root)
                    (filter (is_present (files w) root) table)).
  { apply (f_equal (map fst)) in I. rewrite !map_map in I. exact I. }
  assert (G : NoDup (map lower (map fst imgs))).
  { rewrite P, map_map. apply NoDup_output_paths.
    now apply distinct_keys_kept. }
  split; [exact G|]. now apply NoDup_lower.
Qed.

Lemma X9_witness :
  exists w' imgs,
    main "/repo"
         (host_with_disk (disk_with (map (blend_path "/repo") UNIT_CONFIG)))
    = Ok (tt, w')
    /\ written w' = imgs /\ NoDup (map lower (map fst imgs))
    /\ NoDup (map fst imgs).
Proof.
  refine (X9_distinct_names_distinct_files "/repo" UNIT_CONFIG
            (host_with_disk (disk_with (map (blend_path "/repo") UNIT_CONFIG)))
            ltac:(exists ["repo"]; repeat split; discriminate)
            ltac:(unfold UNIT_CONFIG; plain_table) _).
  simpl.
  repeat (constructor;
          [simpl; intro H;
           repeat (destruct H as [H|H]; [discriminate H|]); exact H|]).
  constructor.
Defined.

(** ** Per-model driver: the rendered scene in closed form *)

Lemma stamp_loaded (l : list (option object)) : forall n,
  loaded (fst (stamp n l)) = renumber n (loaded l)
  /\ snd (stamp n l) = (n + List.length (loaded l))%nat.
Proof.
  induction l as [|[o|] l IH]; intro n; simpl.
  - split; [reflexivity|lia].
  - destruct (IH (S n)) as [H1 H2]. destruct (stamp (S n) l) as [l' n'].
    simpl in *. rewrite H1, H2. split; [reflexivity|lia].
  - destruct (IH n) as [H1 H2]. destruct (stamp n l) as [l' n'].
    simpl in *. now rewrite H1, H2.
Qed.

Lemma renumber_oids (l : list object) : forall n,
  map oid (renumber n l) = seq n (List.length l).
Proof. induction l as [|o l IH]; intro n; simpl; [|rewrite IH]; reflexivity. Qed.

Lemma renumber_fresh (l : list object) (n : nat) :
  Forall (fun o => (oid o < n + List.length l)%nat) (renumber n l).
Proof.
  apply Forall_forall. intros o Ho.
  apply (in_map oid) in Ho. rewrite renumber_oids in Ho.
  apply in_seq in Ho. lia.
Qed.

(** Renumbering is invisible to whatever does not look at identities. *)
Lemma renumber_filter_map {B} (p : object -> bool) (g : object -> B)
  (l : list object) :
  (forall i o, p (set_oid i o) = p o) ->
  (forall i o, g (set_oid i o) = g o) ->
  forall n, map g (filter p (renumber n l)) = map g (filter p l).
Proof.
  intros Hp Hg. induction l as [|o l IH]; intro n; simpl; trivial.
  rewrite Hp. destruct (p o); simpl; [rewrite Hg|]; now rewrite IH.
Qed.

Lemma is_excluded_set_oid (i : nat) (o : object) :
  is_excluded (set_oid i o) = is_excluded o.
Proof. reflexivity. Qed.

Lemma NoDup_map_inj_in {A B} (f : A -> B) (l : list A) (x y : A) :
  NoDup (map f l) -> In x l -> In y l -> f x = f y -> x = y.
Proof.
  induction l as [|a l IH]; simpl; intros Hnd Hx Hy E; [contradiction|].
  inversion Hnd as [|? ? Hn Hd]; subst.
  destruct Hx as [<-|Hx], Hy as [<-|Hy]; trivial.
  - exfalso. apply Hn. rewrite E. now apply in_map.
  - exfalso. apply Hn. rewrite <- E. now apply in_map.
  - auto.
Qed.

(** Removing by identity the objects the filter rejected leaves the objects
    it retained, when identities are distinct. *)
Lemma remove_excluded_retained (l : list object) :
  NoDup (map oid l) ->
  filter (fun o => negb (existsb (Nat.eqb (oid o))
                                 (map oid (filter is_excluded l)))) l
  = retained l.
Proof.
  intro Hnd. unfold retained. apply filter_ext_in. intros o Ho. f_equal.
  destruct (is_excluded o) eqn:E.
  - apply existsb_exists. exists (oid o). split; [|apply Nat.eqb_refl].
    apply in_map. apply filter_In. auto.
  - destruct (existsb _ _) eqn:X; trivial.
    apply existsb_exists in X. destruct X as (i & Hi & Ei).
    apply Nat.eqb_eq in Ei. subst i. apply in_map_iff in Hi.
    destruct Hi as (x & Ex & Hx). apply filter_In in Hx.
    destruct Hx as [Hx Hex].
    rewrite (NoDup_map_inj_in oid l x o Hnd Hx Ho Ex) in Hex. congruence.
Qed.

Lemma update_obj_fresh (i : nat) (f : object -> object) (l : list object) :
  Forall (fun o => (oid o < i)%nat) l -> update_obj i f l = l.
Proof.
  intro H. unfold update_obj. rewrite <- (map_id l) at 2.
  apply map_ext_in. intros o Ho. rewrite Forall_forall in H.
  specialize (H o Ho). destruct (Nat.eqb_spec (oid o) i); [lia|reflexivity].
Qed.

Lemma update_obj_snoc (i : nat) (f : object -> object) (l : list object)
  (o : object) :
  Forall (fun o => (oid o < i)%nat) l -> oid o = i ->
  update_obj i f (l ++ [o]) = (l ++ [f o])%list.
Proof.
  intros H E. unfold update_obj at 1. rewrite map_app.
  fold (update_obj i f l). rewrite (update_obj_fresh i f l H). simpl.
  now rewrite E, Nat.eqb_refl.
Qed.

Lemma modify_scene_x (f : scene_t -> scene_t) (l : list string)
  (w0 w : bpy) :
  logged l w0 w ->
  runs (modify_scene f) w
       (fun _ w' => logged l w0 w' /\ scene w' = f (scene w)
                    /\ next_id w' = next_id w).
Proof.
  intro L. exists tt, (set_scene (f (scene w)) w).
  split; [reflexivity|]. split; [exact L|]. split; reflexivity.
Qed.

Lemma object_add_x (nm ty dty : string) (loc : vec3) (sc en : Q)
  (l : list string) (w0 w : bpy) :
  logged l w0 w ->
  runs (object_add nm ty dty loc sc en) w
       (fun _ w' =>
          logged l w0 w'
          /\ scene w'
             = set_objects
                 (objects (scene w)
                  ++ [mkObject (next_id w) nm ty default_box (translation loc)
                               loc (mkVec 0 0 0) dty sc en true])
                 (scene w)
          /\ next_id w' = S (next_id w)
          /\ active_object w' = Some (next_id w)).
Proof.
  intro L. eexists tt, _. split; [reflexivity|].
  split; [exact L|]. repeat split.
Qed.

Lemma active_x (i : nat) (w : bpy) :
  active_object w = Some i ->
  runs context_active_object w (fun a w' => a = i /\ w' = w).
Proof.
  intro A. exists i, w. unfold context_active_object. rewrite A. auto.
Qed.

(** A new object followed by three assignments through the active-object
    handle: the new object is the only one that changes. *)
Lemma add_and_set {B} (nm ty dty : string) (loc : vec3) (sc en : Q)
  (f1 f2 f3 : object -> object) (k : nat -> M B) (Q' : B -> bpy -> Prop)
  (l : list string) (w0 w : bpy) :
  logged l w0 w ->
  Forall (fun o => (oid o < next_id w)%nat) (objects (scene w)) ->
  (forall o, oid (f1 o) = oid o) -> (forall o, oid (f2 o) = oid o) ->
  (forall w',
     logged l w0 w' ->
     scene w'
     = set_objects
         (objects (scene w)
          ++ [f3 (f2 (f1 (mkObject (next_id w) nm ty default_box
                                   (translation loc) loc (mkVec 0 0 0)
                                   dty sc en true)))])
         (scene w) ->
     next_id w' = S (next_id w) ->
     runs (k (next_id w)) w' Q') ->
  runs (object_add nm ty dty loc sc en ;;
        x <- context_active_object ;;
        modify_obj x f1 ;; modify_obj x f2 ;; modify_obj x f3 ;; k x) w Q'.
Proof.
  intros L Hf H1 H2 Hk. unfold modify_obj.
  eapply runs_bind; [apply object_add_x; exact L|].
  cbv beta. intros _ w1 (L1 & S1 & N1 & A1).
  eapply runs_bind; [apply (active_x _ _ A1)|].
  cbv beta. intros x w1' [-> ->].
  eapply runs_bind; [apply modify_scene_x; exact L1|].
  cbv beta. intros _ w2 (L2 & S2 & N2).
  rewrite S1 in S2. simpl in S2.
  rewrite update_obj_snoc in S2 by (trivial; reflexivity).
  eapply runs_bind; [apply modify_scene_x; exact L2|].
  cbv beta. intros _ w3 (L3 & S3 & N3).
  rewrite S2 in S3. simpl in S3.
  rewrite update_obj_snoc in S3 by (trivial; rewrite H1; reflexivity).
  eapply runs_bind; [apply modify_scene_x; exact L3|].
  cbv beta. intros _ w4 (L4 & S4 & N4).
  rewrite S3 in S4. simpl in S4.
  rewrite update_obj_snoc in S4 by (trivial; rewrite H2, H1; reflexivity).
  apply Hk; [exact L4|exact S4|congruence].
Qed.

(** The same when the third assignment is the last statement. *)
Lemma add_and_set_end (nm ty dty : string) (loc : vec3) (sc en : Q)
  (f1 f2 f3 : object -> object) (l : list string) (w0 w : bpy) :
  logged l w0 w ->
  Forall (fun o => (oid o < next_id w)%nat) (objects (scene w)) ->
  (forall o, oid (f1 o) = oid o) -> (forall o, oid (f2 o) = oid o) ->
  runs (object_add nm ty dty loc sc en ;;
        x <- context_active_object ;;
        modify_obj x f1 ;; modify_obj x f2 ;; modify_obj x f3) w
       (fun _ w' =>
          logged l w0 w'
          /\ scene w'
             = set_objects
                 (objects (scene w)
                  ++ [f3 (f2 (f1 (mkObject (next_id w) nm ty default_box
                                           (translation loc) loc
                                           (mkVec 0 0 0) dty sc en true)))])
                 (scene w)
          /\ next_id w' = S (next_id w)).
Proof.
  intros L Hf H1 H2. unfold modify_obj.
  eapply runs_bind; [apply object_add_x; exact L|].
  cbv beta. intros _ w1 (L1 & S1 & N1 & A1).
  eapply runs_bind; [apply (active_x _ _ A1)|].
  cbv beta. intros x w1' [-> ->].
  eapply runs_bind; [apply modify_scene_x; exact L1|].
  cbv beta. intros _ w2 (L2 & S2 & N2).
  rewrite S1 in S2. simpl in S2.
  rewrite update_obj_snoc in S2 by (trivial; reflexivity).
  eapply runs_bind; [apply modify_scene_x; exact L2|].
  cbv beta. intros _ w3 (L3 & S3 & N3).
  rewrite S2 in S3. simpl in S3.
  rewrite update_obj_snoc in S3 by (trivial; rewrite H1; reflexivity).
  eapply runs_weaken; [apply modify_scene_x; exact L3|].
  cbv beta. intros _ w4 (L4 & S4 & N4).
  rewrite S3 in S4. simpl in S4.
  rewrite update_obj_snoc in S4 by (trivial; rewrite H2, H1; reflexivity).
  split; [exact L4|]. split; [exact S4|congruence].
Qed.

Lemma Forall_fresh_snoc (n : nat) (l : list object) (o : object) :
  Forall (fun o => (oid o < n)%nat) l -> oid o = n ->
  Forall (fun o => (oid o < S n)%nat) (l ++ [o]).
Proof.
  intros H E. apply Forall_app. split.
  - eapply Forall_impl; [|exact H]. simpl. intros. lia.
  - constructor; [lia|constructor].
Qed.

(** [create_camera] appends the render camera, makes it the scene camera
    and returns its identity; the other objects are untouched. *)
Lemma create_camera_x (width_hexes height_hexes : positive)
  (l : list string) (w0 w : bpy) :
  logged l w0 w ->
  Forall (fun o => (oid o < next_id w)%nat) (objects (scene w)) ->
  runs (create_camera width_hexes height_hexes) w
       (fun camera w' =>
          camera = next_id w /\ logged l w0 w'
          /\ scene w'
             = set_camera (Some camera)
                 (set_objects (objects (scene w) ++ [render_camera camera])
                              (scene w))
          /\ next_id w' = S (next_id w)).
Proof.
  intros L Hf. unfold create_camera, camera_add.
  apply (add_and_set _ _ _ _ _ _ _ _ _ _ _ l w0 w L Hf);
    [reflexivity|reflexivity|].
  intros w1 L1 S1 N1.
  eapply runs_bind; [apply modify_scene_x; exact L1|].
  cbv beta. intros _ w2 (L2 & S2 & N2).
  exists (next_id w), w2. split; [reflexivity|].
  split; [reflexivity|]. split; [exact L2|]. split; [|congruence].
  rewrite S2, S1. reflexivity.
Qed.

(** [create_lights] appends the three lights; the other objects are
    untouched. *)
Lemma create_lights_x (l : list string) (w0 w : bpy) :
  logged l w0 w ->
  Forall (fun o => (oid o < next_id w)%nat) (objects (scene w)) ->
  runs create_lights w
       (fun _ w' =>
          logged l w0 w'
          /\ scene w'
             = set_objects (objects (scene w) ++ light_rig (next_id w))
                           (scene w)
          /\ next_id w' = S (S (S (next_id w)))).
Proof.
  intros L Hf. unfold create_lights, light_add.
  apply (add_and_set _ _ _ _ _ _ _ _ _ _ _ l w0 w L Hf);
    [reflexivity|reflexivity|].
  intros w1 L1 S1 N1.
  assert (Hf1 : Forall (fun o => (oid o < next_id w1)%nat)
                       (objects (scene w1))).
  { rewrite S1, N1. simpl. now apply Forall_fresh_snoc. }
  apply (add_and_set _ _ _ _ _ _ _ _ _ _ _ l w0 w1 L1 Hf1);
    [reflexivity|reflexivity|].
  intros w2 L2 S2 N2.
  assert (Hf2 : Forall (fun o => (oid o < next_id w2)%nat)
                       (objects (scene w2))).
  { rewrite S2, N2. simpl. now apply Forall_fresh_snoc. }
  eapply runs_weaken;
    [apply (add_and_set_end _ _ _ _ _ _ _ _ _ l w0 w2 L2 Hf2); reflexivity|].
  cbv beta. intros _ w3 (L3 & S3 & N3).
  split; [exact L3|]. split; [|congruence].
  rewrite S3, S2, S1, N2, N1. simpl. rewrite <- !app_assoc. reflexivity.
Qed.

(** The objects that stay after [delete_all_objects]. *)
Lemma all_selectable_none_stay (objs : list object) :
  Forall (fun o => selectable o = true) objs ->
  filter (fun o => negb (selectable o)) objs = [].
Proof.
  intro H. induction H as [|o l Ho _ IH]; simpl; trivial.
  now rewrite Ho.
Qed.

(** When every object of the scene can be selected, [setup_scene] leaves an
    empty scene whose engine, sampling, film and file settings are fixed;
    resolution and file path are not assigned. *)
Lemma setup_scene_x (l : list string) (w0 w : bpy) :
  logged l w0 w ->
  Forall (fun o => selectable o = true) (objects (scene w)) ->
  runs setup_scene w
       (fun _ w' =>
          logged l w0 w' /\ next_id w' = next_id w
          /\ scene w'
             = mkScene [] None
                 (set_color_mode "RGBA"
                    (set_file_format "PNG"
                       (set_film_transparent true
                          (set_engine "CYCLES" (render (scene w))))))
                 (mkCycles 64 true) (Some "World")).
Proof.
  intros L Hsel. unfold setup_scene, modify_render.
  eapply runs_bind.
  { exists tt. eexists. split; [reflexivity|].
    instantiate (1 := fun _ w' =>
      logged l w0 w' /\ next_id w' = next_id w
      /\ scene w' = set_camera None (set_objects [] (scene w))).
    cbv beta. split; [exact L|]. split; [reflexivity|].
    cbn [scene]. rewrite (all_selectable_none_stay _ Hsel).
    now destruct (camera (scene w)). }
  cbv beta. intros _ w1 (L1 & N1 & S1).
  eapply runs_bind; [apply modify_scene_x; exact L1|].
  cbv beta. intros _ w2 (L2 & S2 & N2).
  eapply runs_bind; [apply modify_scene_x; exact L2|].
  cbv beta. intros _ w3 (L3 & S3 & N3).
  eapply runs_bind; [apply modify_scene_x; exact L3|].
  cbv beta. intros _ w4 (L4 & S4 & N4).
  eapply runs_bind; [apply modify_scene_x; exact L4|].
  cbv beta. intros _ w5 (L5 & S5 & N5).
  eapply runs_bind; [apply modify_scene_x; exact L5|].
  cbv beta. intros _ w6 (L6 & S6 & N6).
  eapply runs_bind; [apply modify_scene_x; exact L6|].
  cbv beta. intros _ w7 (L7 & S7 & N7).
  exists tt. eexists. split; [reflexivity|].
  split; [exact L7|]. split; [simpl; congruence|].
  simpl. rewrite S7, S6, S5, S4, S3, S2, S1. reflexivity.
Qed.

Lemma libraries_load_x (path : string) (objs : list (option object))
  (l : list string) (w0 w : bpy) :
  files w path = Some objs -> logged l w0 w ->
  runs (libraries_load path) w
       (fun data w' =>
          data = fst (stamp (next_id w) objs)
          /\ logged l w0 w' /\ scene w' = scene w
          /\ next_id w' = snd (stamp (next_id w) objs)).
Proof.
  intros H L. unfold runs, libraries_load. rewrite H.
  destruct (stamp (next_id w) objs) as [l' n].
  eexists _, _. split; [reflexivity|].
  split; [reflexivity|]. split; [exact L|]. split; reflexivity.
Qed.

Lemma print_x (s : string) (l : list string) (w0 w : bpy) :
  logged l w0 w ->
  runs (print s) w
       (fun _ w' => logged (l ++ [s]) w0 w' /\ scene w' = scene w
                    /\ next_id w' = next_id w).
Proof.
  intros (F & D & W & S). eexists tt, _. split; [reflexivity|].
  split; [|split; reflexivity].
  unfold logged. simpl. rewrite S, app_assoc. auto.
Qed.

Lemma filter_remove_step (i : nat) (ids : list nat) (l : list object) :
  filter (fun o => negb (existsb (Nat.eqb (oid o)) ids))
         (filter (fun o => negb (Nat.eqb (oid o) i)) l)
  = filter (fun o => negb (existsb (Nat.eqb (oid o)) (i :: ids))) l.
Proof.
  induction l as [|o l IH]; simpl; trivial.
  destruct (Nat.eqb (oid o) i); simpl; now rewrite IH.
Qed.

Lemma remove_objects_x (excluded : list object) :
  forall (l : list string) (w0 w : bpy),
    logged l w0 w ->
    runs (remove_objects excluded) w
         (fun _ w' =>
            logged (l ++ map (fun o => "  Excluding object: " ++ name o)
                             excluded) w0 w'
            /\ next_id w' = next_id w
            /\ scene w'
               = set_objects
                   (filter (fun o => negb (existsb (Nat.eqb (oid o))
                                                   (map oid excluded)))
                           (objects (scene w)))
                   (scene w)).
Proof.
  induction excluded as [|obj rest IH]; intros l w0 w L.
  - exists tt, w. split; [reflexivity|]. simpl. rewrite app_nil_r.
    split; [exact L|]. split; [reflexivity|].
    rewrite (filter_all _ (objects (scene w))) by reflexivity.
    now destruct (scene w).
  - simpl remove_objects.
    eapply runs_bind; [apply print_x; exact L|].
    cbv beta. intros _ w1 (L1 & S1 & N1).
    eapply runs_bind; [apply modify_scene_x; exact L1|].
    cbv beta. intros _ w2 (L2 & S2 & N2).
    eapply runs_weaken; [apply IH; exact L2|].
    cbv beta. intros _ w3 (L3 & N3 & S3).
    split; [simpl map; now rewrite <- app_assoc in L3|].
    split; [congruence|].
    rewrite S3, S2, S1. simpl. now rewrite filter_remove_step.
Qed.

(** [fit_camera_to_objects] as a function on the scene's objects. *)
Lemma fit_camera_x (camera : nat) (padding : Q) (l : list string)
  (w0 w : bpy) :
  logged l w0 w ->
  runs (fit_camera_to_objects camera padding) w
       (fun _ w' =>
          logged l w0 w' /\ next_id w' = next_id w
          /\ scene w'
             = set_objects
                 (frame_objects camera padding
                                (render_aspect (render (scene w)))
                                (objects (scene w)))
                 (scene w)).
Proof.
  intro L. unfold frame_objects.
  destruct (filter is_mesh (objects (scene w))) as [|m ms] eqn:E.
  - exists tt, w. split.
    + unfold fit_camera_to_objects, bind, scene_objects. now rewrite E.
    + split; [exact L|]. split; [reflexivity|]. now destruct (scene w).
  - assert (Hne : filter is_mesh (objects (scene w)) <> [])
      by (rewrite E; discriminate).
    destruct (bounds_finite _ Hne) as (x0 & x1 & y0 & y1 & Hb & _).
    rewrite E in Hb. rewrite Hb.
    eexists tt, _. split.
    + apply (fit_camera_bounds camera padding w x0 x1 y0 y1 Hne).
      now rewrite E.
    + split; [exact L|]. split; reflexivity.
Qed.

Lemma finish_x (path line : string) (l : list string) (w0 w : bpy) :
  logged l w0 w ->
  runs (modify_render (set_filepath path) ;; render_still ;; print line) w
       (fun _ w' =>
          files w' = files w0
          /\ directories w' = ensure_parent path (directories w0)
          /\ stdout w' = (stdout w0 ++ l ++ [line])%list
          /\ next_id w' = next_id w
          /\ scene w' = set_render (set_filepath path (render (scene w)))
                                   (scene w)
          /\ written w' = (written w0 ++ [(path, scene w')])%list).
Proof.
  intros (F & D & W & S). eexists tt, _. split; [reflexivity|].
  simpl. rewrite F, D, W, S, <- app_assoc. repeat split.
Qed.

(** The rendered scene, the output and the next free identity after
    [render_model], in closed form. *)
Lemma render_model_closed_form (root blend_file output_name : string)
  (width_hexes height_hexes : positive) (objs : list (option object))
  (w : bpy) :
  files w blend_file = Some objs ->
  Forall (fun o => selectable o = true) (objects (scene w)) ->
  runs (render_model root blend_file output_name width_hexes height_hexes) w
       (fun _ w' =>
          scene w' = rendered_scene root output_name width_hexes height_hexes
                                    (next_id w) objs
          /\ written w'
             = (written w
                ++ [(path_join (OUTPUT_DIR root) (output_name ++ ".png"),
                     scene w')])%list
          /\ stdout w'
             = (stdout w
                ++ model_log root blend_file output_name objs)%list
          /\ next_id w' = (next_id w + List.length (loaded objs) + 4)%nat
          /\ files w' = files w
          /\ directories w'
             = ensure_parent
                 (path_join (OUTPUT_DIR root) (output_name ++ ".png"))
                 (directories w)).
Proof.
  intros Hfile Hsel. unfold render_model.
  eapply runs_bind; [apply print_x; apply logged_refl|].
  cbv beta. intros _ w1 (L1 & S1 & N1).
  eapply runs_bind; [apply setup_scene_x; [exact L1|now rewrite S1]|].
  cbv beta. intros _ w2 (L2 & N2 & S2).
  eapply runs_bind.
  { eapply libraries_load_x; [|exact L2].
    destruct L2 as (F2 & _). rewrite F2. exact Hfile. }
  cbv beta. intros data0 w3 (Hd & L3 & S3 & N3).
  rewrite N2, N1 in Hd, N3. subst data0.
  destruct (stamp_loaded objs (next_id w)) as [Hld Hnx].
  set (data := fst (stamp (next_id w) objs)) in *.
  set (cam := snd (stamp (next_id w) objs)) in *.
  eapply runs_bind.
  { eexists _, _. split; [apply link_objects_run|].
    instantiate (1 := fun ex w' =>
      ex = filter is_excluded (loaded data)
      /\ logged ([] ++ ["Rendering " ++ blend_file ++ " -> " ++ output_name])
                w w'
      /\ scene w' = set_objects (loaded data) (scene w3)
      /\ next_id w' = cam).
    cbv beta. split; [reflexivity|]. split; [exact L3|].
    split; [|exact N3]. simpl. rewrite S3, S2. reflexivity. }
  cbv beta. intros ex w4 (-> & L4 & S4 & N4).
  eapply runs_bind; [apply remove_objects_x; exact L4|].
  cbv beta. intros _ w5 (L5 & N5 & S5).
  assert (Hnd : NoDup (map oid (loaded data))).
  { rewrite Hld, renumber_oids. apply seq_NoDup. }
  rewrite S4 in S5. simpl in S5.
  rewrite (remove_excluded_retained _ Hnd) in S5.
  eapply runs_bind; [apply modify_scene_x; exact L5|].
  cbv beta. intros _ w6 (L6 & S6 & N6).
  eapply runs_bind; [apply modify_scene_x; exact L6|].
  cbv beta. intros _ w7 (L7 & S7 & N7).
  eapply runs_bind; [apply modify_scene_x; exact L7|].
  cbv beta. intros _ w8 (L8 & S8 & N8).
  assert (O8 : objects (scene w8) = retained (loaded data)).
  { rewrite S8, S7, S6, S5. reflexivity. }
  assert (N8' : next_id w8 = cam) by congruence.
  assert (F8 : Forall (fun o => (oid o < next_id w8)%nat)
                      (objects (scene w8))).
  { rewrite O8, N8'. unfold retained. apply Forall_forall. intros o Ho.
    apply filter_In in Ho. destruct Ho as [Ho _]. revert o Ho.
    apply Forall_forall. rewrite Hld, Hnx. apply renumber_fresh. }
  eapply runs_bind; [apply create_camera_x; [exact L8|exact F8]|].
  cbv beta. intros camera w9 (-> & L9 & S9 & N9).
  assert (F9 : Forall (fun o => (oid o < next_id w9)%nat)
                      (objects (scene w9))).
  { rewrite S9, N9. simpl. now apply Forall_fresh_snoc. }
  eapply runs_bind; [apply create_lights_x; [exact L9|exact F9]|].
  cbv beta. intros _ w10 (L10 & S10 & N10).
  eapply runs_bind; [apply fit_camera_x; exact L10|].
  cbv beta. intros _ w11 (L11 & N11 & S11).
  eapply runs_weaken; [apply finish_x; exact L11|].
  cbv beta. intros _ w12 (F & D & So & N & SC & W).
  assert (E : scene w12
              = rendered_scene root output_name width_hexes height_hexes
                               (next_id w) objs).
  { assert (E8 : scene w8
                 = mkScene (retained (loaded data)) None
                     (set_resolution_percentage 100
                        (set_resolution_y (BASE_HEIGHT * height_hexes)
                           (set_resolution_x (BASE_WIDTH * width_hexes)
                              (set_color_mode "RGBA"
                                 (set_file_format "PNG"
                                    (set_film_transparent true
                                       (set_engine "CYCLES"
                                          (render (scene w))))))))) 
                     (mkCycles 64 true) (Some "World")).
    { rewrite S8, S7, S6, S5, S3, S2, S1. reflexivity. }
    set (R8 := set_resolution_percentage _ _) in E8.
    assert (E9 : scene w9
                 = mkScene (retained (loaded data) ++ [render_camera cam])
                           (Some cam) R8 (mkCycles 64 true) (Some "World")).
    { rewrite S9, E8, N8'. reflexivity. }
    assert (E10 : scene w10
                  = mkScene ((retained (loaded data) ++ [render_camera cam])
                             ++ light_rig (S cam))
                            (Some cam) R8 (mkCycles 64 true) (Some "World")).
    { rewrite S10, E9, N9, N8'. reflexivity. }
    assert (E11 : scene w11
                  = mkScene (frame_objects cam default_padding
                               (render_aspect R8)
                               ((retained (loaded data) ++ [render_camera cam])
                                ++ light_rig (S cam)))
                            (Some cam) R8 (mkCycles 64 true) (Some "World")).
    { rewrite S11, E10, N8'. reflexivity. }
    rewrite SC, E11. unfold rendered_scene. fold data cam.
    rewrite <- app_assoc. reflexivity. }
  split; [exact E|]. split; [exact W|]. split.
  - rewrite So. unfold model_log. simpl. do 3 f_equal.
    rewrite Hld. apply renumber_filter_map; reflexivity.
  - split; [lia|auto].
Qed.

(** ** Per-model driver: what is rendered *)

Lemma update_obj_id (i : nat) (l : list object) :
  update_obj i (fun o => o) l = l.
Proof.
  unfold update_obj. rewrite <- (map_id l) at 2. apply map_ext.
  intro o. now destruct (Nat.eqb (oid o) i).
Qed.

Lemma frame_objects_one (camera : nat) (padding aspect : Q)
  (objs : list object) :
  frame_objects camera padding aspect objs
  = update_obj camera (frame_one padding aspect (filter is_mesh objs)) objs.
Proof.
  unfold frame_objects, frame_one.
  destruct (filter is_mesh objs) as [|m ms].
  - now rewrite update_obj_id.
  - destruct (scene_bounds (m :: ms)) as [[|x0|] [|x1|] [|y0|] [|y1|]];
      try (now rewrite update_obj_id); reflexivity.
Qed.

Lemma frame_one_same (padding aspect : Q) (meshes : list object)
  (o : object) :
  same_but_framing o (frame_one padding aspect meshes o).
Proof.
  unfold frame_one, same_but_framing.
  destruct meshes as [|m ms]; [repeat split|].
  destruct (scene_bounds (m :: ms)) as [[|x0|] [|x1|] [|y0|] [|y1|]];
    repeat split.
Qed.

(** Updating the one object of a list that carries an identity. *)
Lemma update_obj_middle (i : nat) (f : object -> object)
  (before after : list object) (o : object) :
  Forall (fun x => (oid x < i)%nat) before ->
  Forall (fun x => (i < oid x)%nat) after -> oid o = i ->
  update_obj i f (before ++ o :: after) = (before ++ f o :: after)%list.
Proof.
  intros Hb Ha Ho. unfold update_obj at 1. rewrite map_app. simpl.
  fold (update_obj i f before). rewrite (update_obj_fresh i f before Hb).
  rewrite Ho, Nat.eqb_refl. do 2 f_equal.
  rewrite <- (map_id after) at 2. apply map_ext_in. intros x Hx.
  rewrite Forall_forall in Ha. specialize (Ha x Hx).
  destruct (Nat.eqb_spec (oid x) i); [lia|reflexivity].
Qed.

Lemma filter_mesh_rig (l : list object) (i : nat) :
  filter is_mesh (l ++ render_camera i :: light_rig (S i))
  = filter is_mesh l.
Proof. rewrite filter_app. simpl. apply app_nil_r. Qed.

Lemma retained_fresh (n : nat) (l : list object) :
  Forall (fun o => (oid o < n + List.length l)%nat) (retained (renumber n l)).
Proof.
  apply Forall_forall. intros o Ho. unfold retained in Ho.
  apply filter_In in Ho. destruct Ho as [Ho _]. revert o Ho.
  apply Forall_forall. apply renumber_fresh.
Qed.

(** The objects of the rendered scene, one by one. *)
Lemma rendered_objects (root output_name : string)
  (width_hexes height_hexes : positive) (n : nat)
  (objs : list (option object)) :
  let kept := retained (renumber n (loaded objs)) in
  let camera := (n + List.length (loaded objs))%nat in
  objects (rendered_scene root output_name width_hexes height_hexes n objs)
  = (kept
     ++ frame_one default_padding
          (render_aspect
             (image_settings root output_name width_hexes height_hexes))
          (filter is_mesh kept) (render_camera camera)
     :: light_rig (S camera))%list.
Proof.
  intros kept camera. unfold rendered_scene.
  destruct (stamp_loaded objs n) as [Hld Hnx]. rewrite Hld, Hnx.
  fold kept camera. cbn [objects].
  rewrite frame_objects_one, filter_mesh_rig.
  apply update_obj_middle.
  - apply retained_fresh.
  - unfold light_rig, sun. repeat constructor; simpl; lia.
  - reflexivity.
Qed.

Lemma non_mesh_not_excluded (o : object) :
  type o <> "MESH" -> is_excluded o = false.
Proof.
  intro H. unfold is_excluded, should_exclude_object.
  apply String.eqb_neq in H. now rewrite H.
Qed.

Lemma retained_anonymous (n : nat) (l : list object) :
  anonymous (retained (renumber n l)) = anonymous (retained l).
Proof.
  unfold anonymous, retained.
  apply (renumber_filter_map (fun o => negb (is_excluded o)) (set_oid 0));
    reflexivity.
Qed.






(** The directory of a file placed in [dir] under a plain name. *)
Lemma plain_name_no_dir (s : string) :
  plain_name s = true -> forall t, dirname t = None -> dirname (s ++ t) = None.
Proof.
  induction s as [|c s IH]; simpl; intros H t Ht; [exact Ht|].
  apply andb_true_iff in H. destruct H as [Hc Hs].
  rewrite (IH Hs t Ht).
  destruct (Ascii.eqb_spec c "/") as [->|]; [discriminate Hc|reflexivity].
Qed.

Lemma dirname_join (dir file : string) :
  dirname file = None -> dirname (path_join dir file) = Some dir.
Proof.
  intro H. unfold path_join. induction dir as [|c dir IH]; simpl.
  - now rewrite H.
  - simpl in IH. now rewrite IH.
Qed.

Lemma ensure_parent_In (dir file : string) (dirs : list string) :
  dirname file = None -> dir <> "" ->
  In dir (ensure_parent (path_join dir file) dirs).
Proof.
  intros H Hd. unfold ensure_parent. rewrite (dirname_join _ _ H).
  apply String.eqb_neq in Hd. rewrite Hd. simpl.
  destruct (existsb (String.eqb dir) dirs) eqn:E.
  - apply existsb_exists in E. destruct E as (d & Hin & E).
    apply String.eqb_eq in E. now subst d.
  - apply in_or_app. right. now left.
Qed.

(** X10: on a model file that exists, from a scene whose objects can all
    be selected, for a script below an absolute directory, a plain display
    name and a resolution in the host's range, [render_model] returns normally and writes exactly one image, at
    the output path of the model; the scene it renders has engine CYCLES,
    64 samples with denoising, a transparent film, PNG/RGBA output, the
    resolution of the table entry at 100 percent and the world named World,
    whatever the settings were before.  It prints the start line, one line
    per excluded object in file order and the save line, and leaves the
    input files alone; the output directory exists afterwards, created by
    the renderer when it was missing, and no directory is removed. *)
Theorem X10_render_model_output (root blend_file output_name : string)
  (width_hexes height_hexes : positive) (objs : list (option object))
  (w : bpy) :
  files w blend_file = Some objs -> all_selectable w ->
  absolute_path root -> plain_name output_name = true ->
  renderable width_hexes height_hexes ->
  exists w',
    render_model root blend_file output_name width_hexes height_hexes w
    = Ok (tt, w')
    /\ written w'
       = (written w
          ++ [(path_join (OUTPUT_DIR root) (output_name ++ ".png"),
               scene w')])%list
    /\ render (scene w')
       = image_settings root output_name width_hexes height_hexes
    /\ cycles (scene w') = mkCycles 64 true
    /\ world (scene w') = Some "World"
    /\ stdout w'
       = (stdout w ++ model_log root blend_file output_name objs)%list
    /\ files w' = files w
    /\ In (OUTPUT_DIR root) (directories w')
    /\ incl (directories w) (directories w').
Proof.
  intros Hfile Hsel _ Hplain _.
  destruct (render_model_closed_form root blend_file output_name width_hexes
              height_hexes objs w Hfile Hsel)
    as ([] & w' & E & (SC & W & So & N & F & D)).
  exists w'. split; [exact E|]. split; [exact W|].
  rewrite SC. repeat (split; [reflexivity|]).
  split; [exact So|]. split; [exact F|]. rewrite D. split.
  - apply ensure_parent_In.
    + now apply plain_name_no_dir.
    + unfold OUTPUT_DIR, path_join.
      destruct (_ ++ "/" ++ "units")%string; discriminate.
  - apply incl_ensure_parent.
Qed.

Lemma X10_witness :
  exists w',
    render_model "/repo" "/repo/3Dmodels/3dprint_char.blend" "tank" 1 1
                 (host_with_disk
                    (disk_with ["/repo/3Dmodels/3dprint_char.blend"]))
    = Ok (tt, w')
    /\ stdout w'
       = [ "Rendering /repo/3Dmodels/3dprint_char.blend -> tank";
           "  Excluding object: Hex_Socle";
           "  Saved: /repo/public/sprites/units/rendered/tank.png" ]
    /\ render (scene w')
       = mkRender "CYCLES" true "PNG" "RGBA" 512 443 100
                  "/repo/public/sprites/units/rendered/tank.png"
    /\ In "/repo/public/sprites/units/rendered" (directories w').
Proof.
  destruct (X10_render_model_output "/repo"
              "/repo/3Dmodels/3dprint_char.blend" "tank" 1 1 sample_model
              (host_with_disk
                 (disk_with ["/repo/3Dmodels/3dprint_char.blend"]))
              eq_refl (Forall_nil _)
              ltac:(exists ["repo"]; repeat split; discriminate) eq_refl
              ltac:(split; vm_compute; discriminate))
    as (w' & E & _ & R & _ & _ & So & _ & D & _).
  exists w'. split; [exact E|]. split; [exact So|]. split; [exact R|exact D].
Defined.

Lemma NoDup_app_fresh {A} (l1 l2 : list A) :
  NoDup l1 -> NoDup l2 -> (forall x, In x l1 -> In x l2 -> False) ->
  NoDup (l1 ++ l2).
Proof.
  intros H1 H2 Hd. induction H1 as [|a l Ha _ IH]; simpl; [exact H2|].
  constructor.
  - intro Hin. apply in_app_or in Hin. destruct Hin as [Hin|Hin]; auto.
    apply (Hd a); simpl; auto.
  - apply IH. intros x Hx. apply Hd. now right.
Qed.

Lemma light_rig_is_rig (i : nat) : is_light_rig (light_rig i).
Proof.
  unfold is_light_rig, light_rig, is_sun, sun. eexists _, _, _.
  split; [reflexivity|]. cbn. repeat split; reflexivity.
Qed.

(** X11: under the conditions of X10 (a file that loads, a scene whose
    objects can all be selected, a resolution in the host's range), and
    when no retained object of the file already has one of the names
    RenderCamera, KeyLight, FillLight and RimLight, the scene
    [render_model] renders holds, in this order, the loaded objects the
    filter retains (the [None] entries and the excluded objects are gone,
    nothing else is), the render camera, and the key, fill and rim lights.
    The camera is the scene camera, is orthographic with zero rotation at
    height 10, and is the only object whose attributes the framing may
    have changed; no object of the scene is one the filter would exclude;
    and up to object identities the retained objects are those of the
    file. *)
Theorem X11_rendered_scene_objects (root blend_file output_name : string)
  (width_hexes height_hexes : positive) (objs : list (option object))
  (w : bpy) :
  let kept := retained (renumber (next_id w) (loaded objs)) in
  files w blend_file = Some objs -> all_selectable w ->
  renderable width_hexes height_hexes ->
  (forall nm, In nm rig_names -> name_free nm (retained (loaded objs))) ->
  exists w' cam lights,
    render_model root blend_file output_name width_hexes height_hexes w
    = Ok (tt, w')
    /\ objects (scene w') = (kept ++ cam :: lights)%list
    /\ camera (scene w') = Some (oid cam)
    /\ is_render_camera cam /\ is_light_rig lights
    /\ NoDup (map oid (objects (scene w')))
    /\ Forall (fun o => is_excluded o = false) (objects (scene w'))
    /\ anonymous kept = anonymous (retained (loaded objs)).
Proof.
  intros kept Hfile Hsel _ _.
  set (cam_id := (next_id w + List.length (loaded objs))%nat).
  destruct (render_model_closed_form root blend_file output_name width_hexes
              height_hexes objs w Hfile Hsel)
    as ([] & w' & E & (SC & _)).
  pose proof (rendered_objects root output_name width_hexes height_hexes
                (next_id w) objs) as O.
  cbv zeta in O. fold kept cam_id in O.
  destruct (frame_one_same default_padding
              (render_aspect
                 (image_settings root output_name width_hexes height_hexes))
              (filter is_mesh kept) (render_camera cam_id))
    as (Hi & Hn & Hty & _ & _ & Hr & Hd & _ & _ & Hz).
  eexists w', _, _. split; [exact E|]. rewrite SC.
  split; [exact O|]. split.
  { unfold rendered_scene. cbn [camera]. rewrite Hi. f_equal.
    apply (proj2 (stamp_loaded objs (next_id w))). }
  split.
  { unfold is_render_camera. rewrite Hn, Hty, Hd, Hr, Hz.
    repeat split; reflexivity. }
  split; [apply light_rig_is_rig|]. split.
  { rewrite O, map_app. cbn [map]. rewrite Hi.
    apply NoDup_app_fresh.
    - unfold kept, retained. apply distinct_keys_kept.
      rewrite renumber_oids. apply seq_NoDup.
    - cbn. repeat constructor; simpl; intuition lia.
    - intros i Hk Hr'. apply in_map_iff in Hk. destruct Hk as (o & <- & Ho).
      pose proof (retained_fresh (next_id w) (loaded objs)) as Fr.
      rewrite Forall_forall in Fr. specialize (Fr o Ho). fold cam_id in Fr.
      cbn in Hr'. lia. }
  split.
  - rewrite O. apply Forall_app. split.
    + apply Forall_forall. intros o Ho. unfold kept, retained in Ho.
      apply filter_In in Ho. destruct Ho as [_ Ho].
      now apply negb_true_iff in Ho.
    + constructor.
      * apply non_mesh_not_excluded. rewrite Hty. discriminate.
      * repeat constructor.
  - apply retained_anonymous.
Qed.

Lemma X11_witness :
  exists w',
    render_model "/repo" "/repo/3Dmodels/3dprint_char.blend" "tank" 1 1
                 (host_with_disk
                    (disk_with ["/repo/3Dmodels/3dprint_char.blend"]))
    = Ok (tt, w')
    /\ map name (objects (scene w'))
       = ["Hull"; "RenderCamera"; "KeyLight"; "FillLight"; "RimLight"].
Proof.
  destruct (X11_rendered_scene_objects "/repo"
              "/repo/3Dmodels/3dprint_char.blend" "tank" 1 1 sample_model
              (host_with_disk
                 (disk_with ["/repo/3Dmodels/3dprint_char.blend"]))
              eq_refl (Forall_nil _)
              ltac:(split; vm_compute; discriminate))
    as (w' & cam & lights & E & O & _ & (Hn & _)
        & (k & f & r & -> & (Hk & _) & (Hf & _) & (Hr & _)) & _).
  - intros nm Hin C. vm_compute in C.
    destruct C as [<-|[]]. simpl in Hin.
    repeat (destruct Hin as [Hin|Hin]; [discriminate Hin|]). exact Hin.
  - exists w'. split; [exact E|]. rewrite O, map_app. cbn [map].
    rewrite Hn, Hk, Hf, Hr. reflexivity.
Defined.

Lemma frame_one_in_view (padding aspect : Q) (meshes : list object)
  (c : object) (p : vec3) :
  0 < aspect -> 1 <= padding -> In p (scene_points meshes) ->
  in_view aspect (frame_one padding aspect meshes c) p.
Proof.
  intros Ha Hp Hin. unfold frame_one.
  destruct meshes as [|m ms]; [contradiction|].
  destruct (bounds_finite (m :: ms)) as (x0 & x1 & y0 & y1 & Hb & Hrect);
    [discriminate|].
  rewrite Hb.
  destruct (bounding_rect_inside _ _ _ _ _ _ Hrect Hin) as [[X0 X1] [Y0 Y1]].
  destruct (chosen_scale_covers (x1 - x0) (y1 - y0) aspect padding Ha Hp)
    as [SW SH]; try lra.
  unfold in_view. cbn [ortho_scale location set_location_y set_location_x
                       set_location set_ortho_scale vx vy].
  set (s := chosen_scale (x1 - x0) (y1 - y0) aspect padding) in *.
  set (sa := s / aspect) in *.
  unfold Qdiv. change (/ 2) with (1 # 2). repeat split; lra.
Qed.

(** X17: under the conditions of X10, for an image that is at least as
    wide as it is high, every mesh of the scene that [render_model]
    renders lies within the view of the scene camera: the rectangle of
    width ortho_scale and height ortho_scale / aspect centred at the
    camera's X/Y location, at the aspect ratio of the image, contains
    every world-space bounding-box corner of every mesh of the rendered
    scene. *)
Theorem X17_rendered_meshes_in_view (root blend_file output_name : string)
  (width_hexes height_hexes : positive) (objs : list (option object))
  (w : bpy) :
  files w blend_file = Some objs -> all_selectable w ->
  renderable width_hexes height_hexes -> landscape width_hexes height_hexes ->
  exists w' cam,
    render_model root blend_file output_name width_hexes height_hexes w
    = Ok (tt, w')
    /\ In cam (objects (scene w')) /\ camera (scene w') = Some (oid cam)
    /\ type cam = "CAMERA"
    /\ forall o p,
         In o (objects (scene w')) -> type o = "MESH" ->
         In p (world_corners o) ->
         in_view (render_aspect (render (scene w'))) cam p.
Proof.
  intros Hfile Hsel _ _.
  set (kept := retained (renumber (next_id w) (loaded objs))).
  set (cam_id := (next_id w + List.length (loaded objs))%nat).
  destruct (render_model_closed_form root blend_file output_name width_hexes
              height_hexes objs w Hfile Hsel)
    as ([] & w' & E & (SC & _)).
  pose proof (rendered_objects root output_name width_hexes height_hexes
                (next_id w) objs) as O.
  cbv zeta in O. fold kept cam_id in O.
  set (r := image_settings root output_name width_hexes height_hexes) in *.
  destruct (frame_one_same default_padding (render_aspect r)
              (filter is_mesh kept) (render_camera cam_id))
    as (Hi & _ & Hty & _).
  eexists w', _. split; [exact E|]. rewrite SC, O.
  split; [apply in_or_app; right; left; reflexivity|].
  split.
  { unfold rendered_scene. cbn [camera]. rewrite Hi. f_equal.
    apply (proj2 (stamp_loaded objs (next_id w))). }
  split; [rewrite Hty; reflexivity|].
  intros o p Ho Hmesh Hp.
  change (render (rendered_scene root output_name width_hexes height_hexes
                                 (next_id w) objs)) with r.
  apply frame_one_in_view.
  - unfold render_aspect. apply Qlt_shift_div_l.
    + apply inject_pos_gt0.
    + rewrite Qmult_0_l. apply inject_pos_gt0.
  - discriminate.
  - unfold scene_points. apply in_flat_map. exists o. split; [|exact Hp].
    apply filter_In. split; [|unfold is_mesh; now rewrite Hmesh].
    apply in_app_or in Ho. destruct Ho as [Ho|[<-|Ho]]; [exact Ho| |].
    + rewrite Hty in Hmesh. discriminate Hmesh.
    + simpl in Ho. destruct Ho as [<-|[<-|[<-|[]]]]; discriminate Hmesh.
Qed.

Lemma X17_witness :
  exists w' cam,
    render_model "/repo" "/repo/3Dmodels/3dprint_char.blend" "tank" 1 1
                 (host_with_disk
                    (disk_with ["/repo/3Dmodels/3dprint_char.blend"]))
    = Ok (tt, w')
    /\ In cam (objects (scene w')) /\ camera (scene w') = Some (oid cam)
    /\ in_view (512 # 443) cam (mkVec 1 1 2).
Proof.
  destruct (X17_rendered_meshes_in_view "/repo"
              "/repo/3Dmodels/3dprint_char.blend" "tank" 1 1 sample_model
              (host_with_disk
                 (disk_with ["/repo/3Dmodels/3dprint_char.blend"]))
              eq_refl (Forall_nil _)
              ltac:(split; vm_compute; discriminate)
              ltac:(vm_compute; discriminate))
    as (w' & cam & E & Hc & Cm & _ & Hall).
  exists w', cam. split; [exact E|]. split; [exact Hc|]. split; [exact Cm|].
  assert (R : render_aspect (render (scene w')) = (512 # 443)).
  { vm_compute in E. injection E as <-. reflexivity. }
  assert (Hh : In (mesh_named 0 "Hull"
                     (box_of (mkVec (-1) (-1) 0) (mkVec 1 1 2)))
                  (objects (scene w'))).
  { vm_compute in E. injection E as <-. left. reflexivity. }
  rewrite <- R.
  apply (Hall _ _ Hh eq_refl). unfold world_corners. vm_compute. tauto.
Defined.



(** ** Scene setup *)

Lemma setup_scene_eq (w : bpy) :
  let rest := filter (fun o => negb (selectable o)) (objects (scene w)) in
  setup_scene w
  = Ok (tt, mkBpy (mkScene rest (live_ref rest (camera (scene w)))
                     (mkRender "CYCLES" true "PNG" "RGBA"
                        (resolution_x (render (scene w)))
                        (resolution_y (render (scene w)))
                        (resolution_percentage (render (scene w)))
                        (filepath (render (scene w))))
                     (mkCycles 64 true) (Some "World"))
                  (worlds_after_setup (worlds w))
                  (live_ref rest (active_object w)) (next_id w) (files w)
                  (directories w) (stdout w) (written w)).
Proof. reflexivity. Qed.

Lemma filter_twice {A} (f : A -> bool) (l : list A) :
  filter f (filter f l) = filter f l.
Proof.
  induction l as [|a l IH]; simpl; trivial.
  destruct (f a) eqn:E; simpl; [rewrite E|]; now rewrite IH.
Qed.

Lemma live_ref_twice (rest : list object) (r : option nat) :
  live_ref rest (live_ref rest r) = live_ref rest r.
Proof.
  destruct r as [i|]; simpl; trivial.
  destruct (existsb _ rest) eqn:E; simpl; [now rewrite E|reflexivity].
Qed.

Lemma find_world_app_new (ws : list world_data) :
  find (fun wd => (world_name wd =? "World")%string)
       match find (fun wd => (world_name wd =? "World")%string) ws with
       | Some _ => ws
       | None => (ws ++ [new_world "World"])%list
       end
  <> None.
Proof.
  destruct (find _ ws) as [wd|] eqn:E; [congruence|].
  induction ws as [|a ws IH]; simpl; [discriminate|].
  simpl in E. destruct (world_name a =? "World")%string; [discriminate|].
  auto.
Qed.

Lemma find_update_world (f : world_data -> world_data)
  (ws : list world_data) :
  (forall wd, world_name (f wd) = world_name wd) ->
  find (fun wd => (world_name wd =? "World")%string)
       (update_world "World" f ws) = None ->
  find (fun wd => (world_name wd =? "World")%string) ws = None.
Proof.
  intro Hf. induction ws as [|a ws IH]; simpl; trivial.
  destruct (world_name a =? "World")%string eqn:E.
  - rewrite Hf, E. discriminate.
  - rewrite E. exact IH.
Qed.

Lemma update_world_idem (f : world_data -> world_data)
  (ws : list world_data) :
  (forall wd, world_name (f wd) = world_name wd) ->
  (forall wd, f (f wd) = f wd) ->
  update_world "World" f (update_world "World" f ws)
  = update_world "World" f ws.
Proof.
  intros Hn Hi. unfold update_world. rewrite map_map. apply map_ext.
  intro wd. destruct (world_name wd =? "World")%string eqn:E.
  - now rewrite Hn, E, Hi.
  - now rewrite E.
Qed.

Lemma lit_idem (wd : world_data) : lit (lit wd) = lit wd.
Proof. unfold lit. simpl. now destruct (background wd). Qed.

Lemma worlds_after_setup_idem (ws : list world_data) :
  worlds_after_setup (worlds_after_setup ws) = worlds_after_setup ws.
Proof.
  unfold worlds_after_setup at 1.
  destruct (find _ (worlds_after_setup ws)) as [wd|] eqn:E.
  - unfold worlds_after_setup. apply update_world_idem.
    + reflexivity.
    + apply lit_idem.
  - exfalso. unfold worlds_after_setup in E.
    apply find_update_world in E; [|reflexivity].
    exact (find_world_app_new ws E).
Qed.

(** X13: [setup_scene] returns normally.  Afterwards the objects of the
    scene are exactly those that could not be selected, so that a scene
    whose objects can all be selected is left without an object, a camera
    and an active object, while a hidden or unselectable object is still
    there.  The engine is CYCLES with 64 samples and denoising, the film is
    transparent, the output is PNG/RGBA and the scene's world is the one
    named World, which exists and uses nodes.  The resolution, the
    resolution percentage and the file path, every world with another
    name, the files, the directories, the output and the written images
    are left alone; and running [setup_scene] a second time changes
    nothing. *)
Theorem X13_setup_scene_resets (w : bpy) :
  exists w',
    setup_scene w = Ok (tt, w')
    /\ (forall o, In o (objects (scene w'))
                  <-> In o (objects (scene w)) /\ selectable o = false)
    /\ (all_selectable w ->
        objects (scene w') = [] /\ camera (scene w') = None
        /\ active_object w' = None)
    /\ render (scene w')
       = set_color_mode "RGBA"
           (set_file_format "PNG"
              (set_film_transparent true
                 (set_engine "CYCLES" (render (scene w)))))
    /\ cycles (scene w') = mkCycles 64 true
    /\ world (scene w') = Some "World"
    /\ (exists wd, In wd (worlds w') /\ world_name wd = "World"
                   /\ use_nodes wd = true)
    /\ (forall wd, In wd (worlds w) -> world_name wd <> "World" ->
                   In wd (worlds w'))
    /\ logged [] w w' /\ next_id w' = next_id w
    /\ setup_scene w' = Ok (tt, w').
Proof.
  eexists. split; [apply setup_scene_eq|]. cbn [scene objects camera render
    cycles world active_object worlds next_id].
  split.
  { intro o. rewrite filter_In, negb_true_iff. reflexivity. }
  split.
  { intro Hsel. rewrite (all_selectable_none_stay _ Hsel).
    split; [reflexivity|].
    split; [now destruct (camera (scene w))
           |now destruct (active_object w)]. }
  repeat (split; [reflexivity|]). split; [|split; [|split; [|split]]].
  - destruct (find (fun wd => (world_name wd =? "World")%string)
                   (worlds_after_setup (worlds w))) as [wd|] eqn:E.
    + apply find_some in E. destruct E as [Hin Hn].
      apply String.eqb_eq in Hn. exists wd. split; [exact Hin|].
      split; [exact Hn|].
      unfold worlds_after_setup, update_world in Hin.
      apply in_map_iff in Hin. destruct Hin as (x & <- & _).
      destruct (world_name x =? "World")%string eqn:Ex; [reflexivity|].
      apply String.eqb_neq in Ex. congruence.
    + exfalso. unfold worlds_after_setup in E.
      apply find_update_world in E; [|reflexivity].
      exact (find_world_app_new (worlds w) E).
  - intros wd Hin Hn. unfold worlds_after_setup, update_world.
    apply in_map_iff. exists wd. apply String.eqb_neq in Hn.
    rewrite Hn. split; [reflexivity|].
    destruct (find _ (worlds w)); [exact Hin|].
    apply in_or_app. now left.
  - unfold logged. simpl. now rewrite app_nil_r.
  - reflexivity.
  - rewrite setup_scene_eq. cbn [scene objects camera render resolution_x
      resolution_y resolution_percentage filepath worlds next_id files
      directories stdout written active_object].
    now rewrite filter_twice, !live_ref_twice, worlds_after_setup_idem.
Qed.

(** ** Per-model driver: what the reset does not clear *)

Lemma update_obj_keeps (i : nat) (f : object -> object) (l : list object)
  (o : object) :
  In o l -> oid o <> i -> In o (update_obj i f l).
Proof.
  intros Hin Hne. unfold update_obj. apply in_map_iff. exists o.
  apply Nat.eqb_neq in Hne. rewrite Hne. auto.
Qed.

Lemma present_scene (o : object) (f : scene_t -> scene_t) (w : bpy) :
  (In o (objects (scene w)) -> In o (objects (f (scene w)))) ->
  present o w ->
  runs (modify_scene f) w
       (fun _ w' => present o w' /\ next_id w' = next_id w
                    /\ files w' = files w).
Proof.
  intros Hf [Hin Hlt]. eexists tt, _. split; [reflexivity|].
  split; [split; [apply Hf, Hin|exact Hlt]|]. split; reflexivity.
Qed.

Lemma present_modify_obj (o : object) (i : nat) (f : object -> object)
  (w : bpy) :
  oid o <> i -> present o w ->
  runs (modify_obj i f) w
       (fun _ w' => present o w' /\ next_id w' = next_id w
                    /\ files w' = files w).
Proof.
  intros Hne H. unfold modify_obj. apply present_scene; [|exact H].
  intro Hin. cbn. now apply update_obj_keeps.
Qed.

Lemma present_modify_render (o : object)
  (f : render_settings -> render_settings) (w : bpy) :
  present o w ->
  runs (modify_render f) w
       (fun _ w' => present o w' /\ next_id w' = next_id w
                    /\ files w' = files w).
Proof.
  intro H. unfold modify_render. apply present_scene; [|exact H].
  intro Hin. exact Hin.
Qed.

Lemma present_print (o : object) (s : string) (w : bpy) :
  present o w ->
  runs (print s) w
       (fun _ w' => present o w' /\ next_id w' = next_id w
                    /\ files w' = files w).
Proof.
  intro H. eexists tt, _. split; [reflexivity|].
  split; [exact H|]. split; reflexivity.
Qed.

(** A new object and three assignments through the active-object handle
    leave an older object as it is. *)
Lemma present_add_and_set {B} (o : object) (nm ty dty : string) (loc : vec3)
  (sc en : Q) (f1 f2 f3 : object -> object) (k : nat -> M B)
  (Q' : B -> bpy -> Prop) (w : bpy) :
  present o w ->
  (forall w', present o w' -> next_id w' = S (next_id w) ->
              files w' = files w -> runs (k (next_id w)) w' Q') ->
  runs (object_add nm ty dty loc sc en ;;
        x <- context_active_object ;;
        modify_obj x f1 ;; modify_obj x f2 ;; modify_obj x f3 ;; k x) w Q'.
Proof.
  intros [Hin Hlt] Hk.
  assert (Hne : oid o <> next_id w) by lia.
  eapply runs_bind.
  { eexists tt, _. split; [reflexivity|].
    instantiate (1 := fun _ w' =>
      present o w' /\ active_object w' = Some (next_id w)
      /\ next_id w' = S (next_id w) /\ files w' = files w).
    cbv beta. split; [|repeat split].
    split; [cbn; apply in_or_app; now left|cbn; lia]. }
  cbv beta. intros _ w1 (P1 & A1 & N1 & F1).
  eapply runs_bind; [apply (active_x _ _ A1)|].
  cbv beta. intros x w1' [-> ->].
  eapply runs_bind; [apply (present_modify_obj o _ f1 _ Hne P1)|].
  cbv beta. intros _ w2 (P2 & N2 & F2).
  eapply runs_bind; [apply (present_modify_obj o _ f2 _ Hne P2)|].
  cbv beta. intros _ w3 (P3 & N3 & F3).
  eapply runs_bind; [apply (present_modify_obj o _ f3 _ Hne P3)|].
  cbv beta. intros _ w4 (P4 & N4 & F4).
  apply Hk; [exact P4|congruence|congruence].
Qed.

Lemma present_add_and_set_end (o : object) (nm ty dty : string) (loc : vec3)
  (sc en : Q) (f1 f2 f3 : object -> object) (w : bpy) :
  present o w ->
  runs (object_add nm ty dty loc sc en ;;
        x <- context_active_object ;;
        modify_obj x f1 ;; modify_obj x f2 ;; modify_obj x f3) w
       (fun _ w' => present o w' /\ files w' = files w).
Proof.
  intros [Hin Hlt].
  assert (Hne : oid o <> next_id w) by lia.
  eapply runs_bind.
  { eexists tt, _. split; [reflexivity|].
    instantiate (1 := fun _ w' =>
      present o w' /\ active_object w' = Some (next_id w)
      /\ next_id w' = S (next_id w) /\ files w' = files w).
    cbv beta. split; [|repeat split].
    split; [cbn; apply in_or_app; now left|cbn; lia]. }
  cbv beta. intros _ w1 (P1 & A1 & N1 & F1).
  eapply runs_bind; [apply (active_x _ _ A1)|].
  cbv beta. intros x w1' [-> ->].
  eapply runs_bind; [apply (present_modify_obj o _ f1 _ Hne P1)|].
  cbv beta. intros _ w2 (P2 & N2 & F2).
  eapply runs_bind; [apply (present_modify_obj o _ f2 _ Hne P2)|].
  cbv beta. intros _ w3 (P3 & N3 & F3).
  eapply runs_weaken; [apply (present_modify_obj o _ f3 _ Hne P3)|].
  cbv beta. intros _ w4 (P4 & N4 & F4).
  split; [exact P4|congruence].
Qed.

Lemma present_create_camera (o : object) (width_hexes height_hexes : positive)
  (w : bpy) :
  present o w ->
  runs (create_camera width_hexes height_hexes) w
       (fun camera w' => present o w' /\ (oid o < camera)%nat
                         /\ files w' = files w).
Proof.
  intro P. unfold create_camera, camera_add.
  apply (present_add_and_set o); [exact P|].
  intros w1 P1 N1 F1.
  eapply runs_bind; [apply (present_scene o (set_camera _)); [auto|exact P1]|].
  cbv beta. intros _ w2 (P2 & N2 & F2).
  exists (next_id w), w2. split; [reflexivity|].
  split; [exact P2|]. split; [apply P|congruence].
Qed.

Lemma present_create_lights (o : object) (w : bpy) :
  present o w ->
  runs create_lights w (fun _ w' => present o w' /\ files w' = files w).
Proof.
  intro P. unfold create_lights, light_add.
  apply (present_add_and_set o); [exact P|]. intros w1 P1 N1 F1.
  apply (present_add_and_set o); [exact P1|]. intros w2 P2 N2 F2.
  eapply runs_weaken; [apply (present_add_and_set_end o); exact P2|].
  cbv beta. intros _ w3 (P3 & F3). split; [exact P3|congruence].
Qed.

Lemma present_fit_camera (o : object) (camera : nat) (padding : Q) (w : bpy) :
  present o w -> oid o <> camera ->
  runs (fit_camera_to_objects camera padding) w
       (fun _ w' => present o w' /\ files w' = files w).
Proof.
  intros [Hin Hlt] Hne.
  eapply runs_weaken; [apply (fit_camera_x camera padding [] w w);
                       apply logged_refl|].
  cbv beta. intros _ w' ((F & _) & N & S). split; [|exact F].
  split; [|lia]. rewrite S. cbn. rewrite frame_objects_one.
  now apply update_obj_keeps.
Qed.

Lemma present_setup_scene (o : object) (w : bpy) :
  present o w -> selectable o = false ->
  runs setup_scene w (fun _ w' => present o w' /\ files w' = files w).
Proof.
  intros [Hin Hlt] Hs. eexists tt, _. split; [apply setup_scene_eq|].
  split; [|reflexivity]. split; [|exact Hlt]. cbn.
  apply filter_In. split; [exact Hin|]. now rewrite Hs.
Qed.

Lemma present_libraries_load (o : object) (path : string)
  (objs : list (option object)) (w : bpy) :
  present o w -> files w path = Some objs ->
  runs (libraries_load path) w
       (fun data w' =>
          present o w'
          /\ Forall (fun x => (oid o < oid x)%nat) (loaded data)
          /\ files w' = files w).
Proof.
  intros [Hin Hlt] Hf.
  eapply runs_weaken;
    [apply (libraries_load_x path objs [] w w Hf (logged_refl w))|].
  cbv beta. intros data w' (-> & (F & _) & S & N).
  destruct (stamp_loaded objs (next_id w)) as [Hld Hnx].
  split; [split; [now rewrite S|rewrite N, Hnx; lia]|]. split; [|exact F].
  rewrite Hld. apply Forall_forall. intros x Hx.
  apply (in_map oid) in Hx. rewrite renumber_oids in Hx.
  apply in_seq in Hx. lia.
Qed.

Lemma present_link_objects (o : object) (data : list (option object))
  (w : bpy) :
  present o w ->
  runs (link_objects data []) w
       (fun excluded w' =>
          present o w' /\ excluded = filter is_excluded (loaded data)
          /\ files w' = files w).
Proof.
  intros [Hin Hlt]. eexists _, _. split; [apply link_objects_run|].
  split; [|split; reflexivity].
  split; [cbn; apply in_or_app; now left|exact Hlt].
Qed.

Lemma present_remove_objects (o : object) (excluded : list object) (w : bpy) :
  present o w -> Forall (fun x => (oid o < oid x)%nat) excluded ->
  runs (remove_objects excluded) w
       (fun _ w' => present o w' /\ files w' = files w).
Proof.
  intros [Hin Hlt] Hex.
  eapply runs_weaken;
    [apply (remove_objects_x excluded [] w w (logged_refl w))|].
  cbv beta. intros _ w' ((F & _) & N & S). split; [|exact F].
  split; [|lia]. rewrite S. cbn. apply filter_In. split; [exact Hin|].
  apply negb_true_iff. destruct (existsb _ _) eqn:E; trivial.
  apply existsb_exists in E. destruct E as (i & Hi & E).
  apply Nat.eqb_eq in E. subst i. apply in_map_iff in Hi.
  destruct Hi as (x & Ex & Hx). rewrite Forall_forall in Hex.
  specialize (Hex x Hx). lia.
Qed.

(** X18: the reset of [render_model] does not clear an object that cannot
    be selected.  When the scene holds a hidden or unselectable object
    before the call, the object is still in the scene, unchanged, when the
    image is rendered: it is part of the scene written for the model,
    whatever the model file contains. *)
Theorem X18_unselectable_object_persists
  (root blend_file output_name : string)
  (width_hexes height_hexes : positive) (objs : list (option object))
  (w : bpy) (o : object) :
  files w blend_file = Some objs -> fresh_ids w ->
  In o (objects (scene w)) -> selectable o = false ->
  absolute_path root -> plain_name output_name = true ->
  renderable width_hexes height_hexes ->
  exists w',
    render_model root blend_file output_name width_hexes height_hexes w
    = Ok (tt, w')
    /\ In o (objects (scene w'))
    /\ In (path_join (OUTPUT_DIR root) (output_name ++ ".png"), scene w')
          (written w').
Proof.
  intros Hfile Hfresh Hin Hsel _ _ _.
  assert (P : present o w).
  { split; [exact Hin|]. unfold fresh_ids in Hfresh.
    rewrite Forall_forall in Hfresh. now apply Hfresh. }
  assert (G : runs (render_model root blend_file output_name width_hexes
                                 height_hexes) w
                   (fun _ w' =>
                      In o (objects (scene w'))
                      /\ In (path_join (OUTPUT_DIR root)
                                       (output_name ++ ".png"), scene w')
                            (written w'))).
  { unfold render_model.
    eapply runs_bind; [apply present_print; exact P|].
    cbv beta. intros _ w1 (P1 & _ & F1).
    eapply runs_bind; [apply present_setup_scene; [exact P1|exact Hsel]|].
    cbv beta. intros _ w2 (P2 & F2).
    eapply runs_bind.
    { apply (present_libraries_load o blend_file objs w2 P2).
      now rewrite F2, F1. }
    cbv beta. intros data w3 (P3 & Hd & F3).
    eapply runs_bind; [apply present_link_objects; exact P3|].
    cbv beta. intros ex w4 (P4 & -> & F4).
    eapply runs_bind.
    { apply present_remove_objects; [exact P4|].
      apply Forall_forall. intros x Hx. apply filter_In in Hx.
      rewrite Forall_forall in Hd. now apply Hd. }
    cbv beta. intros _ w5 (P5 & F5).
    eapply runs_bind; [apply present_modify_render; exact P5|].
    cbv beta. intros _ w6 (P6 & _).
    eapply runs_bind; [apply present_modify_render; exact P6|].
    cbv beta. intros _ w7 (P7 & _).
    eapply runs_bind; [apply present_modify_render; exact P7|].
    cbv beta. intros _ w8 (P8 & _).
    eapply runs_bind; [apply present_create_camera; exact P8|].
    cbv beta. intros camera w9 (P9 & Hc & _).
    eapply runs_bind; [apply present_create_lights; exact P9|].
    cbv beta. intros _ w10 (P10 & _).
    eapply runs_bind; [apply present_fit_camera; [exact P10|lia]|].
    cbv beta. intros _ w11 (P11 & _).
    eapply runs_weaken; [apply (finish_x _ _ [] w11 w11 (logged_refl w11))|].
    cbv beta. intros _ w12 (_ & _ & _ & _ & S & W).
    split.
    - rewrite S. cbn. apply P11.
    - rewrite W. apply in_or_app. right. now left. }
  destruct G as ([] & w' & E & G). exists w'. split; [exact E|exact G].
Qed.

Lemma X18_witness :
  exists w',
    render_model "/repo" "/repo/3Dmodels/3dprint_char.blend" "tank" 1 1
      (mkBpy (mkScene
                [mkObject 0 "Old_Hull" "MESH"
                   (box_of (mkVec 7 7 0) (mkVec 9 9 2)) identity_matrix
                   (mkVec 0 0 0) (mkVec 0 0 0) "" 0 0 false]
                None sample_render (mkCycles 64 true) (Some "World"))
             [] None 1 (disk_with ["/repo/3Dmodels/3dprint_char.blend"])
             [] [] [])
    = Ok (tt, w')
    /\ map name (objects (scene w'))
       = ["Old_Hull"; "Hull"; "RenderCamera"; "KeyLight"; "FillLight";
          "RimLight"].
Proof.
  destruct (X18_unselectable_object_persists "/repo"
              "/repo/3Dmodels/3dprint_char.blend" "tank" 1 1 sample_model
              (mkBpy (mkScene
                        [mkObject 0 "Old_Hull" "MESH"
                           (box_of (mkVec 7 7 0) (mkVec 9 9 2))
                           identity_matrix (mkVec 0 0 0) (mkVec 0 0 0)
                           "" 0 0 false]
                        None sample_render (mkCycles 64 true) (Some "World"))
                     [] None 1
                     (disk_with ["/repo/3Dmodels/3dprint_char.blend"])
                     [] [] [])
              _ eq_refl ltac:(repeat constructor) ltac:(left; reflexivity)
              eq_refl ltac:(exists ["repo"]; repeat split; discriminate)
              eq_refl ltac:(split; vm_compute; discriminate))
    as (w' & E & _).
  exists w'. split; [exact E|].
  vm_compute in E. injection E as <-. reflexivity.
Defined.

(** ** Camera and lights *)

(** X14: in a host whose object identities are all below the next fresh
    one and in which no object is named RenderCamera yet, [create_camera]
    returns the handle of one new object, appended after the objects
    already there: an orthographic camera named RenderCamera at (0, 0, 10)
    with zero rotation, which becomes the scene's camera.  The objects
    already there are unchanged, none of them has the returned handle,
    nothing is printed or written, and the two hex-count arguments play no
    part in the outcome. *)
Theorem X14_create_camera_appends (width_hexes height_hexes : positive)
  (w : bpy) :
  fresh_ids w -> name_free "RenderCamera" (objects (scene w)) ->
  exists cam c w',
    create_camera width_hexes height_hexes w = Ok (cam, w')
    /\ objects (scene w') = (objects (scene w) ++ [c])%list
    /\ oid c = cam /\ is_render_camera c /\ location c = mkVec 0 0 10
    /\ camera (scene w') = Some cam
    /\ ~ In cam (map oid (objects (scene w)))
    /\ fresh_ids w'
    /\ quiet w w'
    /\ forall a b : positive, create_camera a b w = Ok (cam, w').
Proof.
  intros F _.
  destruct (create_camera_x width_hexes height_hexes [] w w
              (logged_refl w) F) as (cam & w' & E & -> & L & Sc & N).
  exists (next_id w), (render_camera (next_id w)), w'. split; [exact E|].
  unfold fresh_ids. rewrite Sc. simpl. split; [reflexivity|].
  split; [reflexivity|].
  split; [unfold is_render_camera; cbn; repeat split; reflexivity|].
  split; [reflexivity|].
  split; [reflexivity|]. split; [|split; [|split]].
  - intro Hin. apply in_map_iff in Hin. destruct Hin as (o & Ho & Hin).
    unfold fresh_ids in F. rewrite Forall_forall in F.
    specialize (F o Hin). lia.
  - rewrite N. apply Forall_app. split.
    + eapply Forall_impl; [|exact F]. simpl. intros; lia.
    + constructor; [simpl; lia|constructor].
  - split; [exact L|]. now rewrite Sc.
  - intros a b. exact E.
Qed.

Lemma X14_witness :
  exists cam c w',
    create_camera 1 1
      (host_with [mesh_named 0 "Hull"
                    (box_of (mkVec (-1) (-1) 0) (mkVec 1 1 2))])
    = Ok (cam, w')
    /\ objects (scene w')
       = [mesh_named 0 "Hull" (box_of (mkVec (-1) (-1) 0) (mkVec 1 1 2)); c]
    /\ name c = "RenderCamera" /\ data_type c = "ORTHO"
    /\ camera (scene w') = Some cam.
Proof.
  destruct (X14_create_camera_appends 1 1
              (host_with [mesh_named 0 "Hull"
                            (box_of (mkVec (-1) (-1) 0) (mkVec 1 1 2))]))
    as (cam & c & w' & E & O & _ & (Hn & _ & Hd & _) & _ & Cm & _).
  - repeat constructor.
  - intros [H|[]]. discriminate H.
  - exists cam, c, w'. auto.
Defined.

(** X15: in a host whose object identities are all below the next fresh
    one and in which no object is named KeyLight, FillLight or RimLight
    yet, [create_lights] appends exactly three sun lights after the
    objects already there: KeyLight at (5, -5, 10) with energy 3, FillLight
    at (-5, 5, 8) with energy 1.5 and RimLight at (0, 5, 12) with energy 1,
    each with its rotation.  The objects already there and the scene's
    camera are unchanged, the new objects have identities of their own,
    the meshes of the scene are the same as before, so that the lights
    take no part in what the camera is fitted to, and nothing is printed
    or written. *)
Theorem X15_create_lights_appends (w : bpy) :
  fresh_ids w ->
  (forall nm, In nm ["KeyLight"; "FillLight"; "RimLight"] ->
              name_free nm (objects (scene w))) ->
  exists lights w',
    create_lights w = Ok (tt, w')
    /\ objects (scene w') = (objects (scene w) ++ lights)%list
    /\ is_light_rig lights
    /\ camera (scene w') = camera (scene w)
    /\ filter is_mesh (objects (scene w'))
       = filter is_mesh (objects (scene w))
    /\ NoDup (map oid lights)
    /\ (forall o, In o lights -> ~ In (oid o) (map oid (objects (scene w))))
    /\ fresh_ids w'
    /\ quiet w w'.
Proof.
  intros F _.
  destruct (create_lights_x [] w w (logged_refl w) F)
    as ([] & w' & E & L & Sc & N).
  exists (light_rig (next_id w)), w'. split; [exact E|].
  unfold fresh_ids. rewrite Sc. simpl.
  split; [reflexivity|]. split; [apply light_rig_is_rig|].
  split; [reflexivity|].
  split; [|split; [|split; [|split]]].
  - rewrite filter_app. simpl. now rewrite app_nil_r.
  - repeat constructor; simpl; intuition lia.
  - intros o Ho Hin. apply in_map_iff in Hin. destruct Hin as (x & Hx & Hin).
    unfold fresh_ids in F. rewrite Forall_forall in F. specialize (F x Hin).
    destruct Ho as [<-|[<-|[<-|[]]]]; simpl in Hx; lia.
  - rewrite N. apply Forall_app. split.
    + eapply Forall_impl; [|exact F]. simpl. intros; lia.
    + repeat constructor; simpl; lia.
  - split; [exact L|]. now rewrite Sc.
Qed.

Lemma X15_witness :
  exists lights w',
    create_lights two_box_host = Ok (tt, w')
    /\ objects (scene w') = (objects (scene two_box_host) ++ lights)%list
    /\ map name lights = ["KeyLight"; "FillLight"; "RimLight"].
Proof.
  destruct (X15_create_lights_appends two_box_host)
    as (lights & w' & E & O
        & (k & f & r & -> & (Hk & _) & (Hf & _) & (Hr & _)) & _).
  - repeat constructor.
  - intros nm Hin C. simpl in C.
    destruct C as [<-|[<-|[<-|[]]]]; simpl in Hin;
      repeat (destruct Hin as [Hin|Hin]; [discriminate Hin|]); exact Hin.
  - exists [k; f; r], w'. split; [exact E|]. split; [exact O|].
    cbn [map]. now rewrite Hk, Hf, Hr.
Defined.

(** ** Letter case *)

Lemma lower_char_upper (a b : ascii) :
  (65 <= N_of_ascii a <= 90)%N -> N_of_ascii b = (N_of_ascii a + 32)%N ->
  lower_char a = lower_char b.
Proof.
  intros [H1 H2] E. unfold lower_char. rewrite E.
  replace ((65 <=? N_of_ascii a) && (N_of_ascii a <=? 90))%N with true.
  - replace ((65 <=? N_of_ascii a + 32) && (N_of_ascii a + 32 <=? 90))%N
      with false.
    + now rewrite <- E, ascii_N_embedding.
    + symmetry. apply andb_false_iff. right. apply N.leb_gt. lia.
  - symmetry. apply andb_true_iff. split; apply N.leb_le; lia.
Qed.

Lemma same_letter_lower (a b : ascii) :
  same_letter a b -> lower_char a = lower_char b.
Proof.
  intros [->|[[H E]|[H E]]]; trivial.
  - now apply lower_char_upper.
  - symmetry. now apply lower_char_upper.
Qed.

Lemma same_up_to_case_lower (s t : string) :
  same_up_to_case s t -> lower s = lower t.
Proof.
  revert t. induction s as [|a s IH]; intros [|b t]; simpl; try tauto.
  intros [H1 H2]. now rewrite (same_letter_lower a b H1), (IH t H2).
Qed.

(** X16: the filter does not see letter case.  Two objects of the same type
    and bounding box whose names differ only in the case of ASCII letters
    get the same result from [should_exclude_object]. *)
Theorem X16_filter_ignores_case (o1 o2 : object) :
  same_up_to_case (name o1) (name o2) ->
  type o1 = type o2 -> bound_box o1 = bound_box o2 ->
  should_exclude_object o1 = should_exclude_object o2.
Proof.
  intros Hn Ht Hb. unfold should_exclude_object.
  now rewrite (same_up_to_case_lower _ _ Hn), Ht, Hb.
Qed.

Lemma X16_witness :
  should_exclude_object
    (mesh_named 0 "GROUND Plane" (box_of (mkVec 0 0 0) (mkVec 1 1 1)))
  = should_exclude_object
      (mesh_named 0 "ground plane" (box_of (mkVec 0 0 0) (mkVec 1 1 1))).
Proof.
  apply X16_filter_ignores_case; [|reflexivity|reflexivity].
  simpl. unfold same_letter. simpl.
  repeat (split; [first [left; reflexivity | right; right; split; [lia|reflexivity] | right; left; split; [lia|reflexivity]]|]).
  exact I.
Defined.
